(** * FluxaPay settlement pipeline: sweep, payment monitor, on-chain verification

    A shallow embedding of
      - fluxapay_backend/src/services/sweep.service.ts
      - fluxapay_backend/src/services/paymentMonitor.service.ts
      - fluxapay_backend/src/services/paymentContract.service.ts
    and, for the further properties, of the code around them:
      - fluxapay_backend/src/services/audit.service.ts
      - fluxapay_backend/src/routes/sweep.route.ts
    The Payment table is a list of rows, Prisma calls are functions on it,
    JavaScript numbers are binary64 values, and the external collaborators
    (Horizon, the key deriver, the Soroban contract, the event bus) are
    fields of an environment record: functions whose calls either return
    or throw.  Each service logs what it does, in order, as a list of
    events. *)

From Stdlib Require Import ZArith List String Ascii Bool Lia DecimalString.
From Stdlib Require Import Floats.SpecFloat.
From Stdlib Require Import Permutation.
Import ListNotations.
Open Scope string_scope.
Open Scope Z_scope.

(* ------------------------------------------------------------------ *)
(** ** JavaScript numbers (IEEE 754 binary64) *)

Module JsNumber.

Definition number := spec_float.
Definition prec : Z := 53.
Definition emax : Z := 1024.

Definition NaN : number := S754_nan.
Definition zero : number := S754_zero false.

(** The number nearest to the integer [z]. *)
Definition ofZ (z : Z) : number := binary_normalize prec emax z 0 false.

(** [Number.isFinite(x)] *)
Definition isFinite (x : number) : bool :=
  match x with
  | S754_zero _ | S754_finite _ _ _ => true
  | S754_infinity _ | S754_nan => false
  end.

Definition ltb (a b : number) : bool := SFltb a b.   (* a <  b *)
Definition leb (a b : number) : bool := SFleb a b.   (* a <= b *)
Definition gtb (a b : number) : bool := SFltb b a.   (* a >  b *)
Definition geb (a b : number) : bool := SFleb b a.   (* a >= b *)
Definition eqb (a b : number) : bool := SFeqb a b.   (* a == b *)
Definition add (a b : number) : number := SFadd prec emax a b.

(** The integer a number denotes, when it denotes one. *)
Definition toInteger (x : number) : option Z :=
  match x with
  | S754_zero _ => Some 0
  | S754_finite s m e =>
      let v := if s then Z.neg m else Z.pos m in
      if 0 <=? e then Some (v * 2 ^ e)
      else if (Z.pos m mod 2 ^ (- e)) =? 0 then Some (v / 2 ^ (- e))
      else None
  | _ => None
  end.

End JsNumber.
Abbreviation number := JsNumber.number.

(* ------------------------------------------------------------------ *)
(** ** JavaScript strings and truthiness *)

Module JsString.

(** [Boolean(s)] for a string: only the empty string is falsy. *)
Definition truthy (s : string) : bool := negb (String.eqb s "").

(** [Boolean(v)] for a [string | null | undefined]. *)
Definition truthyOpt (v : option string) : bool :=
  match v with
  | Some s => truthy s
  | None => false
  end.

(** [a > b] on strings: code-unit lexicographic order. *)
Definition gt (a b : string) : bool := String.ltb b a.

(** [a === b] for [a : string] and [b : string | null]. *)
Definition strictEqOpt (a : string) (b : option string) : bool :=
  match b with
  | Some s => String.eqb a s
  | None => false
  end.

Definition ofZ (z : Z) : string := NilZero.string_of_int (Z.to_int z).

End JsString.

(* ------------------------------------------------------------------ *)
(** ** Thrown values, results, and effectful code *)

(** What a [catch (e)] clause receives: [isError] is [e instanceof Error],
    [message] is [e.message] for an Error and [String(e)] otherwise,
    [responseStatus] is [e.response?.status]. *)
Record Thrown := {
  isError : bool;
  message : string;
  responseStatus : option Z
}.

Definition mkError (msg : string) : Thrown :=
  {| isError := true; message := msg; responseStatus := None |}.

Inductive Result (A : Type) : Type :=
| Ok (a : A)
| Throw (e : Thrown).
Arguments Ok {A} a.
Arguments Throw {A} e.

(** Code with effects on a state [S] that may throw: the state reached
    when the exception is raised is kept, as in JavaScript. *)
Definition Eff (S A : Type) : Type := S -> S * Result A.

Definition ret {S A} (a : A) : Eff S A := fun s => (s, Ok a).

Definition bind {S A B} (c : Eff S A) (k : A -> Eff S B) : Eff S B :=
  fun s =>
    match c s with
    | (s', Ok a) => k a s'
    | (s', Throw e) => (s', Throw e)
    end.

Definition modify {S} (f : S -> S) : Eff S unit := fun s => (f s, Ok tt).

(** An awaited call to a collaborator, which returns or throws. *)
Definition await {S A} (r : Result A) : Eff S A := fun s => (s, r).

(** [try { body } catch (e) { handler e }] *)
Definition tryCatch {S A} (body : Eff S A) (handler : Thrown -> Eff S A) : Eff S A :=
  fun s =>
    match body s with
    | (s', Ok a) => (s', Ok a)
    | (s', Throw e) => handler e s'
    end.

(** [for (const x of xs) { body x }] *)
Fixpoint forOf {S A} (xs : list A) (body : A -> Eff S unit) : Eff S unit :=
  match xs with
  | [] => ret tt
  | x :: rest => bind (body x) (fun _ => forOf rest body)
  end.

Declare Scope eff_scope.
Delimit Scope eff_scope with eff.
Notation "x <- c ;; k" := (bind c (fun x => k))
  (at level 61, c at next level, right associativity) : eff_scope.
Notation "c ;;; k" := (bind c (fun _ => k))
  (at level 61, right associativity) : eff_scope.

(* ------------------------------------------------------------------ *)
(** ** [parseInt(s, 10)] on ASCII input *)

Module JsParse.

Definition isWhiteSpace (c : ascii) : bool :=
  let n := N_of_ascii c in
  ((9 <=? n) && (n <=? 13) || (n =? 32))%N.

Definition digitValue (c : ascii) : option Z :=
  let n := N_of_ascii c in
  if ((48 <=? n) && (n <=? 57))%N then Some (Z.of_N n - 48) else None.

Fixpoint trimStart (s : string) : string :=
  match s with
  | String c rest => if isWhiteSpace c then trimStart rest else s
  | EmptyString => s
  end.

(** Reads the longest prefix of decimal digits, most significant first;
    [None] when there is no digit at all. *)
Fixpoint digitsPrefix (acc : option Z) (s : string) : option Z :=
  match s with
  | String c rest =>
      match digitValue c with
      | Some d =>
          digitsPrefix (Some (10 * match acc with Some a => a | None => 0 end + d)) rest
      | None => acc
      end
  | EmptyString => acc
  end.

Definition parseInt10 (s : string) : number :=
  let s1 := trimStart s in
  let '(negative, s2) :=
    match s1 with
    | String "-" rest => (true, rest)
    | String "+" rest => (false, rest)
    | _ => (false, s1)
    end in
  match digitsPrefix None s2 with
  | Some v =>
      binary_normalize JsNumber.prec JsNumber.emax (if negative then - v else v) 0
        negative
  | None => JsNumber.NaN
  end.

End JsParse.

(* ------------------------------------------------------------------ *)
(** ** The Payment table *)

Inductive PaymentStatus :=
| pending | partially_paid | confirmed | overpaid | paid | expired | failed.

Definition PaymentStatus_eqb (a b : PaymentStatus) : bool :=
  match a, b with
  | pending, pending | partially_paid, partially_paid | confirmed, confirmed
  | overpaid, overpaid | paid, paid | expired, expired | failed, failed => true
  | _, _ => false
  end.

(** The columns of a Payment row that the three services read or write.
    [amount] is the value [Number(p.amount)] yields for the stored Decimal;
    dates are milliseconds since the epoch. *)
Record Payment := {
  id : string;
  merchantId : string;
  amount : number;
  status : PaymentStatus;
  expiration : Z;
  stellar_address : option string;
  last_paging_token : option string;
  transaction_hash : option string;
  confirmed_at : option Z;
  swept : bool;
  swept_at : option Z;
  sweep_tx_hash : option string;
  onchain_verified : bool;
  contract_tx_hash : option string;
  verification_error : option string
}.

(** The [data] object of a Prisma update: an absent field leaves the
    column alone, a present one overwrites it. *)
Record PaymentData := {
  set_status : option PaymentStatus;
  set_last_paging_token : option (option string);
  set_transaction_hash : option string;
  set_swept : option bool;
  set_swept_at : option Z;
  set_sweep_tx_hash : option string;
  set_onchain_verified : option bool;
  set_contract_tx_hash : option string;
  set_verification_error : option (option string)
}.

Definition orElse {A} (o : option A) (d : A) : A :=
  match o with Some a => a | None => d end.

Definition orKeep {A} (o : option A) (old : option A) : option A :=
  match o with Some a => Some a | None => old end.

Definition applyData (d : PaymentData) (r : Payment) : Payment :=
  {| id := id r;
     merchantId := merchantId r;
     amount := amount r;
     status := orElse (set_status d) (status r);
     expiration := expiration r;
     stellar_address := stellar_address r;
     last_paging_token := orElse (set_last_paging_token d) (last_paging_token r);
     transaction_hash := orKeep (set_transaction_hash d) (transaction_hash r);
     confirmed_at := confirmed_at r;
     swept := orElse (set_swept d) (swept r);
     swept_at := orKeep (set_swept_at d) (swept_at r);
     sweep_tx_hash := orKeep (set_sweep_tx_hash d) (sweep_tx_hash r);
     onchain_verified := orElse (set_onchain_verified d) (onchain_verified r);
     contract_tx_hash := orKeep (set_contract_tx_hash d) (contract_tx_hash r);
     verification_error :=
       orElse (set_verification_error d) (verification_error r) |}.

Definition Store := list Payment.

Module Prisma.

Definition hasId (pid : string) (r : Payment) : bool := String.eqb (id r) pid.

Definition findMany (cond : Payment -> bool) (db : Store) : list Payment :=
  filter cond db.

Definition findUnique (pid : string) (db : Store) : option Payment :=
  find (hasId pid) db.

Definition updateMany (cond : Payment -> bool) (d : PaymentData) (db : Store) : Store :=
  map (fun r => if cond r then applyData d r else r) db.

(** [payment.update({ where: { id }, data })] rejects when no row has
    the id. *)
Definition update (pid : string) (d : PaymentData) (db : Store) : Result Store :=
  match findUnique pid db with
  | Some _ => Ok (updateMany (hasId pid) d db)
  | None => Throw (mkError "Record to update not found.")
  end.

(** [orderBy: { confirmed_at: "asc" }]: ascending, rows without a value
    last, rows with equal values in table order. *)
Definition confirmedAtLe (a b : Payment) : bool :=
  match confirmed_at a, confirmed_at b with
  | Some x, Some y => x <=? y
  | Some _, None => true
  | None, Some _ => false
  | None, None => true
  end.

Fixpoint insertBy (le : Payment -> Payment -> bool) (x : Payment) (l : list Payment) :=
  match l with
  | [] => [x]
  | y :: rest => if le x y then x :: l else y :: insertBy le x rest
  end.

Definition orderBy (le : Payment -> Payment -> bool) (l : list Payment) :=
  fold_right (insertBy le) [] l.

(** [take: n]: the first [n] rows for [n >= 0], the last [-n] rows for a
    negative integer; any other number is rejected by the client. *)
Definition take (n : number) (rows : list Payment) : Result (list Payment) :=
  match JsNumber.toInteger n with
  | Some k =>
      if 0 <=? k then Ok (firstn (Z.to_nat k) rows)
      else Ok (skipn (List.length rows - Z.to_nat (- k))%nat rows)
  | None => Throw (mkError "Argument take: invalid value, expected Int.")
  end.

End Prisma.

(* ------------------------------------------------------------------ *)
(** ** Observable actions of the services, in program order *)

Inductive Event :=
| AuditSweepTrigger (adminId sweepType : string)
| AuditSweepCompletion (auditStatus : string) (addresses_swept : nat)
    (total_amount : string) (first_hash : option string)
    (failureReason : option string)
| RegenerateKeypair (merchant payment : string)
  (** a ledger submission, tagged with the payment it is made for *)
| SubmitTransaction (payment sourceSecret destination amountStr : string)
| PaymentUpdate (payment : string) (data : PaymentData)
| ExpireStale (now : Z)
| LoadAccount (address : string)
| PaymentsCall (address : string) (cursor : option string)
| VerifyPaymentDispatched (payment txHash amountStr : string)
| EmitPaymentConfirmed (row : Payment)
| ConsoleError (text : string)
| InvokeVerifyContract (attempt : nat) (payment txHash amountStr : string)
| Sleep (ms : Z)
| ManualIntervention (payment reason : string).

(* ------------------------------------------------------------------ *)
(** ** sweep.service.ts *)

Record Keypair := { publicKey : string; secretKey : string }.

Record SweepOptions := {
  limit : option number;
  adminId : option string;
  dryRun : option bool
}.

Module SweepResult.
Record t := {
  sweepId : string;
  startedAt : Z;
  completedAt : Z;
  addressesSwept : nat;
  totalAmount : string;
  masterVaultPublicKey : string;
  txHashes : list string;
  skipped : list (string * string)   (* paymentId, reason *)
}.
End SweepResult.

Module Sweep.

Local Open Scope eff_scope.

(** The table together with the locals of [sweepPaidPayments]. *)
Record State := {
  db : Store;
  txHashes : list string;
  skipped : list (string * string);
  total : number;
  addressesSwept : nat;
  events : list Event
}.

Definition initial (store : Store) : State :=
  {| db := store; txHashes := []; skipped := []; total := JsNumber.zero;
     addressesSwept := 0%nat; events := [] |}.

Definition log (e : Event) : Eff State unit :=
  modify (fun st =>
    {| db := db st; txHashes := txHashes st; skipped := skipped st;
       total := total st; addressesSwept := addressesSwept st;
       events := events st ++ [e] |}).

(** [skipped.push({ paymentId, reason })] *)
Definition pushSkipped (paymentId reason : string) : Eff State unit :=
  modify (fun st =>
    {| db := db st; txHashes := txHashes st;
       skipped := skipped st ++ [(paymentId, reason)];
       total := total st; addressesSwept := addressesSwept st;
       events := events st |}).

(** [txHashes.push(hash)] *)
Definition pushHash (hash : string) : Eff State unit :=
  modify (fun st =>
    {| db := db st; txHashes := txHashes st ++ [hash];
       skipped := skipped st; total := total st;
       addressesSwept := addressesSwept st; events := events st |}).

(** [addressesSwept += 1; total += expected] *)
Definition count (expected : number) : Eff State unit :=
  modify (fun st =>
    {| db := db st; txHashes := txHashes st; skipped := skipped st;
       total := JsNumber.add (total st) expected;
       addressesSwept := S (addressesSwept st); events := events st |}).

(** [await prisma.payment.update({ where: { id }, data })] *)
Definition paymentUpdate (paymentId : string) (d : PaymentData) : Eff State unit :=
  fun st =>
    match Prisma.update paymentId d (db st) with
    | Ok db' =>
        ({| db := db'; txHashes := txHashes st; skipped := skipped st;
            total := total st; addressesSwept := addressesSwept st;
            events := events st ++ [PaymentUpdate paymentId d] |}, Ok tt)
    | Throw e => (st, Throw e)
    end.

(** [swept: false, stellar_address: { not: null },
     status: { in: ["confirmed", "overpaid", "paid"] }] *)
Definition unsweptPaid (p : Payment) : bool :=
  negb (swept p)
  && (match stellar_address p with Some _ => true | None => false end)
  && (match status p with confirmed | overpaid | paid => true | _ => false end).

Definition getUnsweptPaidPayments (limit : number) (store : Store)
  : Result (list Payment) :=
  Prisma.take limit
    (Prisma.orderBy Prisma.confirmedAtLe (Prisma.findMany unsweptPaid store)).

(** [!Number.isFinite(expected) || expected <= 0] *)
Definition invalidAmount (expected : number) : bool :=
  negb (JsNumber.isFinite expected) || JsNumber.leb expected JsNumber.zero.

(** [p.stellar_address && kp.publicKey !== p.stellar_address] *)
Definition addressMismatch (p : Payment) (kp : Keypair) : bool :=
  JsString.truthyOpt (stellar_address p)
  && negb (JsString.strictEqOpt (publicKey kp) (stellar_address p)).

(** What a run reads from its process and its collaborators. *)
Record Env := {
  (** [process.env.SWEEP_BATCH_LIMIT] *)
  SWEEP_BATCH_LIMIT : option string;
  (** [this.vaultKeypair.publicKey()] *)
  vaultPublicKey : string;
  (** [this.hdWalletService.regenerateKeypair(merchantId, paymentId)] *)
  regenerateKeypair : string -> string -> Result Keypair;
  (** [this.submitUsdcSweepTx({ sourceSecret, destination, amount })]:
      loads the source account, signs with the source key, submits. *)
  submitUsdcSweepTx : string -> string -> string -> Result string;
  (** [x.toFixed(7)] *)
  toFixed7 : number -> string;
  (** Readings of [new Date()]: at the start, when a payment's row is
      written, at the end. *)
  startedAt : Z;
  sweptAtClock : string -> Z;
  completedAt : Z;
  (** Whether [logSweepTrigger] returned a log entry rather than null. *)
  auditLogCreated : bool
}.

(** [options.dryRun === true] *)
Definition dryRunOf (options : SweepOptions) : bool :=
  match dryRun options with Some true => true | _ => false end.

(** [options.adminId || "system"] *)
Definition adminIdOf (options : SweepOptions) : string :=
  if JsString.truthyOpt (adminId options) then orElse (adminId options) "" else "system".

Section Service.

Variable env : Env.

Definition resolveLimit (options : SweepOptions) : number :=
  let fallback :=
    JsParse.parseInt10
      (if JsString.truthyOpt (SWEEP_BATCH_LIMIT env)
       then orElse (SWEEP_BATCH_LIMIT env) "" else "200") in
  match limit options with
  | Some l => if JsNumber.isFinite l && JsNumber.gtb l JsNumber.zero then l else fallback
  | None => fallback
  end.

(** The body of the [try] block for one payment. *)
Definition sweepOne (dry : bool) (p : Payment) : Eff State unit :=
  let expected := amount p in
  if invalidAmount expected then
    pushSkipped (id p) "Invalid amount"
  else
    log (RegenerateKeypair (merchantId p) (id p)) ;;;
    kp <- await (regenerateKeypair env (merchantId p) (id p)) ;;
    if addressMismatch p kp then
      pushSkipped (id p) "Derived address mismatch"
    else if dry then
      count expected
    else
      let amountStr := toFixed7 env expected in
      log (SubmitTransaction (id p) (secretKey kp) (vaultPublicKey env) amountStr) ;;;
      hash <- await (submitUsdcSweepTx env (secretKey kp) (vaultPublicKey env) amountStr) ;;
      paymentUpdate (id p)
        {| set_status := None; set_last_paging_token := None;
           set_transaction_hash := None;
           set_swept := Some true;
           set_swept_at := Some (sweptAtClock env (id p));
           set_sweep_tx_hash := Some hash;
           set_onchain_verified := None; set_contract_tx_hash := None;
           set_verification_error := None |} ;;;
      pushHash hash ;;;
      count expected.

(** One iteration of the loop: [try { ... } catch (err) { skipped.push }]. *)
Definition sweepIteration (dry : bool) (p : Payment) : Eff State unit :=
  tryCatch (sweepOne dry p) (fun err => pushSkipped (id p) (message err)).

Definition failureReasonOf (sk : list (string * string)) : string :=
  String.concat " | "
    (firstn 5 (map (fun s => fst s ++ ":" ++ snd s) sk)).

(** The call to [updateSweepCompletion], made when there is a log entry. *)
Definition auditCompletion : Eff State unit :=
  fun st =>
    let noneSwept :=
      (0 <? List.length (skipped st))%nat && (addressesSwept st =? 0)%nat in
    if auditLogCreated env then
      log (AuditSweepCompletion
             (if noneSwept then "failed" else "completed")
             (addressesSwept st) (toFixed7 env (total st)) (hd_error (txHashes st))
             (if noneSwept then Some (failureReasonOf (skipped st)) else None)) st
    else (st, Ok tt).

Definition sweepPaidPayments (options : SweepOptions) : Eff State SweepResult.t :=
  let sweepId := "sweep_" ++ JsString.ofZ (startedAt env) in
  let limit := resolveLimit options in
  let adminId := adminIdOf options in
  let dry := dryRunOf options in
  log (AuditSweepTrigger adminId (if dry then "dry_run" else "scheduled")) ;;;
  payments <- (fun st => (st, getUnsweptPaidPayments limit (db st))) ;;
  forOf payments (sweepIteration dry) ;;;
  auditCompletion ;;;
  (fun st =>
     (st, Ok {| SweepResult.sweepId := sweepId;
                SweepResult.startedAt := startedAt env;
                SweepResult.completedAt := completedAt env;
                SweepResult.addressesSwept := addressesSwept st;
                SweepResult.totalAmount := toFixed7 env (total st);
                SweepResult.masterVaultPublicKey := vaultPublicKey env;
                SweepResult.txHashes := txHashes st;
                SweepResult.skipped := skipped st |})).

(** A run against a table. *)
Definition run (options : SweepOptions) (store : Store)
  : State * Result SweepResult.t :=
  sweepPaidPayments options (initial store).

End Service.

End Sweep.

(* ------------------------------------------------------------------ *)
(** ** What Horizon returns *)

Module Horizon.

(** One entry of [account.balances]; [asset_code] is absent on the
    native line. *)
Module Balance.
Record t := {
  asset_code : option string;
  asset_issuer : option string;
  balance : string
}.
End Balance.

Record AccountResponse := { balances : list Balance.t }.

(** One record of a payments page. *)
Module Operation.
Record t := {
  paging_token : string;
  type : string;
  asset_type : option string;
  asset_code : option string;
  asset_issuer : option string;
  transaction_hash : string;
  from : option string
}.
End Operation.

End Horizon.

(* ------------------------------------------------------------------ *)
(** ** paymentMonitor.service.ts *)

Module Monitor.

Local Open Scope eff_scope.

Record Env := {
  (** [getUsdcAsset().issuer] *)
  usdcIssuer : string;
  (** [getServer().loadAccount(address)] *)
  loadAccount : string -> Result Horizon.AccountResponse;
  (** [getServer().payments().forAccount(address).order('desc').limit(10)]
      with the optional [.cursor(token)], then [.call()]; the answer is
      [transactions.records]. *)
  paymentsCall : string -> option string -> Result (list Horizon.Operation.t);
  (** [parseFloat(s)] and [x.toString()] *)
  parseFloat : string -> number;
  numberToString : number -> string;
  (** The dynamic imports followed by
      [eventBus.emit(AppEvents.PAYMENT_CONFIRMED, updatedPayment)]. *)
  eventBusEmit : Payment -> Result unit
}.

Record State := {
  db : Store;
  events : list Event
}.

Definition initial (store : Store) : State := {| db := store; events := [] |}.

Definition log (e : Event) : Eff State unit :=
  modify (fun st => {| db := db st; events := events st ++ [e] |}).

Definition paymentUpdate (paymentId : string) (d : PaymentData) : Eff State unit :=
  fun st =>
    match Prisma.update paymentId d (db st) with
    | Ok db' => ({| db := db'; events := events st ++ [PaymentUpdate paymentId d] |}, Ok tt)
    | Throw e => (st, Throw e)
    end.

Definition pendingOrPartial (p : Payment) : bool :=
  match status p with pending | partially_paid => true | _ => false end.

(** [status in [pending, partially_paid], expiration <= now] *)
Definition stale (now : Z) (p : Payment) : bool :=
  pendingOrPartial p && (expiration p <=? now).

(** [status in [pending, partially_paid], expiration > now,
     stellar_address not null] *)
Definition active (now : Z) (p : Payment) : bool :=
  pendingOrPartial p && (now <? expiration p)
  && (match stellar_address p with Some _ => true | None => false end).

Definition expiredData : PaymentData :=
  {| set_status := Some expired; set_last_paging_token := None;
     set_transaction_hash := None; set_swept := None; set_swept_at := None;
     set_sweep_tx_hash := None; set_onchain_verified := None;
     set_contract_tx_hash := None; set_verification_error := None |}.

(** Step 1 of the tick: the bulk [updateMany]. *)
Definition expireStale (now : Z) (store : Store) : Store :=
  Prisma.updateMany (stale now) expiredData store.

(** The locals the loop over [transactions.records] maintains. *)
Record Scan := {
  latestPagingToken : option string;
  latestTxHash : option string;
  latestPayer : option string
}.

(** [record.paging_token &&
     (!latestPagingToken || record.paging_token > latestPagingToken)] *)
Definition advances (token : string) (latest : option string) : bool :=
  JsString.truthy token
  && (negb (JsString.truthyOpt latest)
      || match latest with
         | Some cur => JsString.gt token cur
         | None => false
         end).

(** The cursor the payments query starts from:
    [if (payment.last_paging_token) paymentsQuery.cursor(...)]. *)
Definition cursorOf (payment : Payment) : option string :=
  if JsString.truthyOpt (last_paging_token payment)
  then last_paging_token payment else None.

(** [(e as any).response?.status !== 404], negated *)
Definition notFound (e : Thrown) : bool :=
  match responseStatus e with
  | Some code => code =? 404
  | None => false
  end.

Section Service.

Variable env : Env.

(** [record.type === 'payment' && record.asset_type === 'credit_alphanum4'
     && record.asset_code === 'USDC' && record.asset_issuer === issuer] *)
Definition isUsdcPayment (r : Horizon.Operation.t) : bool :=
  String.eqb (Horizon.Operation.type r) "payment"
  && JsString.strictEqOpt "credit_alphanum4" (Horizon.Operation.asset_type r)
  && JsString.strictEqOpt "USDC" (Horizon.Operation.asset_code r)
  && JsString.strictEqOpt (usdcIssuer env) (Horizon.Operation.asset_issuer r).

(** One turn of [for (const record of transactions.records)]. *)
Definition scanRecord (acc : Scan) (r : Horizon.Operation.t) : Scan :=
  let token :=
    if advances (Horizon.Operation.paging_token r) (latestPagingToken acc)
    then Some (Horizon.Operation.paging_token r)
    else latestPagingToken acc in
  if isUsdcPayment r && negb (JsString.truthyOpt (latestTxHash acc)) then
    {| latestPagingToken := token;
       latestTxHash := Some (Horizon.Operation.transaction_hash r);
       latestPayer := Horizon.Operation.from r |}
  else
    {| latestPagingToken := token;
       latestTxHash := latestTxHash acc;
       latestPayer := latestPayer acc |}.

Definition scanRecords (payment : Payment) (records : list Horizon.Operation.t) : Scan :=
  fold_left scanRecord records
    {| latestPagingToken := last_paging_token payment;
       latestTxHash := None; latestPayer := None |}.

(** ['asset_code' in b && b.asset_code === 'USDC'
     && b.asset_issuer === issuer] *)
Definition isUsdcBalance (b : Horizon.Balance.t) : bool :=
  JsString.strictEqOpt "USDC" (Horizon.Balance.asset_code b)
  && JsString.strictEqOpt (usdcIssuer env) (Horizon.Balance.asset_issuer b).

Definition totalReceivedOf (account : Horizon.AccountResponse) : number :=
  match find isUsdcBalance (Horizon.balances account) with
  | Some b => parseFloat env (Horizon.Balance.balance b)
  | None => JsNumber.zero
  end.

(** The status the balance calls for, if any. *)
Definition newStatusOf (totalReceived expectedAmount : number) : option PaymentStatus :=
  if JsNumber.geb totalReceived expectedAmount then
    Some (if JsNumber.gtb totalReceived expectedAmount then overpaid else confirmed)
  else if JsNumber.gtb totalReceived JsNumber.zero then
    Some partially_paid
  else None.

Definition option_string_eqb (a b : option string) : bool :=
  match a, b with
  | Some x, Some y => String.eqb x y
  | None, None => true
  | _, _ => false
  end.

(** The [else if] branch: only the paging token moved. *)
Definition updateTokenOnly (payment : Payment) (sc : Scan) : Eff State unit :=
  if JsString.truthyOpt (latestPagingToken sc)
     && negb (option_string_eqb (latestPagingToken sc) (last_paging_token payment))
  then
    paymentUpdate (id payment)
      {| set_status := None;
         set_last_paging_token := Some (latestPagingToken sc);
         set_transaction_hash := None; set_swept := None; set_swept_at := None;
         set_sweep_tx_hash := None; set_onchain_verified := None;
         set_contract_tx_hash := None; set_verification_error := None |}
  else ret tt.

(** After the status write: start the verification without awaiting
    it, then emit the event. *)
Definition notifySettled (payment : Payment) (hash : string) (totalReceived : number)
  : Eff State unit :=
  log (VerifyPaymentDispatched (id payment) hash (numberToString env totalReceived)) ;;;
  updatedPayment <- (fun st => (st, Ok (Prisma.findUnique (id payment) (db st)))) ;;
  match updatedPayment with
  | Some row => log (EmitPaymentConfirmed row) ;;; await (eventBusEmit env row)
  | None => ret tt
  end.

(** The body of the [try] block for one payment at [address]. *)
Definition checkPayment (payment : Payment) (address : string) : Eff State unit :=
  log (LoadAccount address) ;;;
  account <- await (loadAccount env address) ;;
  let totalReceived := totalReceivedOf account in
  let cursor := cursorOf payment in
  log (PaymentsCall address cursor) ;;;
  records <- await (paymentsCall env address cursor) ;;
  let sc := scanRecords payment records in
  let expectedAmount := amount payment in
  match newStatusOf totalReceived expectedAmount with
  | Some newStatus =>
      if negb (PaymentStatus_eqb newStatus (status payment))
         || JsString.truthyOpt (latestTxHash sc)
      then
        paymentUpdate (id payment)
          {| set_status := Some newStatus;
             set_last_paging_token := Some (latestPagingToken sc);
             set_transaction_hash :=
               if JsString.truthyOpt (latestTxHash sc) then latestTxHash sc else None;
             set_swept := None; set_swept_at := None;
             set_sweep_tx_hash := None; set_onchain_verified := None;
             set_contract_tx_hash := None; set_verification_error := None |} ;;;
        match newStatus, latestTxHash sc with
        | (confirmed | overpaid), Some hash =>
            if JsString.truthy hash
            then notifySettled payment hash totalReceived
            else ret tt
        | _, _ => ret tt
        end
      else updateTokenOnly payment sc
  | None => updateTokenOnly payment sc
  end.

(** One iteration of the loop over the active payments. *)
Definition monitorIteration (payment : Payment) : Eff State unit :=
  match stellar_address payment with
  | Some address =>
      if JsString.truthy address then
        tryCatch (checkPayment payment address)
          (fun e =>
             if notFound e then ret tt
             else log (ConsoleError ("[PaymentMonitor] Error checking address " ++ address)))
      else ret tt
  | None => ret tt
  end.

Definition runPaymentMonitorTick (now : Z) : Eff State unit :=
  (fun st =>
     ({| db := expireStale now (db st); events := events st ++ [ExpireStale now] |},
      Ok tt)) ;;;
  payments <- (fun st => (st, Ok (Prisma.findMany (active now) (db st)))) ;;
  forOf payments monitorIteration.

(** A tick against a table at time [now]. *)
Definition tick (now : Z) (store : Store) : State * Result unit :=
  runPaymentMonitorTick now (initial store).

End Service.

End Monitor.

(* ------------------------------------------------------------------ *)
(** ** paymentContract.service.ts *)

Record TxResponse := { hash : string }.

Module Verify.

Local Open Scope eff_scope.

Record Env := {
  (** [this.contractId] *)
  contractId : string;
  (** [this.invokeVerifyContract(paymentId, txHash, amount)], as it
      answers on each attempt (numbered from 0). *)
  invokeVerifyContract : nat -> string -> string -> string -> Result TxResponse
}.

Record State := {
  db : Store;
  events : list Event
}.

Definition initial (store : Store) : State := {| db := store; events := [] |}.

Definition log (e : Event) : Eff State unit :=
  modify (fun st => {| db := db st; events := events st ++ [e] |}).

Definition paymentUpdate (paymentId : string) (d : PaymentData) : Eff State unit :=
  fun st =>
    match Prisma.update paymentId d (db st) with
    | Ok db' => ({| db := db'; events := events st ++ [PaymentUpdate paymentId d] |}, Ok tt)
    | Throw e => (st, Throw e)
    end.

Definition MAX_RETRIES : nat := 3.
Definition baseDelay : Z := 1000.

Definition verifiedData (txResponse : TxResponse) : PaymentData :=
  {| set_status := None; set_last_paging_token := None;
     set_transaction_hash := None; set_swept := None; set_swept_at := None;
     set_sweep_tx_hash := None;
     set_onchain_verified := Some true;
     set_contract_tx_hash := Some (hash txResponse);
     set_verification_error := Some None |}.

Definition failedData (errorMessage : string) : PaymentData :=
  {| set_status := None; set_last_paging_token := None;
     set_transaction_hash := None; set_swept := None; set_swept_at := None;
     set_sweep_tx_hash := None; set_onchain_verified := None;
     set_contract_tx_hash := None;
     set_verification_error := Some (Some errorMessage) |}.

(** [error instanceof Error ? error.message : 'Unknown error'] *)
Definition errorMessageOf (error : Thrown) : string :=
  if isError error then message error else "Unknown error".

Section Service.

Variable env : Env.

(** [while (attempt < MAX_RETRIES) { try { ... } catch { ... } }]
    followed by [return false]; [fuel] bounds the turns of the loop. *)
Fixpoint retryLoop (fuel attempt : nat) (paymentId txHash amountStr : string)
  : Eff State bool :=
  match fuel with
  | O => ret false
  | S fuel' =>
      if (attempt <? MAX_RETRIES)%nat then
        tryCatch
          (log (InvokeVerifyContract attempt paymentId txHash amountStr) ;;;
           txResponse <- await (invokeVerifyContract env attempt paymentId txHash amountStr) ;;
           paymentUpdate paymentId (verifiedData txResponse) ;;;
           ret true)
          (fun error =>
             let attempt' := S attempt in
             let errorMessage := errorMessageOf error in
             log (ConsoleError errorMessage) ;;;
             if (MAX_RETRIES <=? attempt')%nat then
               paymentUpdate paymentId (failedData errorMessage) ;;;
               log (ManualIntervention paymentId errorMessage) ;;;
               ret false
             else
               log (Sleep (baseDelay * 2 ^ (Z.of_nat attempt' - 1))) ;;;
               retryLoop fuel' attempt' paymentId txHash amountStr)
      else ret false
  end.

Definition verify_payment (paymentId txHash amountStr : string) : Eff State bool :=
  if negb (JsString.truthy (contractId env)) then ret false
  else retryLoop MAX_RETRIES 0 paymentId txHash amountStr.

(** A call against a table. *)
Definition call (paymentId txHash amountStr : string) (store : Store)
  : State * Result bool :=
  verify_payment paymentId txHash amountStr (initial store).

End Service.

End Verify.

(* ------------------------------------------------------------------ *)
(** ** [Math.round], [BigInt] and multiplication *)

Module JsMath.

Definition mul (a b : number) : number := SFmul JsNumber.prec JsNumber.emax a b.

(** [Math.round(x)]: the integer nearest to [x], ties towards
    +Infinity; a result of zero keeps the sign of [x]. *)
Definition round (x : number) : number :=
  match x with
  | S754_finite s m e =>
      if 0 <=? e then x
      else
        let v := if s then Z.neg m else Z.pos m in
        let z := (2 * v + 2 ^ (- e)) / 2 ^ (1 - e) in
        if z =? 0 then S754_zero s else JsNumber.ofZ z
  | _ => x
  end.

(** How V8 prints the numbers that are not integers after rounding. *)
Definition showNonInteger (x : number) : string :=
  match x with
  | S754_infinity false => "Infinity"
  | S754_infinity true => "-Infinity"
  | _ => "NaN"
  end.

(** [BigInt(x)]: a RangeError unless [x] is an integer. *)
Definition toBigInt (x : number) : Result Z :=
  match JsNumber.toInteger x with
  | Some z => Ok z
  | None =>
      Throw (mkError ("The number " ++ showNonInteger x
                      ++ " cannot be converted to a BigInt because it is not an integer"))
  end.

End JsMath.

(* ------------------------------------------------------------------ *)
(** ** paymentContract.service.ts: [invokeVerifyContract] *)

Module Soroban.

(** The answer of [server.sendTransaction]. *)
Module Send.
Record t := { status : string; hash : string }.
End Send.

(** The answer of [server.getTransaction]. *)
Module Get.
Record t := { status : string; hash : string }.
End Get.

End Soroban.

(** The calls made to the Soroban RPC server and the pauses between
    them, in program order. *)
Inductive RpcCall :=
| GetAccount (publicKey : string)
| PrepareTransaction (paymentId txHash : string) (stroops : Z)
| SendTransaction (paymentId txHash : string) (stroops : Z)
| GetTransaction (hash : string)
| Wait (ms : Z).

Module Invoke.

Local Open Scope eff_scope.

Record Env := {
  (** [this.adminKeypair.publicKey()] *)
  adminPublicKey : string;
  (** [new Contract(this.contractId)] *)
  newContract : Result unit;
  (** [parseFloat(amount)] *)
  parseFloat : string -> number;
  (** the three [nativeToScVal] conversions of the arguments *)
  nativeToScVal : string -> string -> Z -> Result unit;
  (** [this.server.getAccount(publicKey)] *)
  getAccount : string -> Result unit;
  (** [this.server.prepareTransaction(tx)], for the call built from the
      arguments *)
  prepareTransaction : string -> string -> Z -> Result unit;
  (** [this.server.sendTransaction(preparedTx)] *)
  sendTransaction : string -> string -> Z -> Result Soroban.Send.t;
  (** [this.server.getTransaction(hash)], as it answers the lookup
      number [n], counted from 0 *)
  getTransaction : nat -> string -> Result Soroban.Get.t;
  (** [JSON.stringify] of the two kinds of answers *)
  stringifySend : Soroban.Send.t -> string;
  stringifyGet : Soroban.Get.t -> string
}.

Definition call (c : RpcCall) : Eff (list RpcCall) unit :=
  modify (fun calls => (calls ++ [c])%list).

Definition throw {A} (e : Thrown) : Eff (list RpcCall) A := fun calls => (calls, Throw e).

Section Service.

Variable env : Env.

(** [while (txResponse.status === 'NOT_FOUND' && retries < 15) { ... }];
    the loop leaves by its own test within 15 turns, which is the fuel. *)
Fixpoint poll (fuel retries : nat) (hash : string) (txResponse : Soroban.Get.t)
  : Eff (list RpcCall) Soroban.Get.t :=
  match fuel with
  | O => ret txResponse
  | S fuel' =>
      if String.eqb (Soroban.Get.status txResponse) "NOT_FOUND" && (retries <? 15)%nat
      then
        call (Wait 3000) ;;;
        call (GetTransaction hash) ;;;
        next <- await (getTransaction env (S retries) hash) ;;
        poll fuel' (S retries) hash next
      else ret txResponse
  end.

Definition invokeVerifyContract (paymentId txHash amountStr : string)
  : Eff (list RpcCall) Soroban.Get.t :=
  await (newContract env) ;;;
  stroops <- await (JsMath.toBigInt
                      (JsMath.round
                         (JsMath.mul (parseFloat env amountStr) (JsNumber.ofZ 10000000)))) ;;
  await (nativeToScVal env paymentId txHash stroops) ;;;
  call (GetAccount (adminPublicKey env)) ;;;
  await (getAccount env (adminPublicKey env)) ;;;
  call (PrepareTransaction paymentId txHash stroops) ;;;
  await (prepareTransaction env paymentId txHash stroops) ;;;
  call (SendTransaction paymentId txHash stroops) ;;;
  sendTxResponse <- await (sendTransaction env paymentId txHash stroops) ;;
  if String.eqb (Soroban.Send.status sendTxResponse) "ERROR" then
    throw (mkError ("Transaction submission failed: " ++ stringifySend env sendTxResponse))
  else
    let hash := Soroban.Send.hash sendTxResponse in
    call (GetTransaction hash) ;;;
    first <- await (getTransaction env 0%nat hash) ;;
    txResponse <- poll 15 0 hash first ;;
    if String.eqb (Soroban.Get.status txResponse) "FAILED" then
      throw (mkError ("Transaction failed on-chain: " ++ stringifyGet env txResponse))
    else ret txResponse.

End Service.

(** The contract seen by [verify_payment], when attempt [k] talks to
    the RPC server as [network k] describes it. *)
Definition asVerifyEnv (contractId : string) (network : nat -> Env) : Verify.Env :=
  {| Verify.contractId := contractId;
     Verify.invokeVerifyContract := fun attempt paymentId txHash amountStr =>
       match snd (invokeVerifyContract (network attempt) paymentId txHash amountStr []) with
       | Ok txResponse => Ok {| hash := Soroban.Get.hash txResponse |}
       | Throw e => Throw e
       end |}.

End Invoke.

(* ------------------------------------------------------------------ *)
(** ** paymentMonitor.service.ts: the timer *)

Module MonitorTimer.

Inductive Console :=
| Starting (intervalMs : number)
| Stopped.

(** The module variable [monitorTimer], the intervals of the process
    that are running (handle and period), the next handle [setInterval]
    gives out, the ticks started at once, and the console. *)
Record Runtime := {
  monitorTimer : option nat;
  intervals : list (nat * number);
  nextHandle : nat;
  immediateTicks : nat;
  console : list Console
}.

(** [clearInterval(handle)] *)
Definition clearInterval (handle : nat) (l : list (nat * number)) : list (nat * number) :=
  filter (fun i => negb (Nat.eqb (fst i) handle)) l.

Definition startPaymentMonitor (PAYMENT_MONITOR_INTERVAL_MS : option string)
    (rt : Runtime) : Runtime :=
  let intervalMs :=
    JsParse.parseInt10
      (if JsString.truthyOpt PAYMENT_MONITOR_INTERVAL_MS
       then orElse PAYMENT_MONITOR_INTERVAL_MS "" else "120000") in
  {| monitorTimer := Some (nextHandle rt);
     intervals := (intervals rt ++ [(nextHandle rt, intervalMs)])%list;
     nextHandle := S (nextHandle rt);
     immediateTicks := S (immediateTicks rt);
     console := (console rt ++ [Starting intervalMs])%list |}.

Definition stopPaymentMonitor (rt : Runtime) : Runtime :=
  match monitorTimer rt with
  | Some handle =>
      {| monitorTimer := None;
         intervals := clearInterval handle (intervals rt);
         nextHandle := nextHandle rt;
         immediateTicks := immediateTicks rt;
         console := (console rt ++ [Stopped])%list |}
  | None => rt
  end.

End MonitorTimer.

(* ------------------------------------------------------------------ *)
(** ** JSON values, as the [details] column holds them *)

Module Json.

(** The values [details] objects are built from.  An object is the list
    of its fields; the order of the fields carries no meaning, and
    fields are read with [get]. *)
#[local] Set Warnings "-register-all".
Inductive value :=
| Undefined
| Null
| Bool (b : bool)
| Num (n : number)
| Str (s : string)
| Obj (fields : list (string * value)).
#[local] Set Warnings "register-all".

Definition hasKey (k : string) (kv : string * value) : bool := String.eqb (fst kv) k.

(** [o[k]] *)
Definition get (k : string) (v : value) : value :=
  match v with
  | Obj fields =>
      match find (hasKey k) fields with
      | Some kv => snd kv
      | None => Undefined
      end
  | _ => Undefined
  end.

(** [{ ...fields, k: x }] *)
Fixpoint setField (k : string) (x : value) (fields : list (string * value))
  : list (string * value) :=
  match fields with
  | [] => [(k, x)]
  | kv :: rest => if hasKey k kv then (k, x) :: rest else kv :: setField k x rest
  end.

Fixpoint indexed (i : Z) (s : string) : list (string * value) :=
  match s with
  | EmptyString => []
  | String c rest => (JsString.ofZ i, Str (String c EmptyString)) :: indexed (i + 1) rest
  end.

(** The own enumerable properties [{ ...v }] copies. *)
Definition spread (v : value) : list (string * value) :=
  match v with
  | Obj fields => fields
  | Str s => indexed 0 s
  | _ => []
  end.

(** What a Json column keeps of a value: fields whose value is
    [undefined] are dropped, a number that is not finite becomes null. *)
Fixpoint persist (v : value) : value :=
  match v with
  | Obj fields =>
      Obj ((fix go (l : list (string * value)) : list (string * value) :=
              match l with
              | [] => []
              | (k, x) :: rest =>
                  match x with
                  | Undefined => go rest
                  | _ => (k, persist x) :: go rest
                  end
              end) fields)
  | Num n => if JsNumber.isFinite n then v else Null
  | _ => v
  end.

Definition ofOption (o : option string) : value :=
  match o with
  | Some s => Str s
  | None => Undefined
  end.

(** No key occurs twice among the fields. *)
Fixpoint distinctKeys (fields : list (string * value)) : bool :=
  match fields with
  | [] => true
  | kv :: rest => negb (existsb (hasKey (fst kv)) rest) && distinctKeys rest
  end.

End Json.

(* ------------------------------------------------------------------ *)
(** ** audit.service.ts *)

Inductive AuditActionType :=
| kyc_approve | kyc_reject | config_change
| sweep_trigger | sweep_complete | sweep_fail
| settlement_batch_initiate | settlement_batch_complete | settlement_batch_fail.

Inductive AuditEntityType :=
| merchant_kyc | system_config | sweep_operation | settlement_batch.

(** A row of the AuditLog table. *)
Module AuditLog.
Record t := {
  id : string;
  admin_id : string;
  action_type : AuditActionType;
  entity_type : AuditEntityType;
  entity_id : string;
  details : Json.value;
  created_at : Z
}.
End AuditLog.

Record CreateAuditLogParams := {
  param_admin_id : string;
  param_action_type : AuditActionType;
  param_entity_type : AuditEntityType;
  param_entity_id : string;
  param_details : Json.value
}.

Module Audit.

Local Open Scope eff_scope.

(** What the service writes to the logger and the metrics, and the
    pauses it takes. *)
Inductive Output :=
| LoggerError (context : string) (attempt : nat) (error : option string)
| Delay (ms : Z)
| Metric (metric context : string)
| StructuredLog (level : string) (entry : AuditLog.t).

Record Env := {
  (** How the database answers the query number [n] of a run: [None]
      when it carries the query out, [Some e] when the client throws [e]
      instead. *)
  connection : nat -> option Thrown;
  (** The [cuid()] and [now()] defaults of a row inserted by query [n]. *)
  cuid : nat -> string;
  now : nat -> Z;
  (** [Date.now()] and [new Date().toISOString()] *)
  dateNow : Z;
  isoNow : string
}.

(** The table, the number of queries made so far, and the output. *)
Record State := {
  logs : list AuditLog.t;
  queries : nat;
  output : list Output
}.

Definition initial (table : list AuditLog.t) : State :=
  {| logs := table; queries := 0; output := [] |}.

Definition emit (o : Output) : Eff State unit :=
  modify (fun st =>
    {| logs := logs st; queries := queries st; output := (output st ++ [o])%list |}).

Definition actionName (a : AuditActionType) : string :=
  match a with
  | kyc_approve => "kyc_approve"
  | kyc_reject => "kyc_reject"
  | config_change => "config_change"
  | sweep_trigger => "sweep_trigger"
  | sweep_complete => "sweep_complete"
  | sweep_fail => "sweep_fail"
  | settlement_batch_initiate => "settlement_batch_initiate"
  | settlement_batch_complete => "settlement_batch_complete"
  | settlement_batch_fail => "settlement_batch_fail"
  end.

Definition hasId (i : string) (r : AuditLog.t) : bool := String.eqb (AuditLog.id r) i.

(** [error.message] in [catch (error: any)] *)
Definition errorMessage (error : Thrown) : option string :=
  if isError error then Some (message error) else None.

Definition maxAttempts : nat := 3.

Section Service.

Variable env : Env.

(** One query: counted, and carried out unless the client throws. *)
Definition query {A} (run : State -> State * Result A) : Eff State A :=
  fun st =>
    let st1 := {| logs := logs st; queries := S (queries st); output := output st |} in
    match connection env (queries st) with
    | Some e => (st1, Throw e)
    | None => run st1
    end.

(** [client.auditLog.create({ data })] *)
Definition auditLogCreate (p : CreateAuditLogParams) : Eff State AuditLog.t :=
  query (fun st =>
    let row :=
      {| AuditLog.id := cuid env (pred (queries st));
         AuditLog.admin_id := param_admin_id p;
         AuditLog.action_type := param_action_type p;
         AuditLog.entity_type := param_entity_type p;
         AuditLog.entity_id := param_entity_id p;
         AuditLog.details := Json.persist (param_details p);
         AuditLog.created_at := now env (pred (queries st)) |} in
    ({| logs := (logs st ++ [row])%list; queries := queries st; output := output st |},
     Ok row)).

(** [prisma.auditLog.findUnique({ where: { id } })] *)
Definition auditLogFindUnique (i : string) : Eff State (option AuditLog.t) :=
  query (fun st => (st, Ok (find (hasId i) (logs st)))).

Definition rewrite (updatedDetails : Json.value) (action : AuditActionType)
    (r : AuditLog.t) : AuditLog.t :=
  {| AuditLog.id := AuditLog.id r;
     AuditLog.admin_id := AuditLog.admin_id r;
     AuditLog.action_type := action;
     AuditLog.entity_type := AuditLog.entity_type r;
     AuditLog.entity_id := AuditLog.entity_id r;
     AuditLog.details := Json.persist updatedDetails;
     AuditLog.created_at := AuditLog.created_at r |}.

(** [prisma.auditLog.update({ where: { id }, data: { details, action_type } })] *)
Definition auditLogUpdate (i : string) (updatedDetails : Json.value)
    (action : AuditActionType) : Eff State AuditLog.t :=
  query (fun st =>
    match find (hasId i) (logs st) with
    | Some r =>
        ({| logs := map (fun x => if hasId i x then rewrite updatedDetails action x else x)
                      (logs st);
            queries := queries st; output := output st |},
         Ok (rewrite updatedDetails action r))
    | None => (st, Throw (mkError "Record to update not found."))
    end).

(** [while (attempts < maxAttempts) { try { return await operation() }
     catch { ... } }], then the metric and [return null]; the loop
    leaves by its own test within [maxAttempts] turns, and one more unit
    of fuel reaches the code after it. *)
Fixpoint safeAuditLoop {A} (fuel attempts : nat) (operation : Eff State A)
    (context : string) : Eff State (option A) :=
  match fuel with
  | O => ret None
  | S fuel' =>
      if (attempts <? maxAttempts)%nat then
        tryCatch (a <- operation ;; ret (Some a))
          (fun error =>
             let attempts' := S attempts in
             emit (LoggerError context attempts' (errorMessage error)) ;;;
             (if (attempts' <? maxAttempts)%nat
              then emit (Delay (2 ^ Z.of_nat attempts' * 100))
              else ret tt) ;;;
             safeAuditLoop fuel' attempts' operation context)
      else
        emit (Metric "audit_log_failure" context) ;;;
        ret None
  end.

Definition safeAuditLog {A} (operation : Eff State A) (context : string)
  : Eff State (option A) :=
  safeAuditLoop (S maxAttempts) 0 operation context.

(** [emitStructuredLog(auditLog, success)] *)
Definition emitStructuredLog (auditLog : AuditLog.t) (success : bool) : Eff State unit :=
  emit (StructuredLog (if success then "info" else "warn") auditLog).

Definition createAuditLog (params : CreateAuditLogParams)
  : Eff State (option AuditLog.t) :=
  safeAuditLog
    (auditLog <- auditLogCreate params ;;
     emitStructuredLog auditLog true ;;;
     ret auditLog)
    ("create_audit_log_" ++ actionName (param_action_type params)).

(** [redactSensitiveValue(value, isSensitive)] *)
Definition redactSensitiveValue (value : string) (isSensitive : bool) : string :=
  if negb isSensitive then value else "***REDACTED***".

(** [logKycDecision]; [action] is whether [params.action === 'approve'],
    the statuses are the names of the KYCStatus members. *)
Definition logKycDecision (adminId merchantId : string) (approve : bool)
    (previousStatus newStatus : string) (reason : option string)
  : Eff State (option AuditLog.t) :=
  createAuditLog
    {| param_admin_id := adminId;
       param_action_type := if approve then kyc_approve else kyc_reject;
       param_entity_type := merchant_kyc;
       param_entity_id := merchantId;
       param_details :=
         Json.Obj [("merchant_id", Json.Str merchantId);
                   ("previous_status", Json.Str previousStatus);
                   ("new_status", Json.Str newStatus);
                   ("reason", Json.ofOption reason);
                   ("reviewed_at", Json.Str (isoNow env))] |}.

Definition logConfigChange (adminId configKey previousValue newValue : string)
    (isSensitiveParam : option bool) : Eff State (option AuditLog.t) :=
  let isSensitive := orElse isSensitiveParam false in
  createAuditLog
    {| param_admin_id := adminId;
       param_action_type := config_change;
       param_entity_type := system_config;
       param_entity_id := configKey;
       param_details :=
         Json.Obj [("config_key", Json.Str configKey);
                   ("previous_value",
                    Json.Str (redactSensitiveValue previousValue isSensitive));
                   ("new_value", Json.Str (redactSensitiveValue newValue isSensitive));
                   ("is_sensitive", Json.Bool isSensitive)] |}.

Definition logSweepTrigger (adminId sweepType reason : string)
  : Eff State (option AuditLog.t) :=
  let sweepId := "sweep_" ++ JsString.ofZ (dateNow env) in
  createAuditLog
    {| param_admin_id := adminId;
       param_action_type := sweep_trigger;
       param_entity_type := sweep_operation;
       param_entity_id := sweepId;
       param_details :=
         Json.Obj [("sweep_type", Json.Str sweepType);
                   ("trigger_reason", Json.Str reason)] |}.

(** The [statistics] of a sweep's completion. *)
Record SweepStatistics := {
  addresses_swept : number;
  total_amount : string;
  transaction_hash : option string
}.

Definition statisticsValue (statistics : option SweepStatistics) : Json.value :=
  match statistics with
  | Some s =>
      Json.Obj [("addresses_swept", Json.Num (addresses_swept s));
                ("total_amount", Json.Str (total_amount s));
                ("transaction_hash", Json.ofOption (transaction_hash s))]
  | None => Json.Undefined
  end.

(** The object [{ ...existing, status, statistics, failure_reason }]. *)
Definition sweepCompletionDetails (existing : Json.value) (status : string)
    (statistics : option SweepStatistics) (failureReason : option string) : Json.value :=
  Json.Obj
    (Json.setField "failure_reason" (Json.ofOption failureReason)
       (Json.setField "statistics" (statisticsValue statistics)
          (Json.setField "status" (Json.Str status) (Json.spread existing)))).

Definition updateSweepCompletion (auditLogId status : string)
    (statistics : option SweepStatistics) (failureReason : option string)
  : Eff State (option AuditLog.t) :=
  safeAuditLog
    (existingLog <- auditLogFindUnique auditLogId ;;
     match existingLog with
     | None => await (Throw (mkError ("Audit log " ++ auditLogId ++ " not found")))
     | Some existing =>
         updatedLog <- auditLogUpdate auditLogId
                         (sweepCompletionDetails (AuditLog.details existing) status
                            statistics failureReason)
                         (if String.eqb status "completed" then sweep_complete
                          else sweep_fail) ;;
         emitStructuredLog updatedLog (String.eqb status "completed") ;;;
         ret updatedLog
     end)
    ("update_sweep_completion_" ++ auditLogId).

Definition logSettlementBatch (adminId batchId reason : string)
  : Eff State (option AuditLog.t) :=
  createAuditLog
    {| param_admin_id := adminId;
       param_action_type := settlement_batch_initiate;
       param_entity_type := settlement_batch;
       param_entity_id := batchId;
       param_details :=
         Json.Obj [("batch_id", Json.Str batchId);
                   ("initiation_reason", Json.Str reason)] |}.

Definition ofOptionNumber (o : option number) : Json.value :=
  match o with
  | Some n => Json.Num n
  | None => Json.Undefined
  end.

Definition updateSettlementBatchCompletion (auditLogId status : string)
    (transactionCount totalAmount : option number) (currency failureReason : option string)
  : Eff State (option AuditLog.t) :=
  safeAuditLog
    (existingLog <- auditLogFindUnique auditLogId ;;
     match existingLog with
     | None => await (Throw (mkError ("Audit log " ++ auditLogId ++ " not found")))
     | Some existing =>
         updatedLog <- auditLogUpdate auditLogId
                         (Json.Obj
                            (Json.setField "failure_reason" (Json.ofOption failureReason)
                               (Json.setField "completed_at" (Json.Str (isoNow env))
                                  (Json.setField "currency" (Json.ofOption currency)
                                     (Json.setField "total_amount" (ofOptionNumber totalAmount)
                                        (Json.setField "transaction_count"
                                           (ofOptionNumber transactionCount)
                                           (Json.setField "status" (Json.Str status)
                                              (Json.spread (AuditLog.details existing)))))))))
                         (if String.eqb status "completed" then settlement_batch_complete
                          else settlement_batch_fail) ;;
         emitStructuredLog updatedLog (String.eqb status "completed") ;;;
         ret updatedLog
     end)
    ("update_settlement_batch_completion_" ++ auditLogId).

(** [getAuditLogById(id)]: not wrapped, so a failing query rejects. *)
Definition getAuditLogById (i : string) : Eff State (option AuditLog.t) :=
  auditLogFindUnique i.

End Service.

End Audit.

(* ------------------------------------------------------------------ *)
(** ** sweep.route.ts *)

Module SweepRoute.

(** A request header is a string, or several when it is repeated. *)
Inductive HeaderValue :=
| Single (s : string)
| Multiple (l : list string).

(** [req.headers["x-admin-secret"]] and [req.body]; a missing body is
    [Json.Undefined]. *)
Record Request := {
  x_admin_secret : option HeaderValue;
  body : Json.value
}.

Record ProcessEnv := {
  ADMIN_INTERNAL_SECRET : option string;
  NODE_ENV : option string
}.

(** The JSON the handler answers with. *)
Inductive ResponseBody :=
| Message (message : string)
| SweepReport (message : string) (result : SweepResult.t)
| Failure (message error : string).

Record Response := {
  statusCode : Z;
  json : ResponseBody
}.

(** [provided !== secret], negated *)
Definition providedIs (provided : option HeaderValue) (secret : string) : bool :=
  match provided with
  | Some (Single s) => String.eqb s secret
  | _ => false
  end.

(** The middleware: [None] when it calls [next()], the response it
    sends otherwise. *)
Definition requireAdminSecret (penv : ProcessEnv) (req : Request) : option Response :=
  let secret := ADMIN_INTERNAL_SECRET penv in
  let provided := x_admin_secret req in
  if negb (JsString.truthyOpt secret) then
    if JsString.strictEqOpt "production" (NODE_ENV penv) then
      Some {| statusCode := 503;
              json := Message "Admin endpoints are disabled in production when ADMIN_INTERNAL_SECRET is not set." |}
    else None
  else if negb (providedIs provided (orElse secret "")) then
    Some {| statusCode := 401; json := Message "Unauthorized. Invalid admin secret." |}
  else None.

(** [typeof limit === "number" ? limit : undefined] for
    [limit = req.body?.limit] *)
Definition limitOf (req : Request) : option number :=
  match Json.get "limit" (body req) with
  | Json.Num n => Some n
  | _ => None
  end.

(** [req.body?.dry_run === true] *)
Definition dryRunOf (req : Request) : bool :=
  match Json.get "dry_run" (body req) with
  | Json.Bool true => true
  | _ => false
  end.

Definition optionsOf (req : Request) : SweepOptions :=
  {| limit := limitOf req; adminId := Some "system"; dryRun := Some (dryRunOf req) |}.

(** The handler of [POST /run], against a table. *)
Definition handleRun (senv : Sweep.Env) (req : Request) (store : Store)
  : Sweep.State * Response :=
  match Sweep.run senv (optionsOf req) store with
  | (st, Ok result) =>
      (st, {| statusCode := 200;
              json := SweepReport
                        (if dryRunOf req then "Sweep dry-run complete" else "Sweep complete")
                        result |})
  | (st, Throw err) =>
      (st, {| statusCode := 500; json := Failure "Sweep failed" (message err) |})
  end.

(** The route: the middleware, then the handler. *)
Definition postRun (penv : ProcessEnv) (senv : Sweep.Env) (req : Request) (store : Store)
  : Sweep.State * Response :=
  match requireAdminSecret penv req with
  | Some refusal => (Sweep.initial store, refusal)
  | None => handleRun senv req store
  end.

End SweepRoute.

(* ------------------------------------------------------------------ *)
(** ** Sample tables and collaborators *)

Module Scenario.

Definition issuer : string := "GBBD47IF6LWK7P7MDEVSCWT73IQIGCEZHR7OMXMBZQ3ZONN2T4U6W23Y".

(** A row with the given id, status, whole amount, address, swept flag
    and expiration; nothing observed, verified or swept yet otherwise. *)
Definition row (pid : string) (st : PaymentStatus) (amt : Z)
    (addr : option string) (sw : bool) (exp : Z) : Payment :=
  {| id := pid; merchantId := "merchant_1"; amount := JsNumber.ofZ amt;
     status := st; expiration := exp; stellar_address := addr;
     last_paging_token := None; transaction_hash := None;
     confirmed_at := None; swept := sw; swept_at := None;
     sweep_tx_hash := None; onchain_verified := false;
     contract_tx_hash := None; verification_error := None |}.

(** Prints whole numbers the way [toFixed(7)] does. *)
Definition fixed7 (x : number) : string :=
  match JsNumber.toInteger x with
  | Some z => JsString.ofZ z ++ ".0000000"
  | None => "NaN"
  end.

Definition keyOf (pid : string) : Keypair :=
  {| publicKey := "G" ++ pid; secretKey := "S" ++ pid |}.

(** The deriver fails for payment [p_lost]; the ledger rejects the
    transfer signed for [p_rejected]. *)
Definition sweepEnv : Sweep.Env :=
  {| Sweep.SWEEP_BATCH_LIMIT := None;
     Sweep.vaultPublicKey := "GVAULT";
     Sweep.regenerateKeypair := fun _ pid =>
       if String.eqb pid "p_lost" then Throw (mkError "derivation failed")
       else Ok (keyOf pid);
     Sweep.submitUsdcSweepTx := fun secret _ _ =>
       if String.eqb secret "Sp_rejected" then Throw (mkError "tx_failed")
       else Ok ("tx_" ++ secret);
     Sweep.toFixed7 := fixed7;
     Sweep.startedAt := 1000;
     Sweep.sweptAtClock := fun _ => 1500;
     Sweep.completedAt := 2000;
     Sweep.auditLogCreated := true |}.

Definition p1 : Payment := row "p1" confirmed 100 (Some "Gp1") false 900.
Definition p2 : Payment := row "p2" overpaid 0 (Some "Gp2") false 900.
Definition p3 : Payment := row "p3" paid 50 (Some "Gp3") false 900.
Definition p4 : Payment := row "p4" confirmed 70 (Some "Gp4") true 900.
Definition p5 : Payment := row "p5" confirmed 30 (Some "Gstale") false 900.
Definition p6 : Payment := row "p6" confirmed 30 (Some "") false 900.
Definition p7 : Payment := row "p7" confirmed 30 None false 900.

Definition sweepStore : Store := [p1; p2; p3; p4].

Definition realRun : SweepOptions :=
  {| limit := None; adminId := None; dryRun := None |}.
Definition dryRunOnly : SweepOptions :=
  {| limit := None; adminId := Some "admin_7"; dryRun := Some true |}.

(** One USDC payment record, and a page holding it. *)
Definition usdcRecord (token txHash : string) : Horizon.Operation.t :=
  {| Horizon.Operation.paging_token := token;
     Horizon.Operation.type := "payment";
     Horizon.Operation.asset_type := Some "credit_alphanum4";
     Horizon.Operation.asset_code := Some "USDC";
     Horizon.Operation.asset_issuer := Some issuer;
     Horizon.Operation.transaction_hash := txHash;
     Horizon.Operation.from := Some "GPAYER" |}.

Definition paidPage : list Horizon.Operation.t := [usdcRecord "67890" "tx_1"].

(** A ledger on which every address holds [balance] USDC and every
    payments page is [records]; the event bus throws when [busDown]. *)
Definition accountWith (balance : string) : Horizon.AccountResponse :=
  {| Horizon.balances :=
       [ {| Horizon.Balance.asset_code := None;
            Horizon.Balance.asset_issuer := None;
            Horizon.Balance.balance := "5" |};
         {| Horizon.Balance.asset_code := Some "USDC";
            Horizon.Balance.asset_issuer := Some issuer;
            Horizon.Balance.balance := balance |} ] |}.

Definition monitorEnv (balance : string) (records : list Horizon.Operation.t)
    (busDown : bool) : Monitor.Env :=
  {| Monitor.usdcIssuer := issuer;
     Monitor.loadAccount := fun _ => Ok (accountWith balance);
     Monitor.paymentsCall := fun _ _ => Ok records;
     Monitor.parseFloat := JsParse.parseInt10;
     Monitor.numberToString := fixed7;
     Monitor.eventBusEmit := fun _ =>
       if busDown then Throw (mkError "listener failed") else Ok tt |}.

Definition m1 : Payment := row "m1" pending 100 (Some "Gm1") false 5000.
Definition m2 : Payment := row "m2" partially_paid 100 (Some "Gm2") false 800.

Definition monitorStore : Store := [m1; m2].




(** The status of [m1] after a tick that finds [balance] at its address. *)
Definition statusAtBalance (balance : string) : option PaymentStatus :=
  option_map status
    (Prisma.findUnique "m1"
       (Monitor.db (fst (Monitor.tick (monitorEnv balance paidPage false) 1000
                           monitorStore)))).

Definition limitOne : SweepOptions :=
  {| limit := Some (JsNumber.ofZ 1); adminId := None; dryRun := None |}.

(** A contract that times out twice and then accepts. *)
Definition verifyEnv : Verify.Env :=
  {| Verify.contractId := "CCONTRACT";
     Verify.invokeVerifyContract := fun attempt _ _ _ =>
       if (attempt <? 2)%nat then Throw (mkError "rpc timeout")
       else Ok {| hash := "ctx_1" |} |}.

(** A contract that always times out. *)
Definition deadVerifyEnv : Verify.Env :=
  {| Verify.contractId := "CCONTRACT";
     Verify.invokeVerifyContract := fun _ _ _ _ => Throw (mkError "rpc timeout") |}.



(** Checks that the strings of a list are pairwise different. *)
Fixpoint distinct (l : list string) : bool :=
  match l with
  | [] => true
  | x :: rest => negb (existsb (String.eqb x) rest) && distinct rest
  end.

End Scenario.

(* ------------------------------------------------------------------ *)
(** ** Sample collaborators of the contract invocation, the audit log
    and the route *)

Module Samples.

Definition notFoundError : Thrown :=
  {| isError := true; message := "Not Found"; responseStatus := Some 404 |}.

Definition serverError : Thrown :=
  {| isError := true; message := "Internal Server Error"; responseStatus := Some 500 |}.

(** A ledger whose account lookup fails with [e]. *)
Definition failingLedger (e : Thrown) : Monitor.Env :=
  {| Monitor.usdcIssuer := Scenario.issuer;
     Monitor.loadAccount := fun _ => Throw e;
     Monitor.paymentsCall := fun _ _ => Ok [];
     Monitor.parseFloat := JsParse.parseInt10;
     Monitor.numberToString := Scenario.fixed7;
     Monitor.eventBusEmit := fun _ => Ok tt |}.

(** An RPC server that accepts every submission and answers the lookup
    number [n] with the status [statusAt n]. *)
Definition sent : Soroban.Send.t :=
  {| Soroban.Send.status := "PENDING"; Soroban.Send.hash := "ctx_9" |}.

Definition answerOf (statusAt : nat -> string) (n : nat) : Soroban.Get.t :=
  {| Soroban.Get.status := statusAt n; Soroban.Get.hash := "ctx_9" |}.

Definition rpc (statusAt : nat -> string) : Invoke.Env :=
  {| Invoke.adminPublicKey := "GADMIN";
     Invoke.newContract := Ok tt;
     Invoke.parseFloat := JsParse.parseInt10;
     Invoke.nativeToScVal := fun _ _ _ => Ok tt;
     Invoke.getAccount := fun _ => Ok tt;
     Invoke.prepareTransaction := fun _ _ _ => Ok tt;
     Invoke.sendTransaction := fun _ _ _ => Ok sent;
     Invoke.getTransaction := fun n _ => Ok (answerOf statusAt n);
     Invoke.stringifySend := fun r => "{status:" ++ Soroban.Send.status r ++ "}";
     Invoke.stringifyGet := fun r => "{status:" ++ Soroban.Get.status r ++ "}" |}.

Definition neverFound (n : nat) : string := "NOT_FOUND".

Definition foundAtThirdLookup (n : nat) : string :=
  if (n <? 2)%nat then "NOT_FOUND" else "SUCCESS".

(** A database that refuses the queries [down] picks. *)
Definition auditEnv (down : nat -> bool) : Audit.Env :=
  {| Audit.connection := fun n =>
       if down n then Some (mkError "connection refused") else None;
     Audit.cuid := fun n => "log_" ++ JsString.ofZ (Z.of_nat n);
     Audit.now := fun n => 1000 + Z.of_nat n;
     Audit.dateNow := 1000;
     Audit.isoNow := "1970-01-01T00:00:01.000Z" |}.

Definition up (n : nat) : bool := false.

Definition triggerFields : list (string * Json.value) :=
  [("sweep_type", Json.Str "scheduled");
   ("trigger_reason", Json.Str "Sweep paid but unswept payments into master vault")].

Definition triggerEntry : AuditLog.t :=
  {| AuditLog.id := "log_a";
     AuditLog.admin_id := "system";
     AuditLog.action_type := sweep_trigger;
     AuditLog.entity_type := sweep_operation;
     AuditLog.entity_id := "sweep_1000";
     AuditLog.details := Json.Obj triggerFields;
     AuditLog.created_at := 1000 |}.

Definition oneSwept : Audit.SweepStatistics :=
  {| Audit.addresses_swept := JsNumber.ofZ 1;
     Audit.total_amount := "100.0000000";
     Audit.transaction_hash := Some "tx_Sp1" |}.

(** A process outside production with no admin secret, and one in
    production with the secret set. *)
Definition development : SweepRoute.ProcessEnv :=
  {| SweepRoute.ADMIN_INTERNAL_SECRET := None; SweepRoute.NODE_ENV := None |}.

Definition production : SweepRoute.ProcessEnv :=
  {| SweepRoute.ADMIN_INTERNAL_SECRET := Some "s3cret";
     SweepRoute.NODE_ENV := Some "production" |}.

(** The number 2.5 *)
Definition twoAndHalf : number :=
  binary_normalize JsNumber.prec JsNumber.emax 5 (-1) false.

Definition anonymous (body : Json.value) : SweepRoute.Request :=
  {| SweepRoute.x_admin_secret := None; SweepRoute.body := body |}.

(** A process that has started no timer. *)
Definition idle : MonitorTimer.Runtime :=
  {| MonitorTimer.monitorTimer := None; MonitorTimer.intervals := [];
     MonitorTimer.nextHandle := 0; MonitorTimer.immediateTicks := 0;
     MonitorTimer.console := [] |}.

(** A sweep configured with [SWEEP_BATCH_LIMIT=all]. *)
Definition misconfiguredSweepEnv : Sweep.Env :=
  {| Sweep.SWEEP_BATCH_LIMIT := Some "all";
     Sweep.vaultPublicKey := Sweep.vaultPublicKey Scenario.sweepEnv;
     Sweep.regenerateKeypair := Sweep.regenerateKeypair Scenario.sweepEnv;
     Sweep.submitUsdcSweepTx := Sweep.submitUsdcSweepTx Scenario.sweepEnv;
     Sweep.toFixed7 := Sweep.toFixed7 Scenario.sweepEnv;
     Sweep.startedAt := Sweep.startedAt Scenario.sweepEnv;
     Sweep.sweptAtClock := Sweep.sweptAtClock Scenario.sweepEnv;
     Sweep.completedAt := Sweep.completedAt Scenario.sweepEnv;
     Sweep.auditLogCreated := Sweep.auditLogCreated Scenario.sweepEnv |}.

(** A ledger that accepts every transfer. *)
Definition acceptingSweepEnv : Sweep.Env :=
  {| Sweep.SWEEP_BATCH_LIMIT := None;
     Sweep.vaultPublicKey := Sweep.vaultPublicKey Scenario.sweepEnv;
     Sweep.regenerateKeypair := Sweep.regenerateKeypair Scenario.sweepEnv;
     Sweep.submitUsdcSweepTx := fun secret _ _ => Ok ("tx_" ++ secret);
     Sweep.toFixed7 := Sweep.toFixed7 Scenario.sweepEnv;
     Sweep.startedAt := Sweep.startedAt Scenario.sweepEnv;
     Sweep.sweptAtClock := Sweep.sweptAtClock Scenario.sweepEnv;
     Sweep.completedAt := Sweep.completedAt Scenario.sweepEnv;
     Sweep.auditLogCreated := Sweep.auditLogCreated Scenario.sweepEnv |}.

End Samples.


(* ------------------------------------------------------------------ *)
(** ** Vocabulary of the properties *)

(** The primary key of the Payment table. *)
Definition primaryKey (db : Store) : Prop := NoDup (map id db).

(** Row by row, a table [db'] obtained from [db]. *)
Definition rowwise (R : Payment -> Payment -> Prop) (db db' : Store) : Prop :=
  Forall2 R db db'.

(** A row keeps its id, and [swept] is not taken back. *)
Definition sweptKept (r r' : Payment) : Prop :=
  id r' = id r /\ (swept r = true -> swept r' = true).

(** A row keeps its id, its [status] and its three sweep columns. *)
Definition statusAndSweepKept (r r' : Payment) : Prop :=
  id r' = id r /\ status r' = status r /\ swept r' = swept r
  /\ swept_at r' = swept_at r /\ sweep_tx_hash r' = sweep_tx_hash r.

(** Cursors in the order the monitor compares them: no cursor is below
    every cursor, and tokens compare as strings, code unit by code unit.
    This is not the order of the ledger: "99" is above "100" here. *)
Definition cursorLeb (a b : option string) : bool :=
  match a, b with
  | None, _ => true
  | Some x, Some y => String.leb x y
  | Some _, None => false
  end.



(** How many times the contract was invoked, and the pauses taken. *)
Definition invocations (evs : list Event) : nat :=
  List.length
    (filter (fun e => match e with InvokeVerifyContract _ _ _ _ => true | _ => false end) evs).

Definition pauses (evs : list Event) : list Z :=
  flat_map (fun e => match e with Sleep ms => [ms] | _ => [] end) evs.

Definition isSubmitTransaction (e : Event) : Prop :=
  exists pid s d a, e = SubmitTransaction pid s d a.

Definition isPaymentUpdate (e : Event) : Prop :=
  exists pid d, e = PaymentUpdate pid d.

Definition isAuditCompletion (e : Event) : Prop :=
  exists a b c d f, e = AuditSweepCompletion a b c d f.

(** The state a run starts its loop from. *)
Definition loopStart (options : SweepOptions) (store : Store) : Sweep.State :=
  {| Sweep.db := store; Sweep.txHashes := []; Sweep.skipped := [];
     Sweep.total := JsNumber.zero; Sweep.addressesSwept := 0%nat;
     Sweep.events :=
       [AuditSweepTrigger (Sweep.adminIdOf options)
          (if Sweep.dryRunOf options then "dry_run" else "scheduled")] |}.

(** The table and the events a tick's loop starts from, and the payments
    it goes through. *)
Definition afterExpiry (now : Z) (store : Store) : Monitor.State :=
  {| Monitor.db := Monitor.expireStale now store;
     Monitor.events := [ExpireStale now] |}.

Definition selected (now : Z) (store : Store) : list Payment :=
  Prisma.findMany (Monitor.active now) (Monitor.expireStale now store).

(** Programs all of whose runs relate the table row by row. *)
Definition frames {S A : Type} (dbOf : S -> Store) (R : Payment -> Payment -> Prop)
    (c : Eff S A) : Prop :=
  forall s, rowwise R (dbOf s) (dbOf (fst (c s))).

Section SweepVocabulary.

Variable env : Sweep.Env.

(** The payment passes the two checks of the loop body. *)
Definition wouldSweep (p : Payment) : bool :=
  negb (Sweep.invalidAmount (amount p))
  && match Sweep.regenerateKeypair env (merchantId p) (id p) with
     | Ok kp => negb (Sweep.addressMismatch p kp)
     | Throw _ => false
     end.

(** The payment goes through one iteration of a run: its amount is
    valid, its key is derived and matches, and, outside a dry run, its
    transfer is accepted with hash [h]. *)
Inductive Sweepable (dry : bool) (p : Payment) : Prop :=
| SweepableDry kp :
    dry = true ->
    Sweep.invalidAmount (amount p) = false ->
    Sweep.regenerateKeypair env (merchantId p) (id p) = Ok kp ->
    Sweep.addressMismatch p kp = false ->
    Sweepable dry p
| SweepableSubmit kp h :
    dry = false ->
    Sweep.invalidAmount (amount p) = false ->
    Sweep.regenerateKeypair env (merchantId p) (id p) = Ok kp ->
    Sweep.addressMismatch p kp = false ->
    Sweep.submitUsdcSweepTx env (secretKey kp) (Sweep.vaultPublicKey env)
      (Sweep.toFixed7 env (amount p)) = Ok h ->
    Sweepable dry p.

(** The payment fails in one iteration of a run, for [reason]. *)
Inductive Fails (dry : bool) (p : Payment) : string -> Prop :=
| FailsAmount :
    Sweep.invalidAmount (amount p) = true ->
    Fails dry p "Invalid amount"
| FailsDerivation e :
    Sweep.invalidAmount (amount p) = false ->
    Sweep.regenerateKeypair env (merchantId p) (id p) = Throw e ->
    Fails dry p (message e)
| FailsMismatch kp :
    Sweep.invalidAmount (amount p) = false ->
    Sweep.regenerateKeypair env (merchantId p) (id p) = Ok kp ->
    Sweep.addressMismatch p kp = true ->
    Fails dry p "Derived address mismatch"
| FailsSubmission kp e :
    dry = false ->
    Sweep.invalidAmount (amount p) = false ->
    Sweep.regenerateKeypair env (merchantId p) (id p) = Ok kp ->
    Sweep.addressMismatch p kp = false ->
    Sweep.submitUsdcSweepTx env (secretKey kp) (Sweep.vaultPublicKey env)
      (Sweep.toFixed7 env (amount p)) = Throw e ->
    Fails dry p (message e).

(** The events one iteration for [p] can add. *)
Definition iterationEvent (dry : bool) (p : Payment) (e : Event) : Prop :=
  e = RegenerateKeypair (merchantId p) (id p)
  \/ (dry = false
      /\ exists kp,
           Sweep.invalidAmount (amount p) = false
           /\ Sweep.regenerateKeypair env (merchantId p) (id p) = Ok kp
           /\ Sweep.addressMismatch p kp = false
           /\ (e = SubmitTransaction (id p) (secretKey kp) (Sweep.vaultPublicKey env)
                     (Sweep.toFixed7 env (amount p))
               \/ exists d, e = PaymentUpdate (id p) d)).

(** The sweep columns as a successful iteration for [p] writes them. *)
Definition markedSwept (p : Payment) (h : string) (r : Payment) : Prop :=
  swept r = true
  /\ swept_at r = Some (Sweep.sweptAtClock env (id p))
  /\ sweep_tx_hash r = Some h.

End SweepVocabulary.

Section MonitorVocabulary.

Variable env : Monitor.Env.

(** The data an iteration for [q] may write: status, token and hash
    only, the token being the running maximum over a returned page. *)
Definition tickData (q : Payment) (d : PaymentData) : Prop :=
  set_swept d = None /\ set_swept_at d = None /\ set_sweep_tx_hash d = None
  /\ set_onchain_verified d = None /\ set_contract_tx_hash d = None
  /\ set_verification_error d = None
  /\ exists address cursor records,
       Monitor.paymentsCall env address cursor = Ok records
       /\ set_last_paging_token d
          = Some (Monitor.latestPagingToken (Monitor.scanRecords env q records)).

(** The cursor of [r'] is that of [r] or a token some payments page
    returned, and is not below that of [r]. *)
Definition cursorAdvanced (r r' : Payment) : Prop :=
  cursorLeb (last_paging_token r) (last_paging_token r') = true
  /\ (last_paging_token r' = last_paging_token r
      \/ exists address cursor records rec,
           Monitor.paymentsCall env address cursor = Ok records
           /\ In rec records
           /\ last_paging_token r' = Some (Horizon.Operation.paging_token rec)).

End MonitorVocabulary.

(** *** Vocabulary of the further properties *)

(** A row keeps every column but the three sweep columns. *)
Definition sweepColumnsOnly (r r' : Payment) : Prop :=
  id r' = id r /\ merchantId r' = merchantId r /\ amount r' = amount r
  /\ status r' = status r /\ expiration r' = expiration r
  /\ stellar_address r' = stellar_address r
  /\ last_paging_token r' = last_paging_token r
  /\ transaction_hash r' = transaction_hash r
  /\ confirmed_at r' = confirmed_at r
  /\ onchain_verified r' = onchain_verified r
  /\ contract_tx_hash r' = contract_tx_hash r
  /\ verification_error r' = verification_error r.

(** How many ledger submissions a run made for payment [pid]. *)
Definition submissionsFor (pid : string) (evs : list Event) : nat :=
  List.length
    (filter (fun e => match e with
                      | SubmitTransaction q _ _ _ => String.eqb q pid
                      | _ => false
                      end) evs).

(** [skipped.length > 0 && addressesSwept === 0] on a result. *)
Definition noneSwept (r : SweepResult.t) : bool :=
  (0 <? List.length (SweepResult.skipped r))%nat
  && (SweepResult.addressesSwept r =? 0)%nat.

(** Rows a loop over [payments] may write: sweep columns only, and only
    rows carrying the id of one of the payments. *)
Definition sweptAmong (payments : list Payment) (r r' : Payment) : Prop :=
  sweepColumnsOnly r r' /\ ((forall p, In p payments -> id p <> id r) -> r' = r).

(** Why an iteration skips [p] before any submission, if it does. *)
Definition skipReason (env : Sweep.Env) (p : Payment) : option string :=
  if Sweep.invalidAmount (amount p) then Some "Invalid amount"
  else match Sweep.regenerateKeypair env (merchantId p) (id p) with
       | Throw e => Some (message e)
       | Ok kp =>
           if Sweep.addressMismatch p kp then Some "Derived address mismatch" else None
       end.

(** The options with [dryRun] set. *)
Definition withDryRun (b : bool) (options : SweepOptions) : SweepOptions :=
  {| limit := limit options; adminId := adminId options; dryRun := Some b |}.

(** The ledger accepts every transfer submitted to it. *)
Definition ledgerAccepts (env : Sweep.Env) : Prop :=
  forall source destination amountStr,
    exists h, Sweep.submitUsdcSweepTx env source destination amountStr = Ok h.

(** How many times an invocation looks the transaction up and submits,
    and the pauses it takes. *)
Definition lookups (calls : list RpcCall) : nat :=
  List.length (filter (fun c => match c with GetTransaction _ => true | _ => false end) calls).

Definition waits (calls : list RpcCall) : list Z :=
  flat_map (fun c => match c with Wait ms => [ms] | _ => [] end) calls.

Definition submissions (calls : list RpcCall) : nat :=
  List.length
    (filter (fun c => match c with SendTransaction _ _ _ => true | _ => false end) calls).

(** The invocation gets as far as submitting: every step before the
    submission returns, and the server answers the submission with [sent]. *)
Definition reachesSubmission (env : Invoke.Env) (pid tx amt : string) (stroops : Z)
    (sent : Soroban.Send.t) : Prop :=
  Invoke.newContract env = Ok tt
  /\ JsMath.toBigInt
       (JsMath.round (JsMath.mul (Invoke.parseFloat env amt) (JsNumber.ofZ 10000000)))
     = Ok stroops
  /\ Invoke.nativeToScVal env pid tx stroops = Ok tt
  /\ Invoke.getAccount env (Invoke.adminPublicKey env) = Ok tt
  /\ Invoke.prepareTransaction env pid tx stroops = Ok tt
  /\ Invoke.sendTransaction env pid tx stroops = Ok sent.

(** The calls up to and including the first lookup. *)
Definition callsUntilFirstLookup (env : Invoke.Env) (pid tx : string) (stroops : Z)
    (sent : Soroban.Send.t) : list RpcCall :=
  [GetAccount (Invoke.adminPublicKey env); PrepareTransaction pid tx stroops;
   SendTransaction pid tx stroops; GetTransaction (Soroban.Send.hash sent)].

(** [k] turns of the polling loop. *)
Fixpoint rounds (k : nat) (hash : string) : list RpcCall :=
  match k with
  | O => []
  | S k' => Wait 3000 :: GetTransaction hash :: rounds k' hash
  end.

Section MonitorWritesVocabulary.

Variable env : Monitor.Env.

(** [h] is the hash of a USDC payment record of some returned page. *)
Definition observedHash (h : string) : Prop :=
  exists address cursor records rec,
    Monitor.paymentsCall env address cursor = Ok records
    /\ In rec records
    /\ Monitor.isUsdcPayment env rec = true
    /\ h = Horizon.Operation.transaction_hash rec.

(** [s] is the status the balance found at [q]'s address calls for. *)
Definition classified (q : Payment) (s : PaymentStatus) : Prop :=
  exists address account,
    stellar_address q = Some address
    /\ Monitor.loadAccount env address = Ok account
    /\ Monitor.newStatusOf (Monitor.totalReceivedOf env account) (amount q) = Some s.

(** The data an iteration for [q] may write, in full. *)
Definition tickWrite (q : Payment) (d : PaymentData) : Prop :=
  tickData env q d
  /\ (forall s, set_status d = Some s -> classified q s)
  /\ (forall h, set_transaction_hash d = Some h ->
        JsString.truthy h = true /\ observedHash h).

End MonitorWritesVocabulary.

(** A row keeps every column the monitor has no business with. *)
Definition monitorColumnsOnly (r r' : Payment) : Prop :=
  id r' = id r /\ merchantId r' = merchantId r /\ amount r' = amount r
  /\ expiration r' = expiration r /\ stellar_address r' = stellar_address r
  /\ confirmed_at r' = confirmed_at r
  /\ swept r' = swept r /\ swept_at r' = swept_at r
  /\ sweep_tx_hash r' = sweep_tx_hash r
  /\ onchain_verified r' = onchain_verified r
  /\ contract_tx_hash r' = contract_tx_hash r
  /\ verification_error r' = verification_error r.

(** What the [catch] clause of an iteration logs for [e]. *)
Definition errorLog (address : string) (e : Thrown) : list Event :=
  if Monitor.notFound e then []
  else [ConsoleError ("[PaymentMonitor] Error checking address " ++ address)].

(** The table after the ticks [runs], each with its ledger and its time,
    one after the other. *)
Fixpoint afterTicks (runs : list (Monitor.Env * Z)) (store : Store) : Store :=
  match runs with
  | [] => store
  | (env, now) :: rest => afterTicks rest (Monitor.db (fst (Monitor.tick env now store)))
  end.

(** The pauses among the output, in order. *)
Definition delays (out : list Audit.Output) : list Z :=
  flat_map (fun o => match o with Audit.Delay ms => [ms] | _ => [] end) out.

(** The fields a Json column keeps of an object's fields. *)
Fixpoint persistFields (l : list (string * Json.value)) : list (string * Json.value) :=
  match l with
  | [] => []
  | (k, x) :: rest =>
      match x with
      | Json.Undefined => persistFields rest
      | _ => (k, Json.persist x) :: persistFields rest
      end
  end.

(** The row an insert made by query [n] creates. *)
Definition createdRow (env : Audit.Env) (params : CreateAuditLogParams) (n : nat)
  : AuditLog.t :=
  {| AuditLog.id := Audit.cuid env n;
     AuditLog.admin_id := param_admin_id params;
     AuditLog.action_type := param_action_type params;
     AuditLog.entity_type := param_entity_type params;
     AuditLog.entity_id := param_entity_id params;
     AuditLog.details := Json.persist (param_details params);
     AuditLog.created_at := Audit.now env n |}.

(** The contexts the two operations are retried under, and the action
    type a completion writes. *)
Definition createContext (params : CreateAuditLogParams) : string :=
  "create_audit_log_" ++ Audit.actionName (param_action_type params).

Definition completionContext (auditLogId : string) : string :=
  "update_sweep_completion_" ++ auditLogId.

Definition completionAction (status : string) : AuditActionType :=
  if String.eqb status "completed" then sweep_complete else sweep_fail.

(** The caller may trigger a sweep: it presents the configured secret,
    or no secret is configured and the process is not in production. *)
Definition mayTrigger (penv : SweepRoute.ProcessEnv) (req : SweepRoute.Request) : Prop :=
  (exists secret,
     SweepRoute.ADMIN_INTERNAL_SECRET penv = Some secret /\ secret <> ""
     /\ SweepRoute.x_admin_secret req = Some (SweepRoute.Single secret))
  \/ ((SweepRoute.ADMIN_INTERNAL_SECRET penv = None
       \/ SweepRoute.ADMIN_INTERNAL_SECRET penv = Some "")
      /\ SweepRoute.NODE_ENV penv <> Some "production").

(** Every running interval was given out by [setInterval] before. *)
Definition handlesIssued (rt : MonitorTimer.Runtime) : Prop :=
  Forall (fun i => (fst i < MonitorTimer.nextHandle rt)%nat) (MonitorTimer.intervals rt).

(* ================================================================== *)
(** * Properties *)

Module JsNumberFacts.

Import JsNumber.

Lemma compare_antisym (a b : number) (c : comparison) :
  SFcompare a b = Some c -> SFcompare b a = Some (CompOpp c).
Proof.
  destruct a as [sa|sa| |sa ma ea], b as [sb|sb| |sb mb eb]; simpl;
    try discriminate;
    try (destruct sa; intros [= <-]; reflexivity);
    try (destruct sb; intros [= <-]; reflexivity);
    try (destruct sa, sb; intros [= <-]; reflexivity).
  intros [= <-]. f_equal.
  change PosDef.Pos.compare_cont with Pos.compare_cont.
  pose proof (Pos.compare_cont_antisym ma mb Eq) as H; simpl in H.
  rewrite (Z.compare_antisym ea eb), <- H.
  destruct sa, sb, (ea ?= eb); simpl; try reflexivity;
    now rewrite ?CompOpp_involutive.
Qed.

Lemma eqb_geb a b : eqb a b = true -> geb a b = true.
Proof.
  unfold eqb, geb, SFeqb, SFleb.
  destruct (SFcompare a b) as [[]|] eqn:E; try discriminate.
  now rewrite (compare_antisym _ _ _ E).
Qed.

Lemma eqb_not_gtb a b : eqb a b = true -> gtb a b = false.
Proof.
  unfold eqb, gtb, SFeqb, SFltb.
  destruct (SFcompare a b) as [[]|] eqn:E; try discriminate.
  now rewrite (compare_antisym _ _ _ E).
Qed.

Lemma gtb_geb a b : gtb a b = true -> geb a b = true.
Proof.
  unfold gtb, geb, SFltb, SFleb.
  now destruct (SFcompare b a) as [[]|].
Qed.

Lemma ltb_not_geb a b : ltb a b = true -> geb a b = false.
Proof.
  unfold ltb, geb, SFltb, SFleb.
  destruct (SFcompare a b) as [[]|] eqn:E; try discriminate.
  now rewrite (compare_antisym _ _ _ E).
Qed.


End JsNumberFacts.

Module JsStringFacts.

Import JsString.

Lemma ascii_compare_trans a b c :
  Ascii.compare a b = Lt -> Ascii.compare b c = Lt -> Ascii.compare a c = Lt.
Proof.
  unfold Ascii.compare. rewrite !N.compare_lt_iff. apply N.lt_trans.
Qed.

Lemma compare_lt_trans : forall a b c,
  String.compare a b = Lt -> String.compare b c = Lt -> String.compare a c = Lt.
Proof.
  induction a as [|x a IH]; intros [|y b] [|z c]; simpl; try discriminate; auto.
  destruct (Ascii.compare x y) eqn:Exy; try discriminate.
  - apply Ascii.compare_eq_iff in Exy; subst y.
    destruct (Ascii.compare x z); try discriminate; eauto.
  - intros _.
    destruct (Ascii.compare y z) eqn:Eyz; try discriminate.
    + apply Ascii.compare_eq_iff in Eyz; subst z. now rewrite Exy.
    + intros _. now rewrite (ascii_compare_trans _ _ _ Exy Eyz).
Qed.

Lemma compare_refl : forall a, String.compare a a = Eq.
Proof.
  induction a as [|x a IH]; simpl; auto.
  replace (Ascii.compare x x) with Eq; auto.
  symmetry. unfold Ascii.compare. apply N.compare_refl.
Qed.

Lemma leb_refl a : String.leb a a = true.
Proof. unfold String.leb. now rewrite compare_refl. Qed.

Lemma leb_trans a b c :
  String.leb a b = true -> String.leb b c = true -> String.leb a c = true.
Proof.
  unfold String.leb.
  destruct (String.compare a b) eqn:Eab; try discriminate; intros _;
    destruct (String.compare b c) eqn:Ebc; try discriminate; intros _.
  - apply String.compare_eq_iff in Eab; subst b. now rewrite Ebc.
  - apply String.compare_eq_iff in Eab; subst b. now rewrite Ebc.
  - apply String.compare_eq_iff in Ebc; subst c. now rewrite Eab.
  - now rewrite (compare_lt_trans _ _ _ Eab Ebc).
Qed.

Lemma gt_leb a b : gt a b = true -> String.leb b a = true.
Proof.
  unfold gt, String.ltb, String.leb. now destruct (String.compare b a).
Qed.

End JsStringFacts.

Lemma PaymentStatus_eqb_eq a b : PaymentStatus_eqb a b = true <-> a = b.
Proof. destruct a, b; simpl; split; congruence. Qed.

Section EffFacts.

Context {S A : Type}.

Lemma forOf_app (xs ys : list A) (body : A -> Eff S unit) (s : S) :
  forOf (xs ++ ys) body s = bind (forOf xs body) (fun _ => forOf ys body) s.
Proof.
  revert s; induction xs as [|x xs IH]; intros s; simpl.
  - reflexivity.
  - unfold bind in *. destruct (body x s) as [s' [[]|e]]; [apply IH|].
    reflexivity.
Qed.

(** A loop whose body never throws preserves every invariant the body
    preserves, and never throws. *)
Lemma forOf_invariant (I : S -> Prop) (xs : list A) (body : A -> Eff S unit) :
  (forall x s, In x xs -> I s -> I (fst (body x s)) /\ snd (body x s) = Ok tt) ->
  forall s, I s -> I (fst (forOf xs body s)) /\ snd (forOf xs body s) = Ok tt.
Proof.
  induction xs as [|x xs IH]; intros Hb s Hs; simpl.
  - split; [exact Hs | reflexivity].
  - unfold bind.
    destruct (Hb x s (or_introl eq_refl) Hs) as [Hi Hok].
    destruct (body x s) as [s' r]; simpl in *; subst r.
    apply IH; [|exact Hi].
    intros y t Hy; apply Hb; right; exact Hy.
Qed.

End EffFacts.

Section PrismaFacts.

Lemma applyData_id d r : id (applyData d r) = id r.
Proof. reflexivity. Qed.

Lemma hasId_true pid r : Prisma.hasId pid r = true <-> id r = pid.
Proof. unfold Prisma.hasId. apply String.eqb_eq. Qed.

Lemma updateMany_ids c d db : map id (Prisma.updateMany c d db) = map id db.
Proof.
  unfold Prisma.updateMany. rewrite map_map. apply map_ext.
  intros r; destruct (c r); reflexivity.
Qed.

Lemma updateMany_rowwise (R : Payment -> Payment -> Prop) c d db :
  (forall r, R r r) -> (forall r, c r = true -> R r (applyData d r)) ->
  rowwise R db (Prisma.updateMany c d db).
Proof.
  intros Hrefl Hupd. unfold rowwise, Prisma.updateMany.
  induction db as [|r db IH]; simpl; constructor; auto.
  destruct (c r) eqn:E; auto.
Qed.

Lemma rowwise_refl (R : Payment -> Payment -> Prop) db :
  (forall r, R r r) -> rowwise R db db.
Proof. intros H; unfold rowwise; induction db; constructor; auto. Qed.

Lemma rowwise_trans (R : Payment -> Payment -> Prop) :
  (forall a b c, R a b -> R b c -> R a c) ->
  forall db1 db2 db3, rowwise R db1 db2 -> rowwise R db2 db3 -> rowwise R db1 db3.
Proof.
  intros Ht db1 db2 db3 H12; revert db3.
  induction H12 as [|a b l1 l2 Hab H12 IH]; intros db3 H23;
    inversion H23; subst; constructor.
  - eapply Ht; eauto.
  - apply IH; assumption.
Qed.

Lemma findUnique_In pid db r : Prisma.findUnique pid db = Some r -> In r db /\ id r = pid.
Proof.
  unfold Prisma.findUnique; intros H. apply find_some in H.
  destruct H as [Hin Hid]; split; [exact Hin | now apply hasId_true].
Qed.

Lemma findUnique_of_id pid db :
  In pid (map id db) -> exists r, Prisma.findUnique pid db = Some r.
Proof.
  unfold Prisma.findUnique.
  induction db as [|r db IH]; simpl; [tauto|].
  intros [H|H].
  - subst pid. unfold Prisma.hasId at 1. rewrite String.eqb_refl. eauto.
  - destruct (Prisma.hasId pid r); eauto.
Qed.

Lemma findUnique_primaryKey db r :
  primaryKey db -> In r db -> Prisma.findUnique (id r) db = Some r.
Proof.
  unfold primaryKey, Prisma.findUnique.
  induction db as [|x db IH]; simpl; [tauto|].
  intros Hnd Hin. inversion Hnd as [|? ? Hnotin Hnd']; subst.
  destruct Hin as [->|Hin].
  - unfold Prisma.hasId. now rewrite String.eqb_refl.
  - destruct (Prisma.hasId (id r) x) eqn:E.
    + apply hasId_true in E. exfalso; apply Hnotin. rewrite E.
      now apply in_map.
    + auto.
Qed.

Lemma primaryKey_inj db a b :
  primaryKey db -> In a db -> In b db -> id a = id b -> a = b.
Proof.
  intros Hk Ha Hb E.
  pose proof (findUnique_primaryKey db a Hk Ha) as Fa.
  pose proof (findUnique_primaryKey db b Hk Hb) as Fb.
  rewrite E in Fa. congruence.
Qed.

Lemma findUnique_updateMany_other pid qid d db :
  pid <> qid ->
  Prisma.findUnique qid (Prisma.updateMany (Prisma.hasId pid) d db)
  = Prisma.findUnique qid db.
Proof.
  intros Hne. unfold Prisma.findUnique, Prisma.updateMany.
  induction db as [|r db IH]; simpl; [reflexivity|].
  destruct (Prisma.hasId pid r) eqn:E.
  - apply hasId_true in E.
    assert (Prisma.hasId qid (applyData d r) = false) as ->.
    { unfold Prisma.hasId; simpl. apply String.eqb_neq. congruence. }
    assert (Prisma.hasId qid r = false) as ->.
    { unfold Prisma.hasId. apply String.eqb_neq. congruence. }
    exact IH.
  - destruct (Prisma.hasId qid r); [reflexivity | exact IH].
Qed.

Lemma findUnique_updateMany_same pid d db r :
  Prisma.findUnique pid db = Some r ->
  Prisma.findUnique pid (Prisma.updateMany (Prisma.hasId pid) d db)
  = Some (applyData d r).
Proof.
  unfold Prisma.findUnique, Prisma.updateMany.
  induction db as [|x db IH]; simpl; [discriminate|].
  destruct (Prisma.hasId pid x) eqn:E.
  - intros [= ->]. simpl.
    assert (Prisma.hasId pid (applyData d r) = true) as -> by exact E.
    reflexivity.
  - rewrite E. exact IH.
Qed.

Lemma update_found pid d db r :
  Prisma.findUnique pid db = Some r ->
  Prisma.update pid d db = Ok (Prisma.updateMany (Prisma.hasId pid) d db).
Proof. unfold Prisma.update; now intros ->. Qed.

Lemma update_ok_inv pid d db db' :
  Prisma.update pid d db = Ok db' ->
  db' = Prisma.updateMany (Prisma.hasId pid) d db.
Proof.
  unfold Prisma.update. destruct (Prisma.findUnique pid db); congruence.
Qed.

Lemma primaryKey_updateMany c d db :
  primaryKey db -> primaryKey (Prisma.updateMany c d db).
Proof. unfold primaryKey. now rewrite updateMany_ids. Qed.

(** Sorting and taking keep rows of the table. *)
Lemma insertBy_In le x y l : In y (Prisma.insertBy le x l) <-> y = x \/ In y l.
Proof.
  induction l as [|z l IH]; simpl.
  - intuition.
  - destruct (le x z); simpl; rewrite ?IH; intuition.
Qed.

Lemma orderBy_In le y l : In y (Prisma.orderBy le l) <-> In y l.
Proof.
  unfold Prisma.orderBy. induction l as [|x l IH]; simpl.
  - tauto.
  - rewrite insertBy_In, IH. intuition.
Qed.

Lemma take_In n rows sel y : Prisma.take n rows = Ok sel -> In y sel -> In y rows.
Proof.
  unfold Prisma.take. destruct (JsNumber.toInteger n) as [k|]; [|discriminate].
  destruct (0 <=? k); intros [= <-] H.
  - rewrite <- (firstn_skipn (Z.to_nat k) rows). apply in_or_app; now left.
  - rewrite <- (firstn_skipn (List.length rows - Z.to_nat (- k)) rows).
    apply in_or_app; now right.
Qed.

Lemma insertBy_length le x l :
  List.length (Prisma.insertBy le x l) = Datatypes.S (List.length l).
Proof.
  induction l as [|z l IH]; simpl; [reflexivity|].
  destruct (le x z); simpl; congruence.
Qed.

Lemma orderBy_length le l : List.length (Prisma.orderBy le l) = List.length l.
Proof.
  unfold Prisma.orderBy. induction l as [|x l IH]; simpl; [reflexivity|].
  rewrite insertBy_length. congruence.
Qed.

Lemma take_all n k rows :
  JsNumber.toInteger n = Some k -> Z.of_nat (List.length rows) <= k ->
  Prisma.take n rows = Ok rows.
Proof.
  intros Hk Hlen. unfold Prisma.take. rewrite Hk.
  destruct (0 <=? k) eqn:E; [|lia].
  rewrite firstn_all2; [reflexivity | lia].
Qed.

End PrismaFacts.

(* ------------------------------------------------------------------ *)
(** ** The sweep *)

(** Splits one loop iteration of the sweep along the branches of its body. *)
Ltac sweep_cases env dry p :=
  unfold Sweep.sweepIteration, Sweep.sweepOne, tryCatch, bind, await,
    Sweep.pushSkipped, Sweep.pushHash, Sweep.count, Sweep.log,
    Sweep.paymentUpdate, modify, ret;
  destruct (Sweep.invalidAmount (amount p)) eqn:Hinv; simpl;
  [ | destruct (Sweep.regenerateKeypair env (merchantId p) (id p)) as [kp|e] eqn:Hkp; simpl;
      [ destruct (Sweep.addressMismatch p kp) eqn:Hmm; simpl;
        [ | destruct dry; simpl;
            [ | destruct (Sweep.submitUsdcSweepTx env (secretKey kp)
                            (Sweep.vaultPublicKey env)
                            (Sweep.toFixed7 env (amount p))) as [h|e] eqn:Hsub; simpl;
                [ match goal with
                  | |- context [Prisma.update ?i ?d ?s] =>
                      destruct (Prisma.update i d s) as [db'|e] eqn:Hupd; simpl
                  end | ] ] ] | ] ].

Section SweepFacts.

Variable env : Sweep.Env.

Lemma sweptKept_refl r : sweptKept r r.
Proof. split; auto. Qed.

Lemma sweptKept_trans a b c : sweptKept a b -> sweptKept b c -> sweptKept a c.
Proof. unfold sweptKept; intros [? ?] [? ?]; split; [congruence | auto]. Qed.

Lemma statusAndSweepKept_refl r : statusAndSweepKept r r.
Proof. repeat split. Qed.

Lemma statusAndSweepKept_sweptKept r r' : statusAndSweepKept r r' -> sweptKept r r'.
Proof. intros (Hi & _ & Hs & _); split; [exact Hi | congruence]. Qed.

Lemma rowwise_impl (R Q : Payment -> Payment -> Prop) db db' :
  (forall r r', R r r' -> Q r r') -> rowwise R db db' -> rowwise Q db db'.
Proof. intros H F; induction F; constructor; auto. Qed.

(** What every iteration guarantees, whatever happens to the payment. *)
Lemma sweepIteration_frame dry p st :
  let st' := fst (Sweep.sweepIteration env dry p st) in
  snd (Sweep.sweepIteration env dry p st) = Ok tt
  /\ rowwise sweptKept (Sweep.db st) (Sweep.db st')
  /\ map id (Sweep.db st') = map id (Sweep.db st)
  /\ (forall e, In e (Sweep.events st') ->
        In e (Sweep.events st) \/ iterationEvent env dry p e)
  /\ (dry = true ->
        Sweep.db st' = Sweep.db st /\ Sweep.txHashes st' = Sweep.txHashes st)
  /\ (forall pid, pid <> id p ->
        Prisma.findUnique pid (Sweep.db st') = Prisma.findUnique pid (Sweep.db st))
  /\ (forall x, In x (Sweep.skipped st) -> In x (Sweep.skipped st')).
Proof.
  assert (Hr : rowwise sweptKept (Sweep.db st) (Sweep.db st))
    by (apply rowwise_refl, sweptKept_refl).
  unfold iterationEvent.
  sweep_cases env dry p;
    (split; [reflexivity|]);
    (split;
     [ first [ exact Hr
             | apply update_ok_inv in Hupd; subst;
               apply updateMany_rowwise;
               [apply sweptKept_refl | intros r _; split; reflexivity] ] |]);
    (split;
     [ first [ reflexivity
             | apply update_ok_inv in Hupd; subst; apply updateMany_ids ] |]);
    (split;
     [ intros ev Hev;
       repeat (apply in_app_or in Hev; destruct Hev as [Hev|Hev]);
       [ now left | .. ];
       simpl in Hev; destruct Hev as [<-|[]]; right;
       first [ now left
             | right; split; [reflexivity|]; exists kp; repeat split; eauto ] |]);
    (split; [ intros Hd; first [ discriminate Hd | split; reflexivity ] |]);
    (split;
     [ intros pid Hne;
       first [ reflexivity
             | apply update_ok_inv in Hupd; subst;
               apply findUnique_updateMany_other; congruence ] |]);
    intros x Hx; first [ exact Hx | apply in_or_app; now left ].
Qed.

Lemma forOf_sweep_frame dry payments st :
  let st' := fst (forOf payments (Sweep.sweepIteration env dry) st) in
  snd (forOf payments (Sweep.sweepIteration env dry) st) = Ok tt
  /\ rowwise sweptKept (Sweep.db st) (Sweep.db st')
  /\ map id (Sweep.db st') = map id (Sweep.db st)
  /\ (forall e, In e (Sweep.events st') ->
        In e (Sweep.events st) \/ exists p, In p payments /\ iterationEvent env dry p e)
  /\ (dry = true ->
        Sweep.db st' = Sweep.db st /\ Sweep.txHashes st' = Sweep.txHashes st)
  /\ (forall x, In x (Sweep.skipped st) -> In x (Sweep.skipped st')).
Proof.
  revert st; induction payments as [|p rest IH]; intros st; simpl.
  - repeat split; auto. apply rowwise_refl, sweptKept_refl.
  - unfold bind.
    destruct (sweepIteration_frame dry p st)
      as (Hok & Hrow & Hids & Hev & Hdry & _ & Hsk).
    destruct (Sweep.sweepIteration env dry p st) as [s1 r1]; simpl in *; subst r1.
    destruct (IH s1) as (Hok' & Hrow' & Hids' & Hev' & Hdry' & Hsk').
    split; [exact Hok'|].
    split; [eapply rowwise_trans; eauto using sweptKept_trans|].
    split; [congruence|].
    split; [|split].
    + intros e He. destruct (Hev' e He) as [H|(q & Hq & H)].
      * destruct (Hev e H); eauto.
      * eauto.
    + intros H. destruct (Hdry H), (Hdry' H). split; congruence.
    + auto.
Qed.

(** A run is: the selection, the loop from [loopStart], the audit call,
    and the result read off the loop's final state. *)
Lemma run_selected options store payments :
  Sweep.getUnsweptPaidPayments (Sweep.resolveLimit env options) store = Ok payments ->
  let st1 := fst (forOf payments (Sweep.sweepIteration env (Sweep.dryRunOf options))
                    (loopStart options store)) in
  exists audit,
    Forall isAuditCompletion audit
    /\ Sweep.db (fst (Sweep.run env options store)) = Sweep.db st1
    /\ Sweep.events (fst (Sweep.run env options store)) = (Sweep.events st1 ++ audit)%list
    /\ snd (Sweep.run env options store)
       = Ok {| SweepResult.sweepId := "sweep_" ++ JsString.ofZ (Sweep.startedAt env);
               SweepResult.startedAt := Sweep.startedAt env;
               SweepResult.completedAt := Sweep.completedAt env;
               SweepResult.addressesSwept := Sweep.addressesSwept st1;
               SweepResult.totalAmount := Sweep.toFixed7 env (Sweep.total st1);
               SweepResult.masterVaultPublicKey := Sweep.vaultPublicKey env;
               SweepResult.txHashes := Sweep.txHashes st1;
               SweepResult.skipped := Sweep.skipped st1 |}.
Proof.
  intros Hsel st1.
  destruct (forOf_sweep_frame (Sweep.dryRunOf options) payments (loopStart options store))
    as (Hok & _).
  unfold Sweep.run, Sweep.sweepPaidPayments, bind, Sweep.log, modify, Sweep.initial.
  simpl. rewrite Hsel.
  fold (loopStart options store). subst st1.
  destruct (forOf payments _ (loopStart options store)) as [s1 r1]; simpl in *; subst r1.
  unfold Sweep.auditCompletion, Sweep.log, modify.
  destruct (Sweep.auditLogCreated env); simpl.
  - eexists [_]; repeat split; try reflexivity.
    constructor; [|constructor]. unfold isAuditCompletion; eauto 8.
  - exists []; repeat split; try reflexivity; [constructor | now rewrite app_nil_r].
Qed.

(** When the selection is rejected, so is the run, before any payment
    is looked at. *)
Lemma run_rejected options store e :
  Sweep.getUnsweptPaidPayments (Sweep.resolveLimit env options) store = Throw e ->
  Sweep.run env options store = (loopStart options store, Throw e).
Proof.
  intros Hsel.
  unfold Sweep.run, Sweep.sweepPaidPayments, bind, Sweep.log, modify, Sweep.initial.
  simpl. now rewrite Hsel.
Qed.

Lemma selection_sound limit store payments p :
  Sweep.getUnsweptPaidPayments limit store = Ok payments -> In p payments ->
  In p store /\ Sweep.unsweptPaid p = true.
Proof.
  unfold Sweep.getUnsweptPaidPayments, Prisma.findMany. intros Hsel Hin.
  eapply take_In in Hin; eauto.
  apply orderBy_In in Hin. now apply filter_In in Hin.
Qed.

(** *** Accounting of one iteration *)

Lemma iteration_fails dry p reason st :
  Fails env dry p reason ->
  let st' := fst (Sweep.sweepIteration env dry p st) in
  Sweep.addressesSwept st' = Sweep.addressesSwept st
  /\ Sweep.skipped st' = (Sweep.skipped st ++ [(id p, reason)])%list
  /\ Sweep.txHashes st' = Sweep.txHashes st
  /\ Sweep.total st' = Sweep.total st.
Proof.
  intros HF.
  sweep_cases env dry p;
    destruct HF as [Ha | e' Ha Hd | kp' Ha Hd Hm | kp' e' Hdry Ha Hd Hm Hs];
    try congruence; repeat split; congruence.
Qed.

Lemma iteration_succeeds dry p st :
  Sweepable env dry p -> In (id p) (map id (Sweep.db st)) ->
  let st' := fst (Sweep.sweepIteration env dry p st) in
  Sweep.addressesSwept st' = Datatypes.S (Sweep.addressesSwept st)
  /\ Sweep.skipped st' = Sweep.skipped st
  /\ Sweep.total st' = JsNumber.add (Sweep.total st) (amount p)
  /\ List.length (Sweep.txHashes st')
     = (List.length (Sweep.txHashes st) + if dry then 0 else 1)%nat.
Proof.
  intros HS Hid.
  destruct (findUnique_of_id _ _ Hid) as [r Hr].
  sweep_cases env dry p;
    destruct HS as [kp' Hdry Ha Hd Hm | kp' h' Hdry Ha Hd Hm Hs];
    try congruence; repeat split;
    try (rewrite length_app; simpl); try lia.
  all: erewrite update_found in Hupd by eassumption; discriminate.
Qed.

Lemma loop_succeeds dry payments : forall st,
  (forall p, In p payments -> Sweepable env dry p) ->
  (forall p, In p payments -> In (id p) (map id (Sweep.db st))) ->
  let st' := fst (forOf payments (Sweep.sweepIteration env dry) st) in
  Sweep.addressesSwept st' = (Sweep.addressesSwept st + List.length payments)%nat
  /\ Sweep.skipped st' = Sweep.skipped st
  /\ List.length (Sweep.txHashes st')
     = (List.length (Sweep.txHashes st)
        + if dry then 0 else List.length payments)%nat.
Proof.
  induction payments as [|p rest IH]; intros st HS Hid; simpl.
  - repeat split; destruct dry; lia.
  - unfold bind.
    destruct (iteration_succeeds dry p st) as (Ha & Hs & _ & Hh);
      [apply HS; now left | apply Hid; now left |].
    destruct (sweepIteration_frame dry p st) as (Hok & _ & Hids & _).
    destruct (Sweep.sweepIteration env dry p st) as [s1 r1]; simpl in *; subst r1.
    destruct (IH s1) as (Ha' & Hs' & Hh').
    + intros q Hq; apply HS; now right.
    + intros q Hq; rewrite Hids; apply Hid; now right.
    + repeat split; try congruence; destruct dry; lia.
Qed.

Lemma dry_iteration_counts p st :
  let st' := fst (Sweep.sweepIteration env true p st) in
  Sweep.addressesSwept st'
  = (Sweep.addressesSwept st + if wouldSweep env p then 1 else 0)%nat
  /\ Sweep.total st'
     = if wouldSweep env p then JsNumber.add (Sweep.total st) (amount p)
       else Sweep.total st.
Proof.
  unfold wouldSweep.
  unfold Sweep.sweepIteration, Sweep.sweepOne, tryCatch, bind, await,
    Sweep.pushSkipped, Sweep.count, Sweep.log, modify, ret.
  destruct (Sweep.invalidAmount (amount p)); simpl; [split; [lia | reflexivity]|].
  destruct (Sweep.regenerateKeypair env (merchantId p) (id p)) as [kp|e]; simpl;
    [|split; [lia | reflexivity]].
  destruct (Sweep.addressMismatch p kp); simpl; split; (lia || reflexivity).
Qed.

Lemma dry_loop_counts payments : forall st,
  let st' := fst (forOf payments (Sweep.sweepIteration env true) st) in
  Sweep.addressesSwept st'
  = (Sweep.addressesSwept st + List.length (filter (wouldSweep env) payments))%nat
  /\ Sweep.total st'
     = fold_left JsNumber.add (map amount (filter (wouldSweep env) payments)) (Sweep.total st).
Proof.
  induction payments as [|p rest IH]; intros st; simpl.
  - split; [lia | reflexivity].
  - unfold bind.
    destruct (dry_iteration_counts p st) as (Ha & Ht).
    destruct (sweepIteration_frame true p st) as (Hok & _).
    destruct (Sweep.sweepIteration env true p st) as [s1 r1]; simpl in *; subst r1.
    destruct (IH s1) as (Ha' & Ht').
    destruct (wouldSweep env p); simpl; split; try lia; congruence.
Qed.

(** C4. A dry run leaves the Payment table as it found it (so no row's
    [swept], [swept_at] or [sweep_tx_hash] changes), makes no submission
    to the ledger and no row update, and still reports, for the payments
    it selected, how many pass the amount and derivation checks and the
    sum of their amounts, added up in selection order. *)
Theorem dry_run_mutates_nothing_and_reports_projection options store :
  Sweep.dryRunOf options = true ->
  Sweep.db (fst (Sweep.run env options store)) = store
  /\ (forall e, In e (Sweep.events (fst (Sweep.run env options store))) ->
        ~ isSubmitTransaction e /\ ~ isPaymentUpdate e)
  /\ (forall payments,
        Sweep.getUnsweptPaidPayments (Sweep.resolveLimit env options) store = Ok payments ->
        exists r,
          snd (Sweep.run env options store) = Ok r
          /\ SweepResult.addressesSwept r = List.length (filter (wouldSweep env) payments)
          /\ SweepResult.totalAmount r
             = Sweep.toFixed7 env
                 (fold_left JsNumber.add (map amount (filter (wouldSweep env) payments))
                    JsNumber.zero)
          /\ SweepResult.txHashes r = []).
Proof.
  intros Hdry.
  destruct (Sweep.getUnsweptPaidPayments (Sweep.resolveLimit env options) store)
    as [payments|e] eqn:Hsel.
  - destruct (run_selected options store payments Hsel)
      as (audit & Haudit & Hdb & Hev & Hres).
    rewrite Hdry in *.
    destruct (forOf_sweep_frame true payments (loopStart options store))
      as (_ & _ & _ & Hevs & Hd & _).
    destruct (Hd eq_refl) as [Hdb' Hhashes].
    destruct (dry_loop_counts payments (loopStart options store)) as (Hcount & Htotal).
    split; [rewrite Hdb, Hdb'; reflexivity|].
    split.
    + intros ev Hin. rewrite Hev in Hin. apply in_app_or in Hin.
      destruct Hin as [Hin|Hin].
      * destruct (Hevs ev Hin) as [H|(q & _ & [H|(H & _)])]; try discriminate.
        -- simpl in H. destruct H as [<-|[]].
           split; intros (? & ? & H); try destruct H as (? & ? & H); discriminate.
        -- subst ev.
           split; intros (? & ? & H); try destruct H as (? & ? & H); discriminate.
      * rewrite Forall_forall in Haudit.
        destruct (Haudit ev Hin) as (? & ? & ? & ? & ? & ->).
        split; intros (? & ? & H); try destruct H as (? & ? & H); discriminate.
    + intros payments' [= <-]. eexists; split; [exact Hres|]. simpl.
      rewrite Hcount, Htotal, Hhashes. repeat split.
  - rewrite (run_rejected options store e Hsel). simpl.
    split; [reflexivity|]. split; [|discriminate].
    intros ev [<-|[]].
    split; intros (? & ? & H); try destruct H as (? & ? & H); discriminate.
Qed.

(** C5. When one selected payment fails (invalid amount, failed or
    mismatching derivation, rejected submission) and all the others go
    through, the run returns a result: it counts every other payment as
    swept, with one hash each outside a dry run, and its [skipped] list
    is exactly the failing payment with its reason. *)
Theorem one_failure_does_not_abort_the_run options store before bad after reason :
  Sweep.getUnsweptPaidPayments (Sweep.resolveLimit env options) store
    = Ok (before ++ bad :: after)%list ->
  (forall p, In p (before ++ after)%list -> Sweepable env (Sweep.dryRunOf options) p) ->
  Fails env (Sweep.dryRunOf options) bad reason ->
  exists r,
    snd (Sweep.run env options store) = Ok r
    /\ SweepResult.addressesSwept r = (List.length before + List.length after)%nat
    /\ SweepResult.skipped r = [(id bad, reason)]
    /\ (Sweep.dryRunOf options = false ->
          List.length (SweepResult.txHashes r)
          = (List.length before + List.length after)%nat).
Proof.
  intros Hsel Hgood Hbad.
  destruct (run_selected options store _ Hsel) as (audit & _ & _ & _ & Hres).
  eexists; split; [exact Hres|]. simpl.
  set (dry := Sweep.dryRunOf options) in *.
  assert (Hstore : forall p, In p (before ++ bad :: after)%list ->
                             In (id p) (map id store)).
  { intros p Hp. apply in_map. eapply selection_sound; eauto. }
  rewrite forOf_app. unfold bind.
  destruct (loop_succeeds dry before (loopStart options store)) as (Ha1 & Hs1 & Hh1).
  { intros p Hp; apply Hgood, in_or_app; now left. }
  { intros p Hp; apply Hstore, in_or_app; now left. }
  destruct (forOf_sweep_frame dry before (loopStart options store))
    as (Hok1 & _ & Hids1 & _).
  destruct (forOf before _ (loopStart options store)) as [s1 r1];
    simpl in Ha1, Hs1, Hh1, Hok1, Hids1; subst r1.
  simpl. unfold bind.
  destruct (iteration_fails dry bad reason s1 Hbad) as (Ha2 & Hs2 & Hh2 & _).
  destruct (sweepIteration_frame dry bad s1) as (Hok2 & _ & Hids2 & _).
  destruct (Sweep.sweepIteration env dry bad s1) as [s2 r2];
    simpl in Ha2, Hs2, Hh2, Hok2, Hids2; subst r2.
  destruct (loop_succeeds dry after s2) as (Ha3 & Hs3 & Hh3).
  { intros p Hp; apply Hgood, in_or_app; now right. }
  { intros p Hp. rewrite Hids2, Hids1. apply Hstore, in_or_app; right; now right. }
  rewrite Ha3, Hs3, Hh3, Ha2, Hs2, Hh2, Ha1, Hs1, Hh1. simpl.
  repeat split; try lia.
  intros Hd; rewrite Hd. lia.
Qed.

Lemma loop_records_failure dry payments p reason : forall st,
  In p payments -> Fails env dry p reason ->
  In (id p, reason)
     (Sweep.skipped (fst (forOf payments (Sweep.sweepIteration env dry) st))).
Proof.
  induction payments as [|q rest IH]; intros st Hin HF; [destruct Hin|].
  simpl. unfold bind.
  destruct (sweepIteration_frame dry q st) as (Hok & _).
  destruct Hin as [->|Hin].
  - destruct (iteration_fails dry p reason st HF) as (_ & Hsk & _).
    destruct (Sweep.sweepIteration env dry p st) as [s1 r1]; simpl in *; subst r1.
    destruct (forOf_sweep_frame dry rest s1) as (_ & _ & _ & _ & _ & Hkeep).
    apply Hkeep. rewrite Hsk. apply in_or_app; right; now left.
  - destruct (Sweep.sweepIteration env dry q st) as [s1 r1]; simpl in *; subst r1.
    now apply IH.
Qed.

Lemma addressMismatch_true p kp addr :
  stellar_address p = Some addr -> addr <> "" -> publicKey kp <> addr ->
  Sweep.addressMismatch p kp = true.
Proof.
  intros Ha Hne Hk. unfold Sweep.addressMismatch. rewrite Ha. simpl.
  unfold JsString.truthy.
  apply String.eqb_neq in Hne, Hk. now rewrite Hne, Hk.
Qed.

(** Every ledger submission of a run is made for a selected payment that
    passed the amount and derivation checks, outside a dry run. *)
Lemma run_submissions options store payments pid s d a :
  Sweep.getUnsweptPaidPayments (Sweep.resolveLimit env options) store = Ok payments ->
  In (SubmitTransaction pid s d a) (Sweep.events (fst (Sweep.run env options store))) ->
  exists q kp,
    In q payments /\ id q = pid
    /\ Sweep.dryRunOf options = false
    /\ Sweep.invalidAmount (amount q) = false
    /\ Sweep.regenerateKeypair env (merchantId q) (id q) = Ok kp
    /\ Sweep.addressMismatch q kp = false.
Proof.
  intros Hsel Hin.
  destruct (run_selected options store payments Hsel) as (audit & Haudit & _ & Hev & _).
  rewrite Hev in Hin. apply in_app_or in Hin. destruct Hin as [Hin|Hin].
  - destruct (forOf_sweep_frame (Sweep.dryRunOf options) payments (loopStart options store))
      as (_ & _ & _ & Hevs & _).
    destruct (Hevs _ Hin) as [H|(q & Hq & [H|(Hd & kp & Hi & Hk & Hm & [H|(? & H)])])];
      try discriminate.
    + simpl in H. destruct H as [H|[]]; discriminate.
    + injection H as Hpid _ _ _. exists q, kp. repeat split; auto.
  - rewrite Forall_forall in Haudit.
    destruct (Haudit _ Hin) as (? & ? & ? & ? & ? & H); discriminate.
Qed.

(** Where the address check is made, it holds the key back: for a
    selected payment whose stored custody address is a non-empty string
    different from the public key the deriver returns, the run records
    the payment in [skipped] (as "Invalid amount" when the amount check
    already failed, as "Derived address mismatch" otherwise) and makes
    no ledger submission for it. *)
Lemma mismatch_is_skipped_and_never_signed options store payments p kp addr :
  primaryKey store ->
  Sweep.getUnsweptPaidPayments (Sweep.resolveLimit env options) store = Ok payments ->
  In p payments ->
  Sweep.regenerateKeypair env (merchantId p) (id p) = Ok kp ->
  stellar_address p = Some addr -> addr <> "" -> publicKey kp <> addr ->
  exists r,
    snd (Sweep.run env options store) = Ok r
    /\ In (id p,
           if Sweep.invalidAmount (amount p)
           then "Invalid amount" else "Derived address mismatch")
          (SweepResult.skipped r)
    /\ (forall s d a,
          ~ In (SubmitTransaction (id p) s d a)
               (Sweep.events (fst (Sweep.run env options store)))).
Proof.
  intros Hkey Hsel Hin Hkp Haddr Hne Hdiff.
  pose proof (addressMismatch_true p kp addr Haddr Hne Hdiff) as Hmm.
  destruct (run_selected options store payments Hsel) as (audit & _ & _ & _ & Hres).
  eexists; split; [exact Hres|]. simpl. split.
  - apply loop_records_failure; [exact Hin|].
    destruct (Sweep.invalidAmount (amount p)) eqn:Hinv.
    + now apply FailsAmount.
    + now apply FailsMismatch with kp.
  - intros s d a Hev.
    destruct (run_submissions options store payments _ _ _ _ Hsel Hev)
      as (q & kq & Hq & Hid & _ & _ & Hkq & Hmq).
    assert (q = p) as ->.
    { apply (primaryKey_inj store); auto; eapply selection_sound; eauto. }
    congruence.
Qed.

Lemma unsweptPaid_iff p :
  Sweep.unsweptPaid p = true <->
  (status p = confirmed \/ status p = overpaid \/ status p = paid)
  /\ swept p = false /\ stellar_address p <> None.
Proof.
  unfold Sweep.unsweptPaid.
  destruct (swept p), (stellar_address p), (status p); simpl;
    intuition congruence.
Qed.


End SweepFacts.

(** C7 (amended). A selected payment is a row of the table whose status is
    [confirmed], [overpaid] or [paid], which is not swept and has a custody
    address; and each such row is selected when the cap is a whole number
    that the count of such rows does not exceed. *)
Theorem selected_iff_settled_unswept_with_address_within_cap limit store payments p :
  Sweep.getUnsweptPaidPayments limit store = Ok payments ->
  (In p payments ->
     In p store
     /\ (status p = confirmed \/ status p = overpaid \/ status p = paid)
     /\ swept p = false /\ stellar_address p <> None)
  /\ (forall k,
        JsNumber.toInteger limit = Some k ->
        Z.of_nat (List.length (Prisma.findMany Sweep.unsweptPaid store)) <= k ->
        In p store ->
        (status p = confirmed \/ status p = overpaid \/ status p = paid) ->
        swept p = false -> stellar_address p <> None ->
        In p payments).
Proof.
  intros Hsel. split.
  - intros Hin. destruct (selection_sound _ _ _ _ Hsel Hin) as [Hs Hu].
    apply unsweptPaid_iff in Hu. tauto.
  - intros k Hk Hlen Hin Hst Hsw Haddr.
    unfold Sweep.getUnsweptPaidPayments in Hsel.
    rewrite (take_all limit k) in Hsel; auto.
    + injection Hsel as <-. apply orderBy_In. apply filter_In. split; auto.
      apply unsweptPaid_iff. tauto.
    + now rewrite orderBy_length.
Qed.

(* ------------------------------------------------------------------ *)
(** ** The payment monitor *)

Lemma cursorLeb_refl a : cursorLeb a a = true.
Proof. destruct a; simpl; [apply JsStringFacts.leb_refl | reflexivity]. Qed.

Lemma cursorLeb_trans a b c :
  cursorLeb a b = true -> cursorLeb b c = true -> cursorLeb a c = true.
Proof.
  destruct a, b, c; simpl; try congruence. apply JsStringFacts.leb_trans.
Qed.

(** Splits one loop iteration of the monitor along the branches of its body. *)
Ltac monitor_unfold :=
  unfold Monitor.monitorIteration, Monitor.checkPayment, Monitor.notifySettled,
    Monitor.updateTokenOnly, tryCatch, bind, await, Monitor.log,
    Monitor.paymentUpdate, modify, ret.

Ltac monitor_branch :=
  match goal with
  | |- context [Monitor.loadAccount ?e ?a] =>
      destruct (Monitor.loadAccount e a) eqn:?; simpl
  | |- context [Monitor.paymentsCall ?e ?a ?c] =>
      destruct (Monitor.paymentsCall e a c) eqn:?; simpl
  | |- context [Monitor.newStatusOf ?a ?b] =>
      destruct (Monitor.newStatusOf a b) as [[]|] eqn:?; simpl
  | |- context [Monitor.latestTxHash ?s] =>
      destruct (Monitor.latestTxHash s) eqn:?; simpl
  | |- context [Prisma.update ?i ?d ?s] =>
      destruct (Prisma.update i d s) eqn:?; simpl
  | |- context [Prisma.findUnique ?i ?s] =>
      destruct (Prisma.findUnique i s) eqn:?; simpl
  | |- context [Monitor.eventBusEmit ?e ?r] =>
      destruct (Monitor.eventBusEmit e r) eqn:?; simpl
  | |- context [Monitor.notFound ?e] =>
      destruct (Monitor.notFound e) eqn:?; simpl
  | |- context [if ?b then _ else _] => destruct b eqn:?; simpl
  | |- context [match ?x with _ => _ end] => destruct x eqn:?; simpl
  end.

Section MonitorFacts.

Variable env : Monitor.Env.

Lemma advances_cursorLeb token latest :
  Monitor.advances token latest = true -> cursorLeb latest (Some token) = true.
Proof.
  unfold Monitor.advances. destruct latest as [cur|]; simpl; [|reflexivity].
  intros H. apply andb_prop in H. destruct H as [_ H].
  apply orb_prop in H. destruct H as [H|H].
  - unfold JsString.truthy in H. apply negb_true_iff, negb_false_iff in H.
    apply String.eqb_eq in H. subst cur. now destruct token.
  - now apply JsStringFacts.gt_leb.
Qed.

Lemma scanRecord_token acc r :
  Monitor.latestPagingToken (Monitor.scanRecord env acc r)
  = if Monitor.advances (Horizon.Operation.paging_token r) (Monitor.latestPagingToken acc)
    then Some (Horizon.Operation.paging_token r)
    else Monitor.latestPagingToken acc.
Proof. unfold Monitor.scanRecord. now destruct (_ && _). Qed.

(** The running maximum only grows, and is the starting cursor or the
    token of one of the records. *)
Lemma scan_cursor records : forall acc,
  let tok := Monitor.latestPagingToken (fold_left (Monitor.scanRecord env) records acc) in
  cursorLeb (Monitor.latestPagingToken acc) tok = true
  /\ (tok = Monitor.latestPagingToken acc
      \/ exists r, In r records /\ tok = Some (Horizon.Operation.paging_token r)).
Proof.
  induction records as [|r rest IH]; intros acc; simpl.
  - split; [apply cursorLeb_refl | now left].
  - destruct (IH (Monitor.scanRecord env acc r)) as [Hle Hor].
    rewrite scanRecord_token in Hle, Hor.
    destruct (Monitor.advances _ _) eqn:Hadv.
    + split.
      * eapply cursorLeb_trans; [apply advances_cursorLeb; eassumption | exact Hle].
      * right. destruct Hor as [->|(r' & Hin & ->)]; eauto.
    + split; [exact Hle|]. destruct Hor as [->|(r' & Hin & ->)]; eauto.
Qed.

(** An iteration never throws, only adds events, and writes at most one
    row update, for its own payment. *)
Lemma monitorIteration_shape q st :
  let st' := fst (Monitor.monitorIteration env q st) in
  snd (Monitor.monitorIteration env q st) = Ok tt
  /\ (exists suffix, Monitor.events st' = (Monitor.events st ++ suffix)%list)
  /\ (Monitor.db st' = Monitor.db st
      \/ exists d,
           Monitor.db st' = Prisma.updateMany (Prisma.hasId (id q)) d (Monitor.db st)
           /\ tickData env q d).
Proof.
  monitor_unfold. repeat monitor_branch.
  all: repeat match goal with u : unit |- _ => destruct u end.
  all: split; [reflexivity|].
  all: split; [rewrite <- ?app_assoc; eexists; try reflexivity;
               symmetry; apply app_nil_r|].
  all: try (left; reflexivity).
  all: right; eexists; split;
    [ match goal with H : Prisma.update _ _ _ = Ok _ |- _ =>
        apply update_ok_inv in H; exact H end |].
  all: unfold tickData; simpl; repeat split; eauto.
Qed.

End MonitorFacts.

(* ------------------------------------------------------------------ *)
(** ** The verification dispatcher *)

Lemma rowwise_findUnique (R : Payment -> Payment -> Prop) db db' pid r :
  (forall a b, R a b -> id b = id a) ->
  rowwise R db db' -> Prisma.findUnique pid db = Some r ->
  exists r', Prisma.findUnique pid db' = Some r' /\ R r r'.
Proof.
  intros Hid F. unfold Prisma.findUnique.
  induction F as [|a b l l' Hab F IH]; simpl; [discriminate|].
  unfold Prisma.hasId at 1 3. rewrite (Hid _ _ Hab).
  destruct (String.eqb (id a) pid); [intros [= <-]; eauto | exact IH].
Qed.

Lemma statusAndSweepKept_trans a b c :
  statusAndSweepKept a b -> statusAndSweepKept b c -> statusAndSweepKept a c.
Proof.
  unfold statusAndSweepKept. intros (?&?&?&?&?) (?&?&?&?&?).
  repeat split; congruence.
Qed.

(** Programs all of whose runs relate the table row by row. *)
Section Frames.

Context {S : Type} (dbOf : S -> Store) (R : Payment -> Payment -> Prop).
Hypothesis R_refl : forall r, R r r.
Hypothesis R_trans : forall a b c, R a b -> R b c -> R a c.

Lemma frames_ret {A} (a : A) : frames dbOf R (ret a).
Proof. intros s; simpl. now apply rowwise_refl. Qed.

Lemma frames_await {A} (r : Result A) : frames dbOf R (await r).
Proof. intros s; simpl. now apply rowwise_refl. Qed.

Lemma frames_modify (f : S -> S) :
  (forall s, dbOf (f s) = dbOf s) -> frames dbOf R (modify f).
Proof. intros H s; simpl. rewrite H. now apply rowwise_refl. Qed.

Lemma frames_bind {A B} (c : Eff S A) (k : A -> Eff S B) :
  frames dbOf R c -> (forall a, frames dbOf R (k a)) -> frames dbOf R (bind c k).
Proof.
  intros Hc Hk s. unfold bind. specialize (Hc s).
  destruct (c s) as [s' [a|e]]; simpl in *; [|exact Hc].
  eapply rowwise_trans; [exact R_trans | exact Hc | apply Hk].
Qed.

Lemma frames_tryCatch {A} (body : Eff S A) (handler : Thrown -> Eff S A) :
  frames dbOf R body -> (forall e, frames dbOf R (handler e)) ->
  frames dbOf R (tryCatch body handler).
Proof.
  intros Hb Hh s. unfold tryCatch. specialize (Hb s).
  destruct (body s) as [s' [a|e]]; simpl in *; [exact Hb|].
  eapply rowwise_trans; [exact R_trans | exact Hb | apply Hh].
Qed.

End Frames.

Section VerifyFacts.

Variable env : Verify.Env.

Lemma verify_update_frames pid d :
  set_status d = None -> set_swept d = None -> set_swept_at d = None ->
  set_sweep_tx_hash d = None ->
  frames Verify.db statusAndSweepKept (Verify.paymentUpdate pid d).
Proof.
  intros H1 H2 H3 H4 st. unfold Verify.paymentUpdate.
  destruct (Prisma.update pid d (Verify.db st)) as [db'|e] eqn:Hupd; simpl.
  - apply update_ok_inv in Hupd; subst db'.
    apply updateMany_rowwise; [apply statusAndSweepKept_refl|].
    intros r _. unfold statusAndSweepKept, applyData; simpl.
    rewrite H1, H2, H3, H4. repeat split.
  - apply rowwise_refl, statusAndSweepKept_refl.
Qed.

Lemma verify_log_frames e : frames Verify.db statusAndSweepKept (Verify.log e).
Proof. apply frames_modify; [apply statusAndSweepKept_refl | reflexivity]. Qed.

Ltac verify_frames :=
  repeat first
    [ apply (frames_ret _ _ statusAndSweepKept_refl)
    | apply (frames_await _ _ statusAndSweepKept_refl)
    | apply verify_log_frames
    | apply verify_update_frames; reflexivity
    | apply (frames_bind _ _ statusAndSweepKept_trans); [|intros ?] ].

(** No turn of the retry loop touches [status] or the sweep columns,
    whether it ends by returning or by throwing. *)
Lemma retryLoop_frames pid tx amt : forall fuel attempt,
  frames Verify.db statusAndSweepKept (Verify.retryLoop env fuel attempt pid tx amt).
Proof.
  induction fuel as [|fuel IH]; intros attempt; cbn [Verify.retryLoop].
  - apply (frames_ret _ _ statusAndSweepKept_refl).
  - destruct (attempt <? Verify.MAX_RETRIES)%nat;
      [|apply (frames_ret _ _ statusAndSweepKept_refl)].
    apply (frames_tryCatch _ _ statusAndSweepKept_trans); [|intros error].
    + verify_frames.
    + apply (frames_bind _ _ statusAndSweepKept_trans);
        [apply verify_log_frames | intros _].
      destruct (Verify.MAX_RETRIES <=? Datatypes.S attempt)%nat.
      * verify_frames.
      * apply (frames_bind _ _ statusAndSweepKept_trans);
          [apply verify_log_frames | intros _; apply IH].
Qed.

Lemma call_frame pid tx amt store :
  rowwise statusAndSweepKept store
    (Verify.db (fst (Verify.call env pid tx amt store))).
Proof.
  unfold Verify.call, Verify.verify_payment.
  destruct (negb _); [apply rowwise_refl, statusAndSweepKept_refl|].
  apply (retryLoop_frames pid tx amt Verify.MAX_RETRIES 0%nat (Verify.initial store)).
Qed.

(** *** The five ways a call can go, for a payment that has a row *)

Ltac verify_run :=
  unfold Verify.call, Verify.verify_payment, Verify.initial;
  repeat match goal with
    | H : JsString.truthy _ = _ |- _ => rewrite H
    end;
  repeat first
    [ progress
        (unfold tryCatch, bind, await, Verify.log, Verify.paymentUpdate, modify, ret)
    | progress simpl
    | match goal with
      | H : Verify.invokeVerifyContract _ _ _ _ _ = _ |- _ => rewrite H
      | H : Prisma.findUnique ?i ?s = Some _ |- context [Prisma.update ?i ?d ?s] =>
          rewrite (update_found i d s _ H)
      end ].


Lemma call_first_try pid tx amt store r resp :
  JsString.truthy (Verify.contractId env) = true ->
  Prisma.findUnique pid store = Some r ->
  Verify.invokeVerifyContract env 0%nat pid tx amt = Ok resp ->
  Verify.call env pid tx amt store
  = ({| Verify.db := Prisma.updateMany (Prisma.hasId pid) (Verify.verifiedData resp) store;
        Verify.events :=
          [InvokeVerifyContract 0 pid tx amt;
           PaymentUpdate pid (Verify.verifiedData resp)] |},
     Ok true).
Proof. intros Hc Hr H0. verify_run. reflexivity. Qed.



Lemma call_exhausted pid tx amt store r e0 e1 e2 :
  JsString.truthy (Verify.contractId env) = true ->
  Prisma.findUnique pid store = Some r ->
  Verify.invokeVerifyContract env 0%nat pid tx amt = Throw e0 ->
  Verify.invokeVerifyContract env 1%nat pid tx amt = Throw e1 ->
  Verify.invokeVerifyContract env 2%nat pid tx amt = Throw e2 ->
  Verify.call env pid tx amt store
  = ({| Verify.db :=
          Prisma.updateMany (Prisma.hasId pid)
            (Verify.failedData (Verify.errorMessageOf e2)) store;
        Verify.events :=
          [InvokeVerifyContract 0 pid tx amt;
           ConsoleError (Verify.errorMessageOf e0); Sleep 1000;
           InvokeVerifyContract 1 pid tx amt;
           ConsoleError (Verify.errorMessageOf e1); Sleep 2000;
           InvokeVerifyContract 2 pid tx amt;
           ConsoleError (Verify.errorMessageOf e2);
           PaymentUpdate pid (Verify.failedData (Verify.errorMessageOf e2));
           ManualIntervention pid (Verify.errorMessageOf e2)] |},
     Ok false).
Proof. intros Hc Hr H0 H1 H2. verify_run. reflexivity. Qed.



End VerifyFacts.

(* ------------------------------------------------------------------ *)
(** ** The monitor's loop over the active payments *)

Section MonitorLoop.

Variable env : Monitor.Env.

Lemma tickData_sweptKept q d r : tickData env q d -> sweptKept r (applyData d r).
Proof.
  intros (Hs & _). split; [reflexivity|]. simpl. now rewrite Hs.
Qed.

Lemma monitorIteration_rows q st :
  let st' := fst (Monitor.monitorIteration env q st) in
  snd (Monitor.monitorIteration env q st) = Ok tt
  /\ map id (Monitor.db st') = map id (Monitor.db st)
  /\ (forall pid, pid <> id q ->
        Prisma.findUnique pid (Monitor.db st') = Prisma.findUnique pid (Monitor.db st))
  /\ (forall r, Prisma.findUnique (id q) (Monitor.db st) = Some r ->
        Prisma.findUnique (id q) (Monitor.db st') = Some r
        \/ exists d, tickData env q d
                     /\ Prisma.findUnique (id q) (Monitor.db st') = Some (applyData d r))
  /\ rowwise sweptKept (Monitor.db st) (Monitor.db st')
  /\ (exists suffix, Monitor.events st' = (Monitor.events st ++ suffix)%list).
Proof.
  destruct (monitorIteration_shape env q st) as (Hok & Hev & Hdb).
  cbv zeta. split; [exact Hok|].
  destruct Hdb as [->|(d & -> & Hd)].
  - repeat split; auto. apply rowwise_refl, sweptKept_refl.
  - split; [apply updateMany_ids|].
    split; [intros pid Hne; apply findUnique_updateMany_other; congruence|].
    split; [intros r Hr; right; exists d; split;
            [exact Hd | now apply findUnique_updateMany_same]|].
    split; [|exact Hev].
    apply updateMany_rowwise; [apply sweptKept_refl|].
    intros r _. now apply tickData_sweptKept with q.
Qed.

(** Iterations for other payments leave a row alone. *)
Lemma monitor_loop_other pid payments : forall st,
  (forall q, In q payments -> id q <> pid) ->
  let st' := fst (forOf payments (Monitor.monitorIteration env) st) in
  Prisma.findUnique pid (Monitor.db st') = Prisma.findUnique pid (Monitor.db st)
  /\ exists suffix, Monitor.events st' = (Monitor.events st ++ suffix)%list.
Proof.
  induction payments as [|q rest IH]; intros st Hne; simpl.
  - split; [reflexivity | exists []; now rewrite app_nil_r].
  - unfold bind.
    destruct (monitorIteration_rows q st) as (Hok & _ & Hother & _ & _ & (sfx & Hev)).
    destruct (Monitor.monitorIteration env q st) as [s1 r1]; simpl in *; subst r1.
    destruct (IH s1) as (Hf & sfx' & Hev'); [intros; apply Hne; now right|].
    split.
    + rewrite Hf. apply Hother. intros E. apply (Hne q); auto.
    + exists (sfx ++ sfx')%list. rewrite Hev', Hev. now rewrite app_assoc.
Qed.

(** The loop, seen from one of its payments: what the iterations before
    it leave is a state in which its row is still the one selected, and
    the iterations after it do not touch its row. *)
Lemma monitor_loop_focus p payments : forall st,
  NoDup (map id payments) -> In p payments ->
  Prisma.findUnique (id p) (Monitor.db st) = Some p ->
  exists s0 pre post,
    Prisma.findUnique (id p) (Monitor.db s0) = Some p
    /\ Monitor.events s0 = (Monitor.events st ++ pre)%list
    /\ let s1 := fst (Monitor.monitorIteration env p s0) in
       let final := fst (forOf payments (Monitor.monitorIteration env) st) in
       Prisma.findUnique (id p) (Monitor.db final)
       = Prisma.findUnique (id p) (Monitor.db s1)
       /\ Monitor.events final = (Monitor.events s1 ++ post)%list.
Proof.
  induction payments as [|q rest IH]; intros st Hnd Hin Hrow; [destruct Hin|].
  simpl in Hnd. inversion Hnd as [|? ? Hnotin Hnd']; subst.
  simpl. unfold bind.
  destruct Hin as [->|Hin].
  - destruct (monitorIteration_rows p st) as (Hok & _).
    destruct (Monitor.monitorIteration env p st) as [s1 r1] eqn:Hit;
      simpl in *; subst r1.
    destruct (monitor_loop_other (id p) rest s1) as (Hf & post & Hev).
    { intros q Hq E. apply Hnotin. rewrite <- E. now apply in_map. }
    exists st, [], post. split; [exact Hrow|]. split; [now rewrite app_nil_r|].
    rewrite Hit. simpl. split; [exact Hf | exact Hev].
  - assert (Hne : id p <> id q).
    { intros E. apply Hnotin. rewrite <- E. now apply in_map. }
    destruct (monitorIteration_rows q st) as (Hok & _ & Hother & _ & _ & (sfx & Hev)).
    destruct (Monitor.monitorIteration env q st) as [s1 r1]; simpl in *; subst r1.
    destruct (IH s1 Hnd' Hin) as (s0 & pre & post & H0 & Hpre & Hfin).
    { rewrite Hother; auto. }
    exists s0, (sfx ++ pre)%list, post. split; [exact H0|].
    split; [rewrite Hpre, Hev; now rewrite app_assoc | exact Hfin].
Qed.

(** A relation every row update of the monitor satisfies holds between
    each row before the loop and the same row after it. *)
Lemma monitor_loop_rows (P : Payment -> Payment -> Prop) :
  (forall r, P r r) -> (forall a b c, P a b -> P b c -> P a c) ->
  (forall q d, tickData env q d -> P q (applyData d q)) ->
  forall payments st,
    NoDup (map id payments) ->
    (forall q, In q payments -> Prisma.findUnique (id q) (Monitor.db st) = Some q) ->
    forall pid r,
      Prisma.findUnique pid (Monitor.db st) = Some r ->
      exists r',
        Prisma.findUnique pid
          (Monitor.db (fst (forOf payments (Monitor.monitorIteration env) st))) = Some r'
        /\ P r r'.
Proof.
  intros Prefl Ptrans Pdata.
  induction payments as [|q rest IH]; intros st Hnd Hsnap pid r Hr; simpl.
  - eauto.
  - simpl in Hnd. inversion Hnd as [|? ? Hnotin Hnd']; subst.
    unfold bind.
    destruct (monitorIteration_rows q st) as (Hok & _ & Hother & Hself & _).
    destruct (Monitor.monitorIteration env q st) as [s1 r1]; simpl in *; subst r1.
    assert (Hsnap' : forall q', In q' rest ->
               Prisma.findUnique (id q') (Monitor.db s1) = Some q').
    { intros q' Hq'. rewrite Hother; [apply Hsnap; now right|].
      intros E. apply Hnotin. rewrite <- E. now apply in_map. }
    destruct (String.string_dec pid (id q)) as [->|Hne].
    + assert (r = q) as -> by (rewrite (Hsnap q (or_introl eq_refl)) in Hr; congruence).
      destruct (Hself q Hr) as [H1|(d & Hd & H1)].
      * apply (IH s1 Hnd' Hsnap' _ _ H1).
      * destruct (IH s1 Hnd' Hsnap' _ _ H1) as (r' & Hr' & HP).
        exists r'. split; [exact Hr'|]. eapply Ptrans; [apply Pdata; eassumption | exact HP].
    + apply (IH s1 Hnd' Hsnap'). rewrite Hother; auto.
Qed.

(** *** A tick as a loop *)

Lemma tick_unfold now store :
  Monitor.tick env now store
  = forOf (selected now store) (Monitor.monitorIteration env) (afterExpiry now store).
Proof. reflexivity. Qed.

Lemma NoDup_ids_filter (c : Payment -> bool) db :
  primaryKey db -> NoDup (map id (filter c db)).
Proof.
  unfold primaryKey. induction db as [|r db IH]; simpl; intros H; [constructor|].
  inversion H as [|? ? Hnotin H']; subst.
  destruct (c r); simpl; auto. constructor; auto.
  intros Hin. apply Hnotin. apply in_map_iff in Hin.
  destruct Hin as (x & Hx & Hin). apply filter_In in Hin.
  rewrite <- Hx. apply in_map. tauto.
Qed.

Lemma findUnique_updateMany_cond c d db r :
  primaryKey db -> In r db ->
  Prisma.findUnique (id r) (Prisma.updateMany c d db)
  = Some (if c r then applyData d r else r).
Proof.
  unfold primaryKey, Prisma.findUnique, Prisma.updateMany.
  induction db as [|x db IH]; simpl; [tauto|].
  intros Hnd Hin. inversion Hnd as [|? ? Hnotin Hnd']; subst.
  assert (Hx : Prisma.hasId (id r) (if c x then applyData d x else x)
               = Prisma.hasId (id r) x) by (destruct (c x); reflexivity).
  rewrite Hx.
  destruct Hin as [->|Hin].
  - unfold Prisma.hasId. now rewrite String.eqb_refl.
  - destruct (Prisma.hasId (id r) x) eqn:E; [|auto].
    apply hasId_true in E. exfalso; apply Hnotin. rewrite E. now apply in_map.
Qed.

Lemma selected_snapshot now store q :
  primaryKey store -> In q (selected now store) ->
  Prisma.findUnique (id q) (Monitor.expireStale now store) = Some q
  /\ Monitor.active now q = true.
Proof.
  intros Hk Hin. unfold selected, Prisma.findMany in Hin.
  apply filter_In in Hin. destruct Hin as [Hin Hact]. split; [|exact Hact].
  apply findUnique_primaryKey; [|exact Hin].
  now apply primaryKey_updateMany.
Qed.

Lemma active_not_stale now p : Monitor.active now p = true -> Monitor.stale now p = false.
Proof.
  unfold Monitor.active, Monitor.stale. intros H.
  apply andb_prop in H. destruct H as [H _]. apply andb_prop in H.
  destruct H as [_ H]. apply Z.ltb_lt in H.
  apply andb_false_iff. right. apply Z.leb_gt. exact H.
Qed.

Lemma active_selected now store p :
  primaryKey store -> In p store -> Monitor.active now p = true ->
  In p (selected now store).
Proof.
  intros Hk Hin Hact. unfold selected, Prisma.findMany.
  apply filter_In. split; [|exact Hact].
  pose proof (findUnique_updateMany_cond (Monitor.stale now) Monitor.expiredData
                store p Hk Hin) as H.
  rewrite (active_not_stale _ _ Hact) in H.
  now apply findUnique_In in H.
Qed.

Lemma cursorAdvanced_refl r : cursorAdvanced env r r.
Proof. split; [apply cursorLeb_refl | now left]. Qed.

Lemma cursorAdvanced_trans a b c :
  cursorAdvanced env a b -> cursorAdvanced env b c -> cursorAdvanced env a c.
Proof.
  intros [H1 H1'] [H2 H2']. split; [eapply cursorLeb_trans; eauto|].
  destruct H2' as [->|H2']; [exact H1' | now right].
Qed.

Lemma cursorAdvanced_tickData q d : tickData env q d -> cursorAdvanced env q (applyData d q).
Proof.
  intros (_ & _ & _ & _ & _ & _ & address & cursor & records & Hcall & Htok).
  unfold cursorAdvanced. simpl. rewrite Htok. simpl.
  destruct (scan_cursor env records
              {| Monitor.latestPagingToken := last_paging_token q;
                 Monitor.latestTxHash := None; Monitor.latestPayer := None |})
    as [Hle Hor].
  split; [exact Hle|].
  destruct Hor as [H|(rec & Hin & H)]; [now left|].
  right. exists address, cursor, records, rec. auto.
Qed.

(** What a tick does keep of the cursor: the stored token does not
    decrease in the order of JavaScript's string comparison, and it
    stays as it was or becomes the token of a record a payments page
    returned.  This says nothing of ledger positions, which that order
    does not follow. *)
Lemma last_paging_token_follows_the_string_order now store pid r :
  primaryKey store ->
  Prisma.findUnique pid store = Some r ->
  exists r',
    Prisma.findUnique pid (Monitor.db (fst (Monitor.tick env now store))) = Some r'
    /\ cursorLeb (last_paging_token r) (last_paging_token r') = true
    /\ (last_paging_token r' = last_paging_token r
        \/ exists address cursor records rec,
             Monitor.paymentsCall env address cursor = Ok records
             /\ In rec records
             /\ last_paging_token r' = Some (Horizon.Operation.paging_token rec)).
Proof.
  intros Hk Hr. rewrite tick_unfold.
  destruct (findUnique_In _ _ _ Hr) as [Hin <-].
  pose proof (findUnique_updateMany_cond (Monitor.stale now) Monitor.expiredData
                store r Hk Hin) as Hr0.
  fold (Monitor.expireStale now store) in Hr0.
  destruct (monitor_loop_rows (cursorAdvanced env) cursorAdvanced_refl cursorAdvanced_trans
              cursorAdvanced_tickData (selected now store) (afterExpiry now store))
    with (pid := id r) (r := if Monitor.stale now r
                             then applyData Monitor.expiredData r else r)
    as (r' & Hr' & Hle & Hor).
  - apply NoDup_ids_filter. now apply primaryKey_updateMany.
  - intros q Hq. now apply selected_snapshot.
  - exact Hr0.
  - exists r'. split; [exact Hr'|].
    destruct (Monitor.stale now r); simpl in *; auto.
Qed.

(** *** One iteration, for a payment whose ledger calls return *)

Lemma monitorIteration_settles p st addr account records ns :
  stellar_address p = Some addr -> JsString.truthy addr = true ->
  Monitor.loadAccount env addr = Ok account ->
  Monitor.paymentsCall env addr (Monitor.cursorOf p) = Ok records ->
  Monitor.newStatusOf (Monitor.totalReceivedOf env account) (amount p) = Some ns ->
  Prisma.findUnique (id p) (Monitor.db st) = Some p ->
  let st' := fst (Monitor.monitorIteration env p st) in
  exists r',
    Prisma.findUnique (id p) (Monitor.db st') = Some r'
    /\ status r' = ns
    /\ (forall h,
          ns = confirmed \/ ns = overpaid ->
          Monitor.latestTxHash (Monitor.scanRecords env p records) = Some h ->
          JsString.truthy h = true ->
          exists d tail,
            Monitor.events st'
            = (Monitor.events st
               ++ [LoadAccount addr; PaymentsCall addr (Monitor.cursorOf p);
                   PaymentUpdate (id p) d;
                   VerifyPaymentDispatched (id p) h
                     (Monitor.numberToString env (Monitor.totalReceivedOf env account));
                   EmitPaymentConfirmed r']
               ++ tail)%list
            /\ set_status d = Some ns
            /\ (tail = [] \/ exists text, tail = [ConsoleError text])).
Proof.
  intros Haddr Htruthy Hload Hcall Hns Hrow.
  monitor_unfold. rewrite Haddr, Htruthy. simpl.
  rewrite Hload. simpl. rewrite Hcall. simpl. rewrite Hns. simpl.
  destruct (negb (PaymentStatus_eqb ns (status p))
            || JsString.truthyOpt
                 (Monitor.latestTxHash (Monitor.scanRecords env p records))) eqn:Hcond;
    simpl.
  - rewrite (update_found _ _ _ _ Hrow). simpl.
    match goal with
    | |- context [Prisma.updateMany (Prisma.hasId (id p)) ?d (Monitor.db st)] =>
        set (data := d)
    end.
    pose proof (findUnique_updateMany_same (id p) data _ _ Hrow) as Hnew.
    destruct (Monitor.latestTxHash (Monitor.scanRecords env p records)) as [h0|] eqn:Hh;
      [destruct (JsString.truthy h0) eqn:Hth|];
      destruct ns; simpl; rewrite ?Hnew; simpl;
      try destruct (Monitor.eventBusEmit env (applyData data p)) as [[]|e]; simpl;
      try destruct (Monitor.notFound e); simpl;
      (exists (applyData data p); split; [first [exact Hnew | reflexivity]|];
       split; [reflexivity|]);
      intros h Hs Hh' Hth'; try (destruct Hs; discriminate); try congruence;
      injection Hh' as <-;
      exists data; rewrite <- ?app_assoc; simpl;
      first [ exists []; split; [now rewrite ?app_nil_r|]; split; [reflexivity|now left]
            | eexists [_]; split; [reflexivity|]; split; [reflexivity|right; eauto] ].
  - apply orb_false_iff in Hcond. destruct Hcond as [Hst Hfalsy].
    apply negb_false_iff, PaymentStatus_eqb_eq in Hst.
    destruct (JsString.truthyOpt (Monitor.latestPagingToken _) && _); simpl.
    + rewrite (update_found _ _ _ _ Hrow). simpl.
      erewrite findUnique_updateMany_same by exact Hrow.
      eexists; split; [reflexivity|]. split; [simpl; congruence|].
      intros h _ Hh Hth. rewrite Hh in Hfalsy. simpl in Hfalsy. congruence.
    + exists p. split; [exact Hrow|]. split; [congruence|].
      intros h _ Hh Hth. rewrite Hh in Hfalsy. simpl in Hfalsy. congruence.
Qed.

Lemma monitor_loop_frame payments : forall st,
  let st' := fst (forOf payments (Monitor.monitorIteration env) st) in
  rowwise sweptKept (Monitor.db st) (Monitor.db st')
  /\ exists suffix, Monitor.events st' = (Monitor.events st ++ suffix)%list.
Proof.
  induction payments as [|q rest IH]; intros st; simpl.
  - split; [apply rowwise_refl, sweptKept_refl | exists []; now rewrite app_nil_r].
  - unfold bind.
    destruct (monitorIteration_rows q st) as (Hok & _ & _ & _ & Hrow & (sfx & Hev)).
    destruct (Monitor.monitorIteration env q st) as [s1 r1]; simpl in *; subst r1.
    destruct (IH s1) as (Hrow' & sfx' & Hev').
    split.
    + eapply rowwise_trans; eauto using sweptKept_trans.
    + exists (sfx ++ sfx')%list. rewrite Hev', Hev. now rewrite app_assoc.
Qed.

Lemma tick_sweptKept now store :
  rowwise sweptKept store (Monitor.db (fst (Monitor.tick env now store))).
Proof.
  rewrite tick_unfold.
  destruct (monitor_loop_frame (selected now store) (afterExpiry now store)) as [H _].
  eapply rowwise_trans; [apply sweptKept_trans | | exact H].
  apply updateMany_rowwise; [apply sweptKept_refl|].
  intros r _. split; [reflexivity | intros Hsw; exact Hsw].
Qed.

(** The row of a payment whose ledger calls return carries, after the
    tick, the status its balance calls for. *)
Lemma tick_settles now store p addr account records ns :
  primaryKey store -> In p store -> Monitor.active now p = true ->
  stellar_address p = Some addr -> JsString.truthy addr = true ->
  Monitor.loadAccount env addr = Ok account ->
  Monitor.paymentsCall env addr (Monitor.cursorOf p) = Ok records ->
  Monitor.newStatusOf (Monitor.totalReceivedOf env account) (amount p) = Some ns ->
  let final := fst (Monitor.tick env now store) in
  exists r',
    Prisma.findUnique (id p) (Monitor.db final) = Some r'
    /\ status r' = ns
    /\ (forall h,
          ns = confirmed \/ ns = overpaid ->
          Monitor.latestTxHash (Monitor.scanRecords env p records) = Some h ->
          JsString.truthy h = true ->
          exists d pre post,
            Monitor.events final
            = (pre
               ++ [PaymentUpdate (id p) d;
                   VerifyPaymentDispatched (id p) h
                     (Monitor.numberToString env (Monitor.totalReceivedOf env account));
                   EmitPaymentConfirmed r']
               ++ post)%list
            /\ set_status d = Some ns).
Proof.
  intros Hk Hin Hact Haddr Htruthy Hload Hcall Hns. rewrite tick_unfold.
  pose proof (active_selected now store p Hk Hin Hact) as Hsel.
  destruct (selected_snapshot now store p Hk Hsel) as [Hsnap _].
  destruct (monitor_loop_focus p (selected now store) (afterExpiry now store))
    as (s0 & pre & post & Hrow & Hpre & Hfin & Hev); auto.
  { apply NoDup_ids_filter. now apply primaryKey_updateMany. }
  destruct (monitorIteration_settles p s0 addr account records ns
              Haddr Htruthy Hload Hcall Hns Hrow) as (r' & Hr' & Hst & Hevents).
  cbv zeta. exists r'. split; [rewrite Hfin; exact Hr'|]. split; [exact Hst|].
  intros h Hs Hh Hth.
  destruct (Hevents h Hs Hh Hth) as (d & tail & Hev1 & Hd & _).
  exists d, (Monitor.events s0 ++ [LoadAccount addr; PaymentsCall addr (Monitor.cursorOf p)])%list,
    (tail ++ post)%list.
  split; [|exact Hd].
  rewrite Hev, Hev1. rewrite <- !app_assoc. reflexivity.
Qed.

Lemma newStatusOf_equal received expected :
  JsNumber.eqb received expected = true ->
  Monitor.newStatusOf received expected = Some confirmed.
Proof.
  intros H. unfold Monitor.newStatusOf.
  now rewrite (JsNumberFacts.eqb_geb _ _ H), (JsNumberFacts.eqb_not_gtb _ _ H).
Qed.

Lemma newStatusOf_more received expected :
  JsNumber.gtb received expected = true ->
  Monitor.newStatusOf received expected = Some overpaid.
Proof.
  intros H. unfold Monitor.newStatusOf.
  now rewrite (JsNumberFacts.gtb_geb _ _ H), H.
Qed.

Lemma newStatusOf_less received expected :
  JsNumber.gtb received JsNumber.zero = true ->
  JsNumber.ltb received expected = true ->
  Monitor.newStatusOf received expected = Some partially_paid.
Proof.
  intros H0 H. unfold Monitor.newStatusOf.
  now rewrite (JsNumberFacts.ltb_not_geb _ _ H), H0.
Qed.

(** C2. After a tick, a payment it processed (active, with a custody
    address, and whose two ledger calls returned) has status [confirmed]
    when the balance equals the expected amount, [overpaid] when it is
    greater, and [partially_paid] when it is positive and smaller; and a
    [pending] or [partially_paid] payment whose expiration is at or
    before the tick time is [expired] in the table the loop starts from,
    and still so at the end, the bulk update being the tick's first
    action. *)
Theorem tick_classifies_by_balance_and_expires_stale
    now store p addr account records :
  primaryKey store -> In p store -> Monitor.active now p = true ->
  stellar_address p = Some addr -> JsString.truthy addr = true ->
  Monitor.loadAccount env addr = Ok account ->
  Monitor.paymentsCall env addr (Monitor.cursorOf p) = Ok records ->
  let received := Monitor.totalReceivedOf env account in
  let expected := amount p in
  let final := fst (Monitor.tick env now store) in
  (JsNumber.eqb received expected = true ->
     exists r', Prisma.findUnique (id p) (Monitor.db final) = Some r'
                /\ status r' = confirmed)
  /\ (JsNumber.gtb received expected = true ->
        exists r', Prisma.findUnique (id p) (Monitor.db final) = Some r'
                   /\ status r' = overpaid)
  /\ (JsNumber.gtb received JsNumber.zero = true ->
      JsNumber.ltb received expected = true ->
        exists r', Prisma.findUnique (id p) (Monitor.db final) = Some r'
                   /\ status r' = partially_paid)
  /\ (forall q,
        In q store -> Monitor.pendingOrPartial q = true -> expiration q <= now ->
        exists q',
          Prisma.findUnique (id q) (Monitor.expireStale now store) = Some q'
          /\ status q' = expired
          /\ Prisma.findUnique (id q) (Monitor.db final) = Some q')
  /\ (exists rest, Monitor.events final = ExpireStale now :: rest).
Proof.
  intros Hk Hin Hact Haddr Htruthy Hload Hcall received expected final.
  assert (Hany : forall ns, Monitor.newStatusOf received expected = Some ns ->
                   exists r', Prisma.findUnique (id p) (Monitor.db final) = Some r'
                              /\ status r' = ns).
  { intros ns Hns.
    destruct (tick_settles now store p addr account records ns
                Hk Hin Hact Haddr Htruthy Hload Hcall Hns) as (r' & H1 & H2 & _).
    eauto. }
  split; [intros H; apply Hany; now apply newStatusOf_equal|].
  split; [intros H; apply Hany; now apply newStatusOf_more|].
  split; [intros H0 H; apply Hany; now apply newStatusOf_less|].
  split.
  - intros q Hq Hpp Hexp.
    pose proof (findUnique_updateMany_cond (Monitor.stale now) Monitor.expiredData
                  store q Hk Hq) as Hq1.
    assert (Hstale : Monitor.stale now q = true).
    { unfold Monitor.stale. rewrite Hpp. simpl. now apply Z.leb_le. }
    rewrite Hstale in Hq1. fold (Monitor.expireStale now store) in Hq1.
    exists (applyData Monitor.expiredData q).
    split; [exact Hq1|]. split; [reflexivity|].
    subst final. rewrite tick_unfold.
    destruct (monitor_loop_other (id q) (selected now store) (afterExpiry now store))
      as [Hf _]; [|rewrite Hf; exact Hq1].
    intros q' Hq' E.
    destruct (selected_snapshot now store q' Hk Hq') as [Hsnap Hact'].
    rewrite E in Hsnap. simpl in Hsnap. rewrite Hq1 in Hsnap.
    injection Hsnap as <-. discriminate Hact'.
  - subst final. rewrite tick_unfold.
    destruct (monitor_loop_frame (selected now store) (afterExpiry now store))
      as [_ (sfx & Hev)].
    exists sfx. exact Hev.
Qed.

(** C9 (amended). When a processed payment's balance calls for
    [confirmed] or [overpaid] and the returned page holds a USDC payment
    record with a non-empty transaction hash, the tick writes the new
    status, then starts the verification for that hash, then emits the
    payment-confirmed event with the updated row; the row has the new
    status at the end of the tick whether or not the emission throws, and
    keeps it after the verification call, whatever the contract answers. *)
Theorem settled_status_is_written_before_dispatch_and_survives_it
    (venv : Verify.Env) now store p addr account records ns h :
  primaryKey store -> In p store -> Monitor.active now p = true ->
  stellar_address p = Some addr -> JsString.truthy addr = true ->
  Monitor.loadAccount env addr = Ok account ->
  Monitor.paymentsCall env addr (Monitor.cursorOf p) = Ok records ->
  Monitor.newStatusOf (Monitor.totalReceivedOf env account) (amount p) = Some ns ->
  ns = confirmed \/ ns = overpaid ->
  Monitor.latestTxHash (Monitor.scanRecords env p records) = Some h ->
  JsString.truthy h = true ->
  let final := fst (Monitor.tick env now store) in
  let amountStr := Monitor.numberToString env (Monitor.totalReceivedOf env account) in
  exists r' d pre post,
    Prisma.findUnique (id p) (Monitor.db final) = Some r'
    /\ status r' = ns
    /\ Monitor.events final
       = (pre
          ++ [PaymentUpdate (id p) d;
              VerifyPaymentDispatched (id p) h amountStr;
              EmitPaymentConfirmed r']
          ++ post)%list
    /\ set_status d = Some ns
    /\ exists r'',
         Prisma.findUnique (id p)
           (Verify.db (fst (Verify.call venv (id p) h amountStr (Monitor.db final))))
         = Some r''
         /\ status r'' = ns.
Proof.
  intros Hk Hin Hact Haddr Htruthy Hload Hcall Hns Hs Hh Hth final amountStr.
  destruct (tick_settles now store p addr account records ns
              Hk Hin Hact Haddr Htruthy Hload Hcall Hns) as (r' & Hr' & Hst & Hev).
  destruct (Hev h Hs Hh Hth) as (d & pre & post & Hevents & Hd).
  exists r', d, pre, post.
  split; [exact Hr'|]. split; [exact Hst|]. split; [exact Hevents|].
  split; [exact Hd|].
  destruct (rowwise_findUnique statusAndSweepKept _ _ (id p) r'
              (fun a b H => proj1 H)
              (call_frame venv (id p) h amountStr (Monitor.db final)) Hr')
    as (r'' & Hr'' & _ & Hstatus & _).
  exists r''. split; [exact Hr''|]. congruence.
Qed.

End MonitorLoop.

(* ------------------------------------------------------------------ *)
(** ** [swept] across the three services *)

Section SweptIsFinal.

Variable senv : Sweep.Env.
Variable menv : Monitor.Env.
Variable venv : Verify.Env.

Lemma iteration_marks p kp h st r :
  Sweep.invalidAmount (amount p) = false ->
  Sweep.regenerateKeypair senv (merchantId p) (id p) = Ok kp ->
  Sweep.addressMismatch p kp = false ->
  Sweep.submitUsdcSweepTx senv (secretKey kp) (Sweep.vaultPublicKey senv)
    (Sweep.toFixed7 senv (amount p)) = Ok h ->
  Prisma.findUnique (id p) (Sweep.db st) = Some r ->
  exists r',
    Prisma.findUnique (id p) (Sweep.db (fst (Sweep.sweepIteration senv false p st)))
    = Some r'
    /\ markedSwept senv p h r'.
Proof.
  intros Ha Hk Hm Hs Hr.
  unfold Sweep.sweepIteration, Sweep.sweepOne, tryCatch, bind, await,
    Sweep.pushSkipped, Sweep.pushHash, Sweep.count, Sweep.log,
    Sweep.paymentUpdate, modify, ret.
  rewrite Ha. simpl. rewrite Hk. simpl. rewrite Hm. simpl. rewrite Hs. simpl.
  rewrite (update_found _ _ _ _ Hr). simpl.
  erewrite findUnique_updateMany_same by exact Hr.
  eexists; split; [reflexivity|]. repeat split.
Qed.

Lemma loop_marks p kp h payments :
  Sweep.invalidAmount (amount p) = false ->
  Sweep.regenerateKeypair senv (merchantId p) (id p) = Ok kp ->
  Sweep.addressMismatch p kp = false ->
  Sweep.submitUsdcSweepTx senv (secretKey kp) (Sweep.vaultPublicKey senv)
    (Sweep.toFixed7 senv (amount p)) = Ok h ->
  forall st,
  (forall q, In q payments -> id q = id p -> q = p) ->
  (exists r, Prisma.findUnique (id p) (Sweep.db st) = Some r
             /\ (In p payments \/ markedSwept senv p h r)) ->
  exists r',
    Prisma.findUnique (id p)
      (Sweep.db (fst (forOf payments (Sweep.sweepIteration senv false) st))) = Some r'
    /\ markedSwept senv p h r'.
Proof.
  intros Ha Hk Hm Hs.
  induction payments as [|q rest IH]; intros st Hinj (r & Hr & Hor); simpl.
  - destruct Hor as [[]|Hmk]. eauto.
  - unfold bind.
    destruct (sweepIteration_frame senv false q st) as (Hok & _ & _ & _ & _ & Hother & _).
    destruct (String.string_dec (id q) (id p)) as [E|Hne].
    + assert (q = p) as -> by (apply Hinj; auto; now left).
      destruct (iteration_marks p kp h st r Ha Hk Hm Hs Hr) as (r1 & Hr1 & Hmk1).
      destruct (Sweep.sweepIteration senv false p st) as [s1 x1]; simpl in *; subst x1.
      apply IH; [intros; apply Hinj; auto|]. eauto.
    + destruct (Sweep.sweepIteration senv false q st) as [s1 x1]; simpl in *; subst x1.
      apply IH; [intros; apply Hinj; auto|].
      exists r. split; [rewrite Hother; auto|].
      destruct Hor as [[->|Hin]|Hmk]; [congruence | now left | now right].
Qed.

(** C1. Under the primary key: a run selects only rows with
    [swept = false]; it makes no ledger submission for a row that is
    already swept; a payment that goes through a run has, at the end,
    [swept = true] with [swept_at] and [sweep_tx_hash] set, and is no
    longer eligible; and neither a sweep run, nor a monitor tick, nor a
    verification call turns a row's [swept] from true to false. *)
Theorem swept_payment_is_never_swept_again options now pid tx amt store :
  primaryKey store ->
  (forall payments p,
     Sweep.getUnsweptPaidPayments (Sweep.resolveLimit senv options) store = Ok payments ->
     In p payments -> swept p = false)
  /\ (forall r, In r store -> swept r = true ->
      forall s d a,
        ~ In (SubmitTransaction (id r) s d a)
             (Sweep.events (fst (Sweep.run senv options store))))
  /\ (forall payments p kp h,
        Sweep.dryRunOf options = false ->
        Sweep.getUnsweptPaidPayments (Sweep.resolveLimit senv options) store = Ok payments ->
        In p payments ->
        Sweep.invalidAmount (amount p) = false ->
        Sweep.regenerateKeypair senv (merchantId p) (id p) = Ok kp ->
        Sweep.addressMismatch p kp = false ->
        Sweep.submitUsdcSweepTx senv (secretKey kp) (Sweep.vaultPublicKey senv)
          (Sweep.toFixed7 senv (amount p)) = Ok h ->
        exists r',
          Prisma.findUnique (id p) (Sweep.db (fst (Sweep.run senv options store))) = Some r'
          /\ swept r' = true
          /\ swept_at r' = Some (Sweep.sweptAtClock senv (id p))
          /\ sweep_tx_hash r' = Some h
          /\ Sweep.unsweptPaid r' = false)
  /\ rowwise sweptKept store (Sweep.db (fst (Sweep.run senv options store)))
  /\ rowwise sweptKept store (Monitor.db (fst (Monitor.tick menv now store)))
  /\ rowwise sweptKept store (Verify.db (fst (Verify.call venv pid tx amt store))).
Proof.
  intros Hkey.
  assert (Hunswept : forall payments p,
            Sweep.getUnsweptPaidPayments (Sweep.resolveLimit senv options) store
            = Ok payments -> In p payments -> In p store /\ swept p = false).
  { intros payments p Hsel Hin.
    destruct (selection_sound _ _ _ _ Hsel Hin) as [Hs Hu]. split; [exact Hs|].
    apply unsweptPaid_iff in Hu. tauto. }
  split; [intros payments p Hsel Hin; now apply (Hunswept payments p)|].
  split.
  { intros r Hr Hsw s d a Hev.
    destruct (Sweep.getUnsweptPaidPayments (Sweep.resolveLimit senv options) store)
      as [payments|e] eqn:Hsel.
    - destruct (run_submissions senv options store payments _ _ _ _ Hsel Hev)
        as (q & kq & Hq & Hid & _).
      destruct (Hunswept payments q eq_refl Hq) as [Hqs Hqf].
      assert (q = r) by (apply (primaryKey_inj store); auto). congruence.
    - rewrite (run_rejected senv options store e Hsel) in Hev. simpl in Hev.
      destruct Hev as [H|[]]; discriminate. }
  split.
  { intros payments p kp h Hdry Hsel Hin Ha Hk Hm Hs.
    destruct (run_selected senv options store payments Hsel) as (audit & _ & Hdb & _).
    rewrite Hdb, Hdry.
    destruct (Hunswept payments p Hsel Hin) as [Hps _].
    destruct (loop_marks p kp h payments Ha Hk Hm Hs (loopStart options store))
      as (r' & Hr' & Hsw & Hat & Hhash).
    - intros q Hq E. apply (primaryKey_inj store); auto.
      now apply (Hunswept payments q).
    - exists p. split; [now apply findUnique_primaryKey | now left].
    - exists r'. repeat split; auto.
      unfold Sweep.unsweptPaid. now rewrite Hsw. }
  split.
  { destruct (Sweep.getUnsweptPaidPayments (Sweep.resolveLimit senv options) store)
      as [payments|e] eqn:Hsel.
    - destruct (run_selected senv options store payments Hsel) as (audit & _ & Hdb & _).
      rewrite Hdb.
      apply (forOf_sweep_frame senv (Sweep.dryRunOf options) payments
               (loopStart options store)).
    - rewrite (run_rejected senv options store e Hsel). simpl.
      apply rowwise_refl, sweptKept_refl. }
  split; [apply tick_sweptKept|].
  eapply rowwise_impl; [apply statusAndSweepKept_sweptKept | apply call_frame].
Qed.

End SweptIsFinal.

(* ------------------------------------------------------------------ *)
(** ** The properties on the sample tables *)

Lemma distinct_primaryKey db : Scenario.distinct (map id db) = true -> primaryKey db.
Proof.
  unfold primaryKey. induction (map id db) as [|x l IH]; simpl; intros H.
  - constructor.
  - apply andb_prop in H. destruct H as [Hx Hl]. constructor; [|auto].
    intros Hin. apply negb_true_iff in Hx.
    assert (existsb (String.eqb x) l = true) as Hex.
    { apply existsb_exists. exists x. split; [exact Hin | apply String.eqb_refl]. }
    congruence.
Qed.

Section OnSamples.

Import Scenario.

(** C1 on the sample table: the swept payment [p4] gets no submission,
    and stays swept. *)
Lemma sample_swept_row_gets_no_submission :
  primaryKey sweepStore
  /\ (forall s d a,
        ~ In (SubmitTransaction "p4" s d a)
             (Sweep.events (fst (Sweep.run sweepEnv realRun sweepStore))))
  /\ rowwise sweptKept sweepStore (Sweep.db (fst (Sweep.run sweepEnv realRun sweepStore))).
Proof.
  assert (Hkey : primaryKey sweepStore) by (apply distinct_primaryKey; reflexivity).
  split; [exact Hkey|].
  destruct (swept_payment_is_never_swept_again sweepEnv (monitorEnv "100" paidPage false)
              verifyEnv realRun 1000 "p4" "tx_1" "100" sweepStore Hkey)
    as (_ & Hno & _ & Hkept & _).
  split; [|exact Hkept].
  apply (Hno p4); [simpl; tauto | reflexivity].
Defined.

(** C2 on the sample table: a balance of 100 against 100 expected. *)
Lemma sample_exact_balance_is_confirmed :
  JsNumber.eqb
    (Monitor.totalReceivedOf (monitorEnv "100" paidPage false) (accountWith "100"))
    (amount m1) = true
  /\ exists r',
       Prisma.findUnique "m1"
         (Monitor.db (fst (Monitor.tick (monitorEnv "100" paidPage false) 1000 monitorStore)))
       = Some r'
       /\ status r' = confirmed.
Proof.
  split; [vm_compute; reflexivity|].
  destruct (tick_classifies_by_balance_and_expires_stale
              (monitorEnv "100" paidPage false) 1000 monitorStore m1 "Gm1"
              (accountWith "100") paidPage) as (Heq & _).
  - apply distinct_primaryKey; reflexivity.
  - simpl; tauto.
  - reflexivity.
  - reflexivity.
  - reflexivity.
  - reflexivity.
  - reflexivity.
  - apply Heq. vm_compute; reflexivity.
Defined.

(** C4 on the sample table. *)
Lemma sample_dry_run_keeps_table :
  Sweep.dryRunOf dryRunOnly = true
  /\ Sweep.db (fst (Sweep.run sweepEnv dryRunOnly sweepStore)) = sweepStore.
Proof.
  split; [reflexivity|].
  apply (dry_run_mutates_nothing_and_reports_projection sweepEnv dryRunOnly sweepStore).
  reflexivity.
Defined.

(** C5 on the sample table: [p2] has amount 0, [p1] and [p3] go through. *)
Lemma sample_run_with_one_invalid_amount :
  exists r,
    snd (Sweep.run sweepEnv realRun sweepStore) = Ok r
    /\ SweepResult.addressesSwept r = 2%nat
    /\ SweepResult.skipped r = [("p2", "Invalid amount")]
    /\ (Sweep.dryRunOf realRun = false ->
          List.length (SweepResult.txHashes r) = 2%nat).
Proof.
  apply (one_failure_does_not_abort_the_run sweepEnv realRun sweepStore [p1] p2 [p3]).
  - reflexivity.
  - intros p [<-|[<-|[]]].
    + apply SweepableSubmit with (keyOf "p1") "tx_Sp1"; reflexivity.
    + apply SweepableSubmit with (keyOf "p3") "tx_Sp3"; reflexivity.
  - apply FailsAmount. reflexivity.
Defined.

(** The address check on a table where [p5] carries an address that is
    not the derived one. *)
Lemma sample_stale_address_is_skipped :
  exists r,
    snd (Sweep.run sweepEnv realRun [p1; p5]) = Ok r
    /\ In ("p5", "Derived address mismatch") (SweepResult.skipped r)
    /\ (forall s d a,
          ~ In (SubmitTransaction "p5" s d a)
               (Sweep.events (fst (Sweep.run sweepEnv realRun [p1; p5])))).
Proof.
  apply (mismatch_is_skipped_and_never_signed sweepEnv realRun [p1; p5] [p1; p5] p5
           (keyOf "p5") "Gstale").
  - apply distinct_primaryKey; reflexivity.
  - reflexivity.
  - simpl; tauto.
  - reflexivity.
  - reflexivity.
  - discriminate.
  - discriminate.
Defined.

(** C7 on the sample table, with the cap at 200. *)
Lemma sample_selection_under_cap :
  (In p3 [p1; p2; p3] ->
     In p3 sweepStore
     /\ (status p3 = confirmed \/ status p3 = overpaid \/ status p3 = paid)
     /\ swept p3 = false /\ stellar_address p3 <> None)
  /\ (forall k,
        JsNumber.toInteger (JsNumber.ofZ 200) = Some k ->
        Z.of_nat (List.length (Prisma.findMany Sweep.unsweptPaid sweepStore)) <= k ->
        In p3 sweepStore ->
        (status p3 = confirmed \/ status p3 = overpaid \/ status p3 = paid) ->
        swept p3 = false -> stellar_address p3 <> None ->
        In p3 [p1; p2; p3]).
Proof.
  apply (selected_iff_settled_unswept_with_address_within_cap
           (JsNumber.ofZ 200) sweepStore [p1; p2; p3] p3).
  reflexivity.
Defined.


(** C9 on the sample table: the event bus throws and the contract times
    out three times, and [m1] is confirmed all the same. *)
Lemma sample_confirmed_despite_failures :
  exists r'',
    Prisma.findUnique "m1"
      (Verify.db
         (fst (Verify.call deadVerifyEnv "m1" "tx_1" "100.0000000"
                 (Monitor.db
                    (fst (Monitor.tick (monitorEnv "100" paidPage true) 1000
                            monitorStore))))))
    = Some r''
    /\ status r'' = confirmed.
Proof.
  destruct (settled_status_is_written_before_dispatch_and_survives_it
              (monitorEnv "100" paidPage true) deadVerifyEnv 1000 monitorStore m1 "Gm1"
              (accountWith "100") paidPage confirmed "tx_1")
    as (r' & d & pre & post & _ & _ & _ & _ & r'' & H1 & H2).
  - apply distinct_primaryKey; reflexivity.
  - simpl; tauto.
  - reflexivity.
  - reflexivity.
  - reflexivity.
  - reflexivity.
  - reflexivity.
  - vm_compute; reflexivity.
  - now left.
  - reflexivity.
  - reflexivity.
  - exists r''. split; [exact H1 | exact H2].
Defined.


(** *** Two runs of the services *)

(** A payment expecting 100 stays [pending] at balance 0 and becomes
    [partially_paid] at 40, [confirmed] at 100 and [overpaid] at 150. *)
Example balance_scenario :
  statusAtBalance "0" = Some pending
  /\ statusAtBalance "40" = Some partially_paid
  /\ statusAtBalance "100" = Some confirmed
  /\ statusAtBalance "150" = Some overpaid.
Proof. repeat split; vm_compute; reflexivity. Qed.

(** With [limit: 1] and two eligible payments, one is swept and the other
    is left with [swept = false]. *)
Example limit_one_scenario :
  option_map swept
    (Prisma.findUnique "p1" (Sweep.db (fst (Sweep.run sweepEnv limitOne [p1; p3]))))
  = Some true
  /\ option_map swept
       (Prisma.findUnique "p3" (Sweep.db (fst (Sweep.run sweepEnv limitOne [p1; p3]))))
     = Some false
  /\ Sweep.txHashes (fst (Sweep.run sweepEnv limitOne [p1; p3])) = ["tx_Sp1"].
Proof. repeat split; vm_compute; reflexivity. Qed.

(** *** Where the code departs from what it sets out to do *)


(** C6. The address check is not made for a stored address that is the
    empty string.  [p6] stores one; it is selected, the derived public
    key differs from what is stored, and the run signs with the derived
    secret key, submits the transfer to the vault, marks the row swept
    and skips nothing. *)
Theorem empty_stored_address_escapes_the_check :
  Sweep.getUnsweptPaidPayments (Sweep.resolveLimit sweepEnv realRun) [p6] = Ok [p6]
  /\ stellar_address p6 = Some ""
  /\ Sweep.regenerateKeypair sweepEnv (merchantId p6) (id p6) = Ok (keyOf "p6")
  /\ stellar_address p6 <> Some (publicKey (keyOf "p6"))
  /\ In (SubmitTransaction "p6" (secretKey (keyOf "p6")) "GVAULT" "30.0000000")
        (Sweep.events (fst (Sweep.run sweepEnv realRun [p6])))
  /\ option_map swept
       (Prisma.findUnique "p6" (Sweep.db (fst (Sweep.run sweepEnv realRun [p6]))))
     = Some true
  /\ exists r, snd (Sweep.run sweepEnv realRun [p6]) = Ok r
               /\ SweepResult.skipped r = []
               /\ SweepResult.txHashes r = ["tx_Sp6"].
Proof.
  split; [reflexivity|]. split; [reflexivity|]. split; [reflexivity|].
  split; [discriminate|].
  split; [vm_compute; tauto|].
  split; [vm_compute; reflexivity|].
  eexists. split; [vm_compute; reflexivity|]. split; reflexivity.
Qed.

(** *** Where three claims, as first stated, fail *)

(** C7 as stated fails: [p3] has status [paid] and is selected; [p7] is
    [confirmed] and unswept but has no address, and is not selected;
    and with the cap at 1 the eligible [p3] is left out. *)
Lemma selection_is_not_confirmed_or_overpaid_and_unswept :
  (Sweep.getUnsweptPaidPayments (JsNumber.ofZ 200) sweepStore = Ok [p1; p2; p3]
   /\ ~ (status p3 = confirmed \/ status p3 = overpaid))
  /\ (Sweep.getUnsweptPaidPayments (JsNumber.ofZ 200) [p7] = Ok []
      /\ status p7 = confirmed /\ swept p7 = false)
  /\ (Sweep.getUnsweptPaidPayments (JsNumber.ofZ 1) [p1; p3] = Ok [p1]
      /\ status p3 = paid /\ swept p3 = false).
Proof.
  repeat split; try reflexivity. intros [H|H]; discriminate.
Defined.


(** C9 as stated fails: the balance of [m1] reaches the expected amount
    while the payments page is empty; the tick writes [confirmed], and
    neither starts the verification nor emits the event. *)
Lemma confirmed_without_payment_record_is_not_dispatched :
  status m1 = pending
  /\ (exists r',
        Prisma.findUnique "m1"
          (Monitor.db (fst (Monitor.tick (monitorEnv "100" [] false) 1000 monitorStore)))
        = Some r'
        /\ status r' = confirmed)
  /\ (forall e,
        In e (Monitor.events
                (fst (Monitor.tick (monitorEnv "100" [] false) 1000 monitorStore))) ->
        (forall a b c, e <> VerifyPaymentDispatched a b c)
        /\ (forall r, e <> EmitPaymentConfirmed r)).
Proof.
  split; [reflexivity|]. split.
  - eexists. split; [vm_compute; reflexivity | reflexivity].
  - intros e He. vm_compute in He.
    destruct He as [<-|[<-|[<-|[<-|[]]]]]; split; intros; discriminate.
Defined.

End OnSamples.

(* ================================================================== *)
(** * Further properties of the services and of the code around them *)

(* ------------------------------------------------------------------ *)
(** ** The sweep: accounting, columns, transfers, audit entry *)

Section PrismaOrder.

Lemma insertBy_Permutation le x l : Permutation (Prisma.insertBy le x l) (x :: l).
Proof.
  induction l as [|y l IH]; simpl; [apply Permutation_refl|].
  destruct (le x y); [apply Permutation_refl|].
  eapply perm_trans; [apply perm_skip, IH | apply perm_swap].
Qed.

Lemma orderBy_Permutation le l : Permutation (Prisma.orderBy le l) l.
Proof.
  unfold Prisma.orderBy. induction l as [|x l IH]; simpl; [constructor|].
  eapply perm_trans; [apply insertBy_Permutation | now apply perm_skip].
Qed.

Lemma take_NoDup n rows sel :
  Prisma.take n rows = Ok sel -> NoDup (map id rows) -> NoDup (map id sel).
Proof.
  unfold Prisma.take. destruct (JsNumber.toInteger n) as [k|]; [|discriminate].
  destruct (0 <=? k); intros [= <-] H.
  - rewrite <- (firstn_skipn (Z.to_nat k) rows), map_app in H.
    now apply NoDup_app_remove_r in H.
  - rewrite <- (firstn_skipn (List.length rows - Z.to_nat (- k)) rows), map_app in H.
    now apply NoDup_app_remove_l in H.
Qed.

Lemma rowwise_In_impl (R Q : Payment -> Payment -> Prop) db db' :
  (forall r r', In r db -> R r r' -> Q r r') -> rowwise R db db' -> rowwise Q db db'.
Proof.
  intros H F. induction F as [|a b l l' Hab F IH]; constructor.
  - apply H; [now left | exact Hab].
  - apply IH. intros r r' Hin. apply H. now right.
Qed.

End PrismaOrder.

Section SweepLedger.

Variable env : Sweep.Env.

Lemma selection_NoDup limit store payments :
  primaryKey store ->
  Sweep.getUnsweptPaidPayments limit store = Ok payments ->
  NoDup (map id payments).
Proof.
  intros Hk Hsel. unfold Sweep.getUnsweptPaidPayments in Hsel.
  eapply take_NoDup; [exact Hsel|].
  eapply Permutation_NoDup.
  - apply Permutation_map, Permutation_sym, orderBy_Permutation.
  - now apply NoDup_ids_filter.
Qed.

(** *** The tally of one iteration *)

Lemma sweepIteration_tally dry p st :
  let st' := fst (Sweep.sweepIteration env dry p st) in
  (Sweep.addressesSwept st' + List.length (Sweep.skipped st')
   = Datatypes.S (Sweep.addressesSwept st + List.length (Sweep.skipped st)))%nat
  /\ (List.length (Sweep.txHashes st') + Sweep.addressesSwept st
      = List.length (Sweep.txHashes st)
        + (if dry then Sweep.addressesSwept st else Sweep.addressesSwept st'))%nat
  /\ (forall x, In x (Sweep.skipped st') -> In x (Sweep.skipped st) \/ fst x = id p).
Proof.
  sweep_cases env dry p; repeat split; rewrite ?length_app; simpl; try lia;
    try (destruct dry; lia);
    intros x Hx; try (now left);
    apply in_app_or in Hx; destruct Hx as [Hx|[<-|[]]]; auto.
Qed.

Lemma sweep_loop_tally dry payments : forall st,
  let st' := fst (forOf payments (Sweep.sweepIteration env dry) st) in
  (Sweep.addressesSwept st' + List.length (Sweep.skipped st')
   = Sweep.addressesSwept st + List.length (Sweep.skipped st) + List.length payments)%nat
  /\ (List.length (Sweep.txHashes st') + Sweep.addressesSwept st
      = List.length (Sweep.txHashes st)
        + (if dry then Sweep.addressesSwept st else Sweep.addressesSwept st'))%nat
  /\ (forall x, In x (Sweep.skipped st') ->
        In x (Sweep.skipped st) \/ In (fst x) (map id payments)).
Proof.
  induction payments as [|p rest IH]; intros st; simpl.
  - repeat split; try lia; auto. destruct dry; lia.
  - unfold bind.
    destruct (sweepIteration_tally dry p st) as (Ht & Hh & Hs).
    destruct (sweepIteration_frame env dry p st) as (Hok & _).
    destruct (Sweep.sweepIteration env dry p st) as [s1 r1]; simpl in *; subst r1.
    destruct (IH s1) as (Ht' & Hh' & Hs').
    split; [lia|]. split; [destruct dry; lia|].
    intros x Hx. destruct (Hs' x Hx) as [H|H]; [|now auto].
    destruct (Hs x H); auto.
Qed.

(** X1. Every payment a run selects is accounted for exactly once: the
    count of swept addresses plus the length of [skipped] is the number
    of selected payments; outside a dry run there is one transaction
    hash per swept address, in a dry run there is none; and every
    [skipped] entry names a selected payment. *)
Theorem every_selected_payment_is_counted_or_skipped options store payments :
  Sweep.getUnsweptPaidPayments (Sweep.resolveLimit env options) store = Ok payments ->
  exists r,
    snd (Sweep.run env options store) = Ok r
    /\ (SweepResult.addressesSwept r + List.length (SweepResult.skipped r)
        = List.length payments)%nat
    /\ List.length (SweepResult.txHashes r)
       = (if Sweep.dryRunOf options then 0%nat else SweepResult.addressesSwept r)
    /\ (forall x, In x (SweepResult.skipped r) -> exists p, In p payments /\ fst x = id p).
Proof.
  intros Hsel.
  destruct (run_selected env options store payments Hsel) as (audit & _ & _ & _ & Hres).
  eexists; split; [exact Hres|]. simpl.
  destruct (sweep_loop_tally (Sweep.dryRunOf options) payments (loopStart options store))
    as (Ht & Hh & Hs).
  simpl in Ht, Hh, Hs.
  split; [lia|]. split; [destruct (Sweep.dryRunOf options); lia|].
  intros x Hx. destruct (Hs x Hx) as [[]|H].
  apply in_map_iff in H. destruct H as (p & Hp & Hin). eauto.
Qed.

(** *** Which columns and rows a run writes *)

Lemma sweepColumnsOnly_refl r : sweepColumnsOnly r r.
Proof. repeat split. Qed.

Lemma sweepColumnsOnly_trans a b c :
  sweepColumnsOnly a b -> sweepColumnsOnly b c -> sweepColumnsOnly a c.
Proof.
  unfold sweepColumnsOnly. intros H1 H2.
  decompose [and] H1; decompose [and] H2; repeat split; congruence.
Qed.

Lemma sweepIteration_columns dry p st :
  rowwise (sweptAmong [p]) (Sweep.db st)
    (Sweep.db (fst (Sweep.sweepIteration env dry p st))).
Proof.
  assert (Hr : rowwise (sweptAmong [p]) (Sweep.db st) (Sweep.db st)).
  { apply rowwise_refl. intros r; split; [apply sweepColumnsOnly_refl | reflexivity]. }
  sweep_cases env dry p; try exact Hr.
  apply update_ok_inv in Hupd; subst.
  apply updateMany_rowwise.
  - intros r; split; [apply sweepColumnsOnly_refl | reflexivity].
  - intros r Hid. apply hasId_true in Hid. split; [repeat split|].
    intros Hne. exfalso. apply (Hne p); [now left | congruence].
Qed.

Lemma sweep_loop_columns dry payments : forall st,
  rowwise (sweptAmong payments) (Sweep.db st)
    (Sweep.db (fst (forOf payments (Sweep.sweepIteration env dry) st))).
Proof.
  induction payments as [|p rest IH]; intros st; simpl.
  - apply rowwise_refl. intros r; split; [apply sweepColumnsOnly_refl | reflexivity].
  - unfold bind.
    pose proof (sweepIteration_columns dry p st) as H1.
    destruct (sweepIteration_frame env dry p st) as (Hok & _).
    destruct (Sweep.sweepIteration env dry p st) as [s1 r1]; simpl in *; subst r1.
    pose proof (IH s1) as H2.
    revert H1 H2. generalize (Sweep.db st) (Sweep.db s1)
      (Sweep.db (fst (forOf rest (Sweep.sweepIteration env dry) s1))).
    intros d1 d2 d3 H1; revert d3.
    induction H1 as [|a b l1 l2 Hab H1 IH1]; intros d3 H2;
      inversion H2 as [|? c ? l3 Hbc H2']; subst; constructor.
    + destruct Hab as [Hc1 Hs1], Hbc as [Hc2 Hs2].
      split; [eapply sweepColumnsOnly_trans; eauto|].
      intros Hne.
      assert (b = a) as -> by (apply Hs1; intros q [<-|[]]; apply Hne; now left).
      apply Hs2. intros q Hq. apply Hne. now right.
    + now apply IH1.
Qed.

(** X2. A run writes nothing but [swept], [swept_at] and
    [sweep_tx_hash]: every other column of every row is as before, and a
    row that was not eligible (already swept, without an address, or
    not confirmed, overpaid or paid) is left exactly as it was. *)
Theorem run_writes_sweep_columns_of_eligible_rows_only options store :
  primaryKey store ->
  rowwise (fun r r' => sweepColumnsOnly r r' /\ (Sweep.unsweptPaid r = false -> r' = r))
    store (Sweep.db (fst (Sweep.run env options store))).
Proof.
  intros Hk.
  destruct (Sweep.getUnsweptPaidPayments (Sweep.resolveLimit env options) store)
    as [payments|e] eqn:Hsel.
  - destruct (run_selected env options store payments Hsel) as (audit & _ & Hdb & _).
    rewrite Hdb.
    eapply rowwise_In_impl;
      [|exact (sweep_loop_columns (Sweep.dryRunOf options) payments (loopStart options store))].
    simpl. intros r r' Hin [Hc Hs]. split; [exact Hc|].
    intros Hnot. apply Hs. intros p Hp E.
    destruct (selection_sound _ _ _ p Hsel Hp) as [Hps Hel].
    assert (p = r) as -> by (eapply primaryKey_inj; eauto).
    congruence.
  - rewrite (run_rejected env options store e Hsel). simpl.
    apply rowwise_refl. intros r; split; [apply sweepColumnsOnly_refl | reflexivity].
Qed.

(** *** A payment that fails keeps its row *)

Lemma iteration_fails_db dry p reason st :
  Fails env dry p reason ->
  Sweep.db (fst (Sweep.sweepIteration env dry p st)) = Sweep.db st.
Proof.
  intros HF.
  sweep_cases env dry p;
    destruct HF as [Ha | e' Ha Hd | kp' Ha Hd Hm | kp' e' Hdry Ha Hd Hm Hs];
    try congruence; reflexivity.
Qed.

Lemma loop_keeps_failed_row dry p reason payments : forall st,
  (forall q, In q payments -> id q = id p -> q = p) ->
  Fails env dry p reason ->
  Prisma.findUnique (id p) (Sweep.db (fst (forOf payments (Sweep.sweepIteration env dry) st)))
  = Prisma.findUnique (id p) (Sweep.db st).
Proof.
  induction payments as [|q rest IH]; intros st Hinj HF; simpl; [reflexivity|].
  unfold bind.
  destruct (sweepIteration_frame env dry q st) as (Hok & _ & _ & _ & _ & Hother & _).
  pose proof (iteration_fails_db dry p reason st HF) as Hsame.
  destruct (String.string_dec (id q) (id p)) as [E|Hne].
  - assert (q = p) as -> by (apply Hinj; [now left | exact E]).
    destruct (Sweep.sweepIteration env dry p st) as [s1 r1]; simpl in *; subst r1.
    rewrite IH; [now rewrite Hsame | intros; apply Hinj; auto | exact HF].
  - destruct (Sweep.sweepIteration env dry q st) as [s1 r1]; simpl in *; subst r1.
    rewrite IH; [apply Hother; congruence | intros; apply Hinj; auto | exact HF].
Qed.

(** X3. A selected payment that fails in the loop (invalid amount,
    failed or mismatching derivation, rejected submission) keeps its row
    unchanged, is reported in [skipped] with its reason, and is still
    eligible for the next run. *)
Theorem skipped_payment_keeps_its_row_and_stays_eligible
    options store payments p reason :
  primaryKey store ->
  Sweep.getUnsweptPaidPayments (Sweep.resolveLimit env options) store = Ok payments ->
  In p payments ->
  Fails env (Sweep.dryRunOf options) p reason ->
  let db' := Sweep.db (fst (Sweep.run env options store)) in
  Prisma.findUnique (id p) db' = Some p
  /\ In p (Prisma.findMany Sweep.unsweptPaid db')
  /\ exists r, snd (Sweep.run env options store) = Ok r
               /\ In (id p, reason) (SweepResult.skipped r).
Proof.
  intros Hk Hsel Hin HF db'.
  destruct (run_selected env options store payments Hsel) as (audit & _ & Hdb & _ & Hres).
  destruct (selection_sound _ _ _ p Hsel Hin) as [Hps Hel].
  assert (Hrow : Prisma.findUnique (id p) db' = Some p).
  { subst db'. rewrite Hdb. rewrite (loop_keeps_failed_row _ p reason); [| |exact HF].
    - simpl. now apply findUnique_primaryKey.
    - intros q Hq E. eapply primaryKey_inj; eauto.
      eapply selection_sound; eauto. }
  split; [exact Hrow|]. split.
  - unfold Prisma.findMany. apply filter_In. split; [|exact Hel].
    now apply findUnique_In in Hrow.
  - eexists; split; [exact Hres|]. simpl.
    now apply loop_records_failure.
Qed.

(** *** Ledger submissions *)

Lemma submissionsFor_app pid a b :
  submissionsFor pid (a ++ b) = (submissionsFor pid a + submissionsFor pid b)%nat.
Proof. unfold submissionsFor. now rewrite filter_app, length_app. Qed.

Lemma sweepIteration_submissions dry p pid st :
  exists n,
    submissionsFor pid (Sweep.events (fst (Sweep.sweepIteration env dry p st)))
    = (submissionsFor pid (Sweep.events st) + n)%nat
    /\ (n <= 1)%nat /\ (id p <> pid -> n = 0%nat).
Proof.
  sweep_cases env dry p; rewrite ?submissionsFor_app;
    generalize (submissionsFor pid (Sweep.events st)); intros k;
    unfold submissionsFor; simpl;
    try (exists 0%nat; repeat split; lia).
  all: destruct (String.eqb (id p) pid) eqn:E; simpl;
    [ exists 1%nat; split; [lia|]; split; [lia|];
      intros Hne; apply String.eqb_eq in E; contradiction
    | exists 0%nat; repeat split; lia ].
Qed.

Lemma sweep_loop_submissions dry pid payments : forall st,
  NoDup (map id payments) ->
  let st' := fst (forOf payments (Sweep.sweepIteration env dry) st) in
  (submissionsFor pid (Sweep.events st') <= submissionsFor pid (Sweep.events st) + 1)%nat
  /\ (~ In pid (map id payments) ->
        submissionsFor pid (Sweep.events st') = submissionsFor pid (Sweep.events st)).
Proof.
  induction payments as [|p rest IH]; intros st Hnd; simpl.
  - split; [lia | reflexivity].
  - inversion Hnd as [|? ? Hnotin Hnd']; subst.
    unfold bind.
    destruct (sweepIteration_submissions dry p pid st) as (n & Hn & Hle & Hz).
    destruct (sweepIteration_frame env dry p st) as (Hok & _).
    destruct (Sweep.sweepIteration env dry p st) as [s1 r1]; simpl in *; subst r1.
    destruct (IH s1 Hnd') as (Hle' & Hz').
    split.
    + destruct (String.string_dec (id p) pid) as [E|Hne].
      * subst pid. rewrite (Hz' Hnotin). lia.
      * rewrite (Hz Hne) in Hn. lia.
    + intros Hnot. rewrite Hz' by tauto. rewrite Hn, Hz; [lia|tauto].
Qed.

(** X4. A run submits at most one transfer per payment, and each
    transfer it submits is for a selected payment, signed with the
    secret derived for that payment, sent to the master vault, for the
    payment's amount printed with seven decimals. *)
Theorem at_most_one_transfer_per_payment_and_only_to_the_vault
    options store payments :
  primaryKey store ->
  Sweep.getUnsweptPaidPayments (Sweep.resolveLimit env options) store = Ok payments ->
  let evs := Sweep.events (fst (Sweep.run env options store)) in
  (forall pid, (submissionsFor pid evs <= 1)%nat)
  /\ (forall pid s d a,
        In (SubmitTransaction pid s d a) evs ->
        exists q kp,
          In q payments /\ id q = pid
          /\ Sweep.regenerateKeypair env (merchantId q) (id q) = Ok kp
          /\ s = secretKey kp
          /\ d = Sweep.vaultPublicKey env
          /\ a = Sweep.toFixed7 env (amount q)).
Proof.
  intros Hk Hsel evs.
  destruct (run_selected env options store payments Hsel) as (audit & Haudit & _ & Hev & _).
  subst evs. rewrite Hev. split.
  - intros pid. rewrite submissionsFor_app.
    destruct (sweep_loop_submissions (Sweep.dryRunOf options) pid payments
                (loopStart options store)) as (Hle & _).
    { eapply selection_NoDup; eauto. }
    change (submissionsFor pid (Sweep.events (loopStart options store)))
      with 0%nat in Hle.
    assert (submissionsFor pid audit = 0%nat) as ->.
    { clear -Haudit. induction Haudit as [|e l He _ IH]; [reflexivity|].
      destruct He as (? & ? & ? & ? & ? & ->). exact IH. }
    cbv zeta in Hle. lia.
  - intros pid s d a Hin. apply in_app_or in Hin. destruct Hin as [Hin|Hin].
    + destruct (forOf_sweep_frame env (Sweep.dryRunOf options) payments
                  (loopStart options store)) as (_ & _ & _ & Hevs & _).
      destruct (Hevs _ Hin) as [H|(q & Hq & [H|(Hd & kp & Hi & Hkp & Hm & [H|(? & H)])])];
        try discriminate.
      * simpl in H. destruct H as [H|[]]; discriminate.
      * injection H as -> -> -> ->. exists q, kp. repeat split; auto.
    + rewrite Forall_forall in Haudit.
      destruct (Haudit _ Hin) as (? & ? & ? & ? & ? & H); discriminate.
Qed.

(** *** The audit entry of a run *)

(** X5. When the trigger was logged, the last thing a run does is
    complete the audit entry, once, with the statistics it returns; the
    entry says "failed" exactly when at least one payment was selected
    and every selected payment was skipped, and "completed" otherwise,
    also when only some were skipped. *)
Theorem audit_entry_says_failed_only_when_every_selected_payment_was_skipped
    options store payments :
  Sweep.auditLogCreated env = true ->
  Sweep.getUnsweptPaidPayments (Sweep.resolveLimit env options) store = Ok payments ->
  exists r before,
    snd (Sweep.run env options store) = Ok r
    /\ Sweep.events (fst (Sweep.run env options store))
       = (before
          ++ [AuditSweepCompletion
                (if noneSwept r then "failed" else "completed")
                (SweepResult.addressesSwept r) (SweepResult.totalAmount r)
                (hd_error (SweepResult.txHashes r))
                (if noneSwept r
                 then Some (Sweep.failureReasonOf (SweepResult.skipped r)) else None)])%list
    /\ (forall e, In e before -> ~ isAuditCompletion e)
    /\ (noneSwept r = true <->
        payments <> [] /\ List.length (SweepResult.skipped r) = List.length payments).
Proof.
  intros Haudit Hsel.
  destruct (sweep_loop_tally (Sweep.dryRunOf options) payments (loopStart options store))
    as (Htally & _).
  destruct (forOf_sweep_frame env (Sweep.dryRunOf options) payments (loopStart options store))
    as (Hok & _ & _ & Hevs & _).
  unfold Sweep.run, Sweep.sweepPaidPayments, bind, Sweep.log, modify, Sweep.initial.
  simpl. rewrite Hsel.
  fold (loopStart options store).
  destruct (forOf payments _ (loopStart options store)) as [s1 r1]; simpl in *; subst r1.
  unfold Sweep.auditCompletion, Sweep.log, modify.
  rewrite Haudit. simpl.
  eexists. exists (Sweep.events s1). split; [reflexivity|].
  unfold noneSwept. simpl. split; [reflexivity|]. split.
  - intros e He (? & ? & ? & ? & ? & ->).
    destruct (Hevs _ He) as [H|(q & _ & [H|(_ & kp & _ & _ & _ & [H|(? & H)])])];
      try discriminate.
    destruct H as [H|[]]; discriminate.
  - rewrite andb_true_iff, Nat.ltb_lt, Nat.eqb_eq.
    split.
    + intros [Hpos Hz]. split; [|lia].
      intros ->. simpl in Htally. lia.
    + intros [Hne Hlen]. destruct payments; [congruence|]. simpl in *. lia.
Qed.

End SweepLedger.

Section SweepProjection.

Variable env : Sweep.Env.

Lemma iteration_outcome dry p st :
  (dry = false -> ledgerAccepts env /\ In (id p) (map id (Sweep.db st))) ->
  let st' := fst (Sweep.sweepIteration env dry p st) in
  Sweep.addressesSwept st'
  = (Sweep.addressesSwept st + match skipReason env p with None => 1 | Some _ => 0 end)%nat
  /\ Sweep.total st'
     = match skipReason env p with
       | None => JsNumber.add (Sweep.total st) (amount p)
       | Some _ => Sweep.total st
       end
  /\ Sweep.skipped st'
     = (Sweep.skipped st
        ++ match skipReason env p with Some r => [(id p, r)] | None => [] end)%list.
Proof.
  intros Hreal. unfold skipReason.
  sweep_cases env dry p; rewrite ?app_nil_r; try (repeat split; (lia || reflexivity)).
  - destruct (Hreal eq_refl) as [_ Hid].
    destruct (findUnique_of_id _ _ Hid) as [r Hr].
    erewrite update_found in Hupd by eassumption. discriminate.
  - destruct (Hreal eq_refl) as [Hacc _].
    destruct (Hacc (secretKey kp) (Sweep.vaultPublicKey env)
                (Sweep.toFixed7 env (amount p))) as [h Hh].
    congruence.
Qed.

Lemma loops_agree payments : forall sd sr,
  ledgerAccepts env ->
  (forall p, In p payments -> In (id p) (map id (Sweep.db sr))) ->
  Sweep.addressesSwept sd = Sweep.addressesSwept sr ->
  Sweep.total sd = Sweep.total sr ->
  Sweep.skipped sd = Sweep.skipped sr ->
  let sd' := fst (forOf payments (Sweep.sweepIteration env true) sd) in
  let sr' := fst (forOf payments (Sweep.sweepIteration env false) sr) in
  Sweep.addressesSwept sd' = Sweep.addressesSwept sr'
  /\ Sweep.total sd' = Sweep.total sr'
  /\ Sweep.skipped sd' = Sweep.skipped sr'.
Proof.
  induction payments as [|p rest IH]; intros sd sr Hacc Hrows Ha Ht Hs; simpl.
  - auto.
  - unfold bind.
    destruct (iteration_outcome true p sd) as (Ha1 & Ht1 & Hs1); [discriminate|].
    destruct (iteration_outcome false p sr) as (Ha2 & Ht2 & Hs2).
    { intros _. split; [exact Hacc | apply Hrows; now left]. }
    destruct (sweepIteration_frame env true p sd) as (Hok1 & _).
    destruct (sweepIteration_frame env false p sr) as (Hok2 & _ & Hids & _).
    destruct (Sweep.sweepIteration env true p sd) as [sd1 r1]; simpl in *; subst r1.
    destruct (Sweep.sweepIteration env false p sr) as [sr1 r2]; simpl in *; subst r2.
    apply IH;
      [ exact Hacc
      | intros q Hq; rewrite Hids; apply Hrows; now right
      | rewrite Ha1, Ha2, Ha; reflexivity
      | rewrite Ht1, Ht2, Ht; reflexivity
      | rewrite Hs1, Hs2, Hs; reflexivity ].
Qed.

(** X26. When the ledger accepts every transfer, a dry run reports what
    the run itself then does on the same table: the same count of swept
    addresses, the same total and the same skipped payments with the
    same reasons; the run has one hash per swept address where the dry
    run has none. *)
Theorem dry_run_reports_what_the_run_sweeps_when_the_ledger_accepts
    options store payments :
  ledgerAccepts env ->
  Sweep.getUnsweptPaidPayments (Sweep.resolveLimit env options) store = Ok payments ->
  exists projected swept,
    snd (Sweep.run env (withDryRun true options) store) = Ok projected
    /\ snd (Sweep.run env (withDryRun false options) store) = Ok swept
    /\ SweepResult.addressesSwept projected = SweepResult.addressesSwept swept
    /\ SweepResult.totalAmount projected = SweepResult.totalAmount swept
    /\ SweepResult.skipped projected = SweepResult.skipped swept
    /\ List.length (SweepResult.txHashes swept) = SweepResult.addressesSwept swept
    /\ SweepResult.txHashes projected = [].
Proof.
  intros Hacc Hsel.
  assert (Hd : Sweep.getUnsweptPaidPayments
                 (Sweep.resolveLimit env (withDryRun true options)) store = Ok payments)
    by exact Hsel.
  assert (Hr : Sweep.getUnsweptPaidPayments
                 (Sweep.resolveLimit env (withDryRun false options)) store = Ok payments)
    by exact Hsel.
  destruct (run_selected env _ store payments Hd) as (_ & _ & _ & _ & Hres1).
  destruct (run_selected env _ store payments Hr) as (_ & _ & _ & _ & Hres2).
  eexists. eexists. split; [exact Hres1|]. split; [exact Hres2|]. simpl.
  change (Sweep.dryRunOf (withDryRun true options)) with true.
  change (Sweep.dryRunOf (withDryRun false options)) with false.
  destruct (loops_agree payments (loopStart (withDryRun true options) store)
              (loopStart (withDryRun false options) store)) as (Ha & Ht & Hs);
    try reflexivity; try exact Hacc.
  { intros p Hp. simpl. apply in_map. eapply selection_sound; eauto. }
  destruct (sweep_loop_tally env false payments (loopStart (withDryRun false options) store))
    as (_ & Hh & _).
  destruct (forOf_sweep_frame env true payments (loopStart (withDryRun true options) store))
    as (_ & _ & _ & _ & Hdry & _).
  destruct (Hdry eq_refl) as [_ Hhd].
  simpl in Hh, Hhd.
  split; [exact Ha|]. split; [now rewrite Ht|]. split; [exact Hs|].
  split; [lia | exact Hhd].
Qed.

(** X27. With [SWEEP_BATCH_LIMIT] set to a non-empty string that
    [parseInt] reads as NaN, every run that gives no limit is rejected
    by the selection query, after the audit trigger was logged and
    before any payment is looked at. *)
Theorem batch_limit_that_is_no_number_rejects_every_run_without_a_limit
    options store s :
  limit options = None ->
  Sweep.SWEEP_BATCH_LIMIT env = Some s -> s <> "" ->
  JsParse.parseInt10 s = JsNumber.NaN ->
  exists e, Sweep.run env options store = (loopStart options store, Throw e).
Proof.
  intros Hlimit Henv Hne Hnan.
  eexists. apply run_rejected.
  unfold Sweep.resolveLimit. rewrite Hlimit, Henv. simpl.
  unfold JsString.truthy. apply String.eqb_neq in Hne. rewrite Hne. simpl.
  rewrite Hnan. reflexivity.
Qed.

End SweepProjection.

(* ------------------------------------------------------------------ *)
(** ** The monitor: what a tick may write *)

Section MonitorWrites.

Variable env : Monitor.Env.

Lemma scan_hash records : forall acc h,
  Monitor.latestTxHash (fold_left (Monitor.scanRecord env) records acc) = Some h ->
  Monitor.latestTxHash acc = Some h
  \/ exists rec, In rec records /\ Monitor.isUsdcPayment env rec = true
                 /\ h = Horizon.Operation.transaction_hash rec.
Proof.
  induction records as [|r rest IH]; intros acc h; simpl; [now left|].
  intros H. destruct (IH _ _ H) as [H1|(rec & Hin & Hu & Hh)]; [|right; eauto].
  unfold Monitor.scanRecord in H1.
  destruct (Monitor.isUsdcPayment env r && _) eqn:E; simpl in H1.
  - right. apply andb_prop in E. destruct E as [E _].
    injection H1 as <-. eauto.
  - now left.
Qed.

Lemma monitorIteration_writes q st :
  let st' := fst (Monitor.monitorIteration env q st) in
  Monitor.db st' = Monitor.db st
  \/ exists d,
       Monitor.db st' = Prisma.updateMany (Prisma.hasId (id q)) d (Monitor.db st)
       /\ tickWrite env q d.
Proof.
  monitor_unfold. repeat monitor_branch.
  all: repeat match goal with u : unit |- _ => destruct u end.
  all: try (left; reflexivity).
  all: right; eexists; split;
    [ match goal with H : Prisma.update _ _ _ = Ok _ |- _ =>
        apply update_ok_inv in H; exact H end |].
  all: split; [unfold tickData; simpl; repeat split; eauto|].
  all: simpl; split;
    [ intros ? Hs; first [discriminate Hs | injection Hs as <-];
      unfold classified; eauto 6 |].
  all: intros h Hh; try discriminate Hh.
  all: try (destruct (JsString.truthy _) eqn:Htruthy in Hh; [|discriminate Hh]).
  all: injection Hh as <-.
  all: match goal with
       | H : Monitor.latestTxHash (Monitor.scanRecords _ _ _) = Some _ |- _ =>
           pose proof H as Hscan; unfold Monitor.scanRecords in Hscan;
           apply scan_hash in Hscan; simpl in Hscan;
           destruct Hscan as [Hscan|(rec & Hin & Hu & ->)]; [discriminate Hscan|]
       end.
  all: split; [|unfold observedHash; eauto 8].
  all: try assumption.
Qed.

(** Over a whole loop, a row is written at most once, by the iteration of
    the payment it was selected as. *)
Lemma monitor_loop_one_write payments : forall st,
  NoDup (map id payments) ->
  (forall q, In q payments -> Prisma.findUnique (id q) (Monitor.db st) = Some q) ->
  forall pid r,
    Prisma.findUnique pid (Monitor.db st) = Some r ->
    let final := fst (forOf payments (Monitor.monitorIteration env) st) in
    Prisma.findUnique pid (Monitor.db final) = Some r
    \/ (In r payments
        /\ exists d, tickWrite env r d
                     /\ Prisma.findUnique pid (Monitor.db final) = Some (applyData d r)).
Proof.
  induction payments as [|q rest IH]; intros st Hnd Hsnap pid r Hr; simpl.
  - now left.
  - simpl in Hnd. inversion Hnd as [|? ? Hnotin Hnd']; subst.
    unfold bind.
    destruct (monitorIteration_rows env q st) as (Hok & _ & Hother & _).
    pose proof (monitorIteration_writes q st) as Hw.
    destruct (Monitor.monitorIteration env q st) as [s1 r1]; simpl in *; subst r1.
    destruct (String.string_dec pid (id q)) as [->|Hne].
    + assert (r = q) as -> by (rewrite (Hsnap q (or_introl eq_refl)) in Hr; congruence).
      destruct (monitor_loop_other env (id q) rest s1) as (Hf & _).
      { intros q' Hq' E. apply Hnotin. rewrite <- E. now apply in_map. }
      rewrite Hf.
      destruct Hw as [->|(d & -> & Hd)]; [now left|].
      right. split; [now left|]. exists d. split; [exact Hd|].
      now apply findUnique_updateMany_same.
    + destruct (IH s1 Hnd') with (pid := pid) (r := r) as [H|(Hin & d & Hd & H)].
      * intros q' Hq'. rewrite Hother; [apply Hsnap; now right|].
        intros E. apply Hnotin. rewrite <- E. now apply in_map.
      * rewrite Hother; auto.
      * now left.
      * right. split; [now right|]. eauto.
Qed.

(** What a tick does to a row: nothing, the expiry, or one write of the
    loop for a payment that is active. *)
Lemma tick_row now store pid r :
  primaryKey store ->
  Prisma.findUnique pid store = Some r ->
  let db' := Monitor.db (fst (Monitor.tick env now store)) in
  Prisma.findUnique pid db' = Some r
  \/ (Monitor.stale now r = true
      /\ Prisma.findUnique pid db' = Some (applyData Monitor.expiredData r))
  \/ (Monitor.active now r = true
      /\ exists d, tickWrite env r d
                   /\ Prisma.findUnique pid db' = Some (applyData d r)).
Proof.
  intros Hk Hr. cbv zeta. rewrite tick_unfold.
  destruct (findUnique_In _ _ _ Hr) as [Hin <-].
  pose proof (findUnique_updateMany_cond (Monitor.stale now) Monitor.expiredData
                store r Hk Hin) as Hr0.
  fold (Monitor.expireStale now store) in Hr0.
  assert (Hnd : NoDup (map id (selected now store))).
  { apply NoDup_ids_filter. now apply primaryKey_updateMany. }
  assert (Hsnap : forall q, In q (selected now store) ->
            Prisma.findUnique (id q) (Monitor.db (afterExpiry now store)) = Some q).
  { intros q Hq. now apply selected_snapshot. }
  destruct (Monitor.stale now r) eqn:Hstale.
  - destruct (monitor_loop_one_write (selected now store) (afterExpiry now store)
                Hnd Hsnap (id r) _ Hr0) as [H|(Hsel & _)].
    + right; left. split; [reflexivity | exact H].
    + exfalso. apply selected_snapshot in Hsel; [|exact Hk].
      destruct Hsel as [_ Hact].
      unfold Monitor.active, Monitor.pendingOrPartial in Hact. simpl in Hact.
      discriminate Hact.
  - destruct (monitor_loop_one_write (selected now store) (afterExpiry now store)
                Hnd Hsnap (id r) _ Hr0) as [H|(Hsel & d & Hd & H)].
    + now left.
    + right; right. apply selected_snapshot in Hsel; [|exact Hk].
      destruct Hsel as [_ Hact]. split; [exact Hact|]. eauto.
Qed.

(** X6. Across a tick a row's status changes in two ways only: to
    [expired], for a pending or partially paid row whose expiration has
    passed; or to the status the USDC balance loaded for its address
    calls for, for a pending or partially paid row that has not
    expired. *)
Theorem tick_changes_a_status_only_by_expiry_or_by_the_balance now store pid r :
  primaryKey store ->
  Prisma.findUnique pid store = Some r ->
  exists r',
    Prisma.findUnique pid (Monitor.db (fst (Monitor.tick env now store))) = Some r'
    /\ (status r' = status r
        \/ (Monitor.pendingOrPartial r = true /\ expiration r <= now
            /\ status r' = expired)
        \/ (Monitor.pendingOrPartial r = true /\ now < expiration r
            /\ classified env r (status r'))).
Proof.
  intros Hk Hr.
  destruct (tick_row now store pid r Hk Hr) as [H|[(Hs & H)|(Ha & d & Hd & H)]];
    eexists; (split; [exact H|]).
  - now left.
  - right; left. unfold Monitor.stale in Hs. apply andb_prop in Hs.
    destruct Hs as [Hp He]. apply Z.leb_le in He. auto.
  - unfold Monitor.active in Ha. apply andb_prop in Ha. destruct Ha as [Ha _].
    apply andb_prop in Ha. destruct Ha as [Hp He]. apply Z.ltb_lt in He.
    destruct Hd as (_ & Hst & _). simpl.
    destruct (set_status d) as [s|] eqn:E; simpl; [|now left].
    right; right. auto.
Qed.

(** X7. The [transaction_hash] of a row after a tick is the one it had,
    or the non-empty hash of a USDC payment record (type, asset and
    issuer matching) of a payments page Horizon returned. *)
Theorem tick_records_only_hashes_of_usdc_payment_records now store pid r :
  primaryKey store ->
  Prisma.findUnique pid store = Some r ->
  exists r',
    Prisma.findUnique pid (Monitor.db (fst (Monitor.tick env now store))) = Some r'
    /\ (transaction_hash r' = transaction_hash r
        \/ exists h, transaction_hash r' = Some h /\ h <> "" /\ observedHash env h).
Proof.
  intros Hk Hr.
  destruct (tick_row now store pid r Hk Hr) as [H|[(Hs & H)|(Ha & d & Hd & H)]];
    eexists; (split; [exact H|]); try (now left).
  destruct Hd as (_ & _ & Hh). simpl.
  destruct (set_transaction_hash d) as [h|] eqn:E; simpl; [|now left].
  right. exists h. destruct (Hh h eq_refl) as [Ht Ho].
  split; [reflexivity|]. split; [|exact Ho].
  intros ->. discriminate Ht.
Qed.

(** X8. A tick leaves untouched every row whose status is not pending
    or partially paid, and every unexpired row that has no address. *)
Theorem tick_leaves_rows_it_does_not_watch_untouched now store pid r :
  primaryKey store ->
  Prisma.findUnique pid store = Some r ->
  (Monitor.pendingOrPartial r = false
   \/ (now < expiration r /\ stellar_address r = None)) ->
  Prisma.findUnique pid (Monitor.db (fst (Monitor.tick env now store))) = Some r.
Proof.
  intros Hk Hr Hcase.
  assert (Monitor.stale now r = false /\ Monitor.active now r = false) as [Hs Ha].
  { unfold Monitor.stale, Monitor.active.
    destruct Hcase as [->|[Hlt ->]]; [now split|].
    split; [|now rewrite andb_false_r].
    apply andb_false_iff; right. now apply Z.leb_gt. }
  destruct (tick_row now store pid r Hk Hr) as [H|[(Hs' & _)|(Ha' & _)]];
    [exact H | congruence | congruence].
Qed.

End MonitorWrites.

Section MonitorEdges.

Variable env : Monitor.Env.

Lemma monitorColumnsOnly_refl r : monitorColumnsOnly r r.
Proof. repeat split. Qed.

Lemma monitorColumnsOnly_trans a b c :
  monitorColumnsOnly a b -> monitorColumnsOnly b c -> monitorColumnsOnly a c.
Proof.
  unfold monitorColumnsOnly. intros H1 H2.
  decompose [and] H1; decompose [and] H2; repeat split; congruence.
Qed.

Lemma tickData_columns q d r : tickData env q d -> monitorColumnsOnly r (applyData d r).
Proof.
  intros (H1 & H2 & H3 & H4 & H5 & H6 & _).
  unfold monitorColumnsOnly; simpl.
  rewrite H1, H2, H3, H4, H5, H6. repeat split.
Qed.

Lemma monitor_loop_columns payments : forall st,
  let st' := fst (forOf payments (Monitor.monitorIteration env) st) in
  rowwise monitorColumnsOnly (Monitor.db st) (Monitor.db st')
  /\ snd (forOf payments (Monitor.monitorIteration env) st) = Ok tt.
Proof.
  induction payments as [|q rest IH]; intros st; simpl.
  - split; [apply rowwise_refl, monitorColumnsOnly_refl | reflexivity].
  - unfold bind.
    destruct (monitorIteration_shape env q st) as (Hok & _ & Hdb).
    destruct (Monitor.monitorIteration env q st) as [s1 r1]; simpl in *; subst r1.
    destruct (IH s1) as (Hrow & Hok').
    split; [|exact Hok'].
    eapply rowwise_trans; [apply monitorColumnsOnly_trans | | exact Hrow].
    destruct Hdb as [->|(d & -> & Hd)].
    + apply rowwise_refl, monitorColumnsOnly_refl.
    + apply updateMany_rowwise; [apply monitorColumnsOnly_refl|].
      intros r _. now apply tickData_columns with q.
Qed.

(** X9. With the database answering, a tick never throws, whatever the
    ledger and the event bus do, and writes no column other than
    [status], [last_paging_token] and [transaction_hash]: in particular
    it never sets [confirmed_at], the column the sweep orders its
    selection by. *)
Theorem tick_never_throws_and_writes_status_cursor_and_hash_only now store :
  snd (Monitor.tick env now store) = Ok tt
  /\ rowwise monitorColumnsOnly store (Monitor.db (fst (Monitor.tick env now store))).
Proof.
  rewrite tick_unfold.
  destruct (monitor_loop_columns (selected now store) (afterExpiry now store))
    as (Hrow & Hok).
  split; [exact Hok|].
  eapply rowwise_trans; [apply monitorColumnsOnly_trans | | exact Hrow].
  apply updateMany_rowwise; [apply monitorColumnsOnly_refl|].
  intros r _. repeat split.
Qed.

(** *** A payment whose ledger call fails *)

Lemma monitorIteration_load_fails p st addr e :
  stellar_address p = Some addr -> JsString.truthy addr = true ->
  Monitor.loadAccount env addr = Throw e ->
  Monitor.monitorIteration env p st
  = ({| Monitor.db := Monitor.db st;
        Monitor.events := (Monitor.events st ++ LoadAccount addr :: errorLog addr e)%list |},
     Ok tt).
Proof.
  intros Haddr Htruthy Hload.
  monitor_unfold. rewrite Haddr, Htruthy. simpl. rewrite Hload. simpl.
  unfold errorLog. destruct (Monitor.notFound e); simpl.
  - reflexivity.
  - now rewrite <- app_assoc.
Qed.

Lemma monitorIteration_page_fails p st addr account e :
  stellar_address p = Some addr -> JsString.truthy addr = true ->
  Monitor.loadAccount env addr = Ok account ->
  Monitor.paymentsCall env addr (Monitor.cursorOf p) = Throw e ->
  Monitor.monitorIteration env p st
  = ({| Monitor.db := Monitor.db st;
        Monitor.events :=
          (Monitor.events st
           ++ LoadAccount addr :: PaymentsCall addr (Monitor.cursorOf p)
              :: errorLog addr e)%list |},
     Ok tt).
Proof.
  intros Haddr Htruthy Hload Hcall.
  monitor_unfold. rewrite Haddr, Htruthy. simpl. rewrite Hload. simpl.
  rewrite Hcall. simpl.
  unfold errorLog. destruct (Monitor.notFound e); simpl.
  - now rewrite <- app_assoc.
  - now rewrite <- !app_assoc.
Qed.

Lemma monitor_loop_returns payments st :
  snd (forOf payments (Monitor.monitorIteration env) st) = Ok tt.
Proof.
  apply (forOf_invariant (fun _ => True)); [|exact I].
  intros q s _ _. split; [exact I|].
  apply (monitorIteration_shape env q s).
Qed.

Lemma errorLog_404 addr e : responseStatus e = Some 404 -> errorLog addr e = [].
Proof. intros H. unfold errorLog, Monitor.notFound. now rewrite H. Qed.

Lemma errorLog_other addr e :
  responseStatus e <> Some 404 ->
  errorLog addr e = [ConsoleError ("[PaymentMonitor] Error checking address " ++ addr)].
Proof.
  intros H. unfold errorLog, Monitor.notFound.
  destruct (responseStatus e) as [code|]; [|reflexivity].
  destruct (Z.eqb_spec code 404) as [->|_]; [congruence | reflexivity].
Qed.

(** X10. When loading the account or the payments page of an active
    payment throws, the tick leaves the payment's row as it was and goes
    on.  The iteration for the payment, in its place among the active
    payments, adds the ledger calls made up to the failing one and,
    unless the response status of the error is 404, one line on the
    console; it changes nothing else, and the loop goes on from there
    with the payments that follow. *)
Theorem ledger_error_leaves_the_row_and_is_logged_unless_404
    now store p addr e :
  primaryKey store -> In p store -> Monitor.active now p = true ->
  stellar_address p = Some addr -> addr <> "" ->
  (Monitor.loadAccount env addr = Throw e
   \/ exists account,
        Monitor.loadAccount env addr = Ok account
        /\ Monitor.paymentsCall env addr (Monitor.cursorOf p) = Throw e) ->
  let final := fst (Monitor.tick env now store) in
  Prisma.findUnique (id p) (Monitor.db final) = Some p
  /\ exists earlier later calls logged,
       selected now store = (earlier ++ p :: later)%list
       /\ (calls = [LoadAccount addr]
           /\ Monitor.loadAccount env addr = Throw e
           \/ calls = [LoadAccount addr; PaymentsCall addr (Monitor.cursorOf p)]
              /\ Monitor.paymentsCall env addr (Monitor.cursorOf p) = Throw e)
       /\ (responseStatus e = Some 404 -> logged = [])
       /\ (responseStatus e <> Some 404 ->
           logged = [ConsoleError ("[PaymentMonitor] Error checking address " ++ addr)])
       /\ let s0 :=
            fst (forOf earlier (Monitor.monitorIteration env) (afterExpiry now store)) in
          final
          = fst (forOf later (Monitor.monitorIteration env)
                   {| Monitor.db := Monitor.db s0;
                      Monitor.events := (Monitor.events s0 ++ calls ++ logged)%list |}).
Proof.
  intros Hk Hin Hact Haddr Hne Hfail. cbv zeta.
  assert (Htruthy : JsString.truthy addr = true).
  { unfold JsString.truthy. apply String.eqb_neq in Hne. now rewrite Hne. }
  pose proof (active_selected now store p Hk Hin Hact) as Hsel.
  split.
  - rewrite tick_unfold.
    destruct (monitor_loop_focus env p (selected now store) (afterExpiry now store))
      as (s0 & pre & post & Hrow & Hpre & Hfin & Hev); auto.
    { apply NoDup_ids_filter. now apply primaryKey_updateMany. }
    { now destruct (selected_snapshot now store p Hk Hsel). }
    rewrite Hfin.
    destruct Hfail as [Hload|(account & Hload & Hcall)].
    + now rewrite (monitorIteration_load_fails p s0 addr e Haddr Htruthy Hload).
    + now rewrite (monitorIteration_page_fails p s0 addr account e Haddr Htruthy
                     Hload Hcall).
  - destruct (in_split _ _ Hsel) as (earlier & later & Hsplit).
    exists earlier, later,
      (match Monitor.loadAccount env addr with
       | Throw _ => [LoadAccount addr]
       | Ok _ => [LoadAccount addr; PaymentsCall addr (Monitor.cursorOf p)]
       end),
      (errorLog addr e).
    split; [exact Hsplit|].
    split; [destruct Hfail as [Hload|(account & Hload & Hcall)]; rewrite Hload; auto|].
    split; [apply errorLog_404|]. split; [apply errorLog_other|].
    rewrite tick_unfold, Hsplit, forOf_app. unfold bind at 1.
    pose proof (monitor_loop_returns earlier (afterExpiry now store)) as Hok.
    destruct (forOf earlier (Monitor.monitorIteration env) (afterExpiry now store))
      as [s0 r0]; simpl in Hok; subst r0.
    cbn [fst forOf]. unfold bind at 1.
    destruct Hfail as [Hload|(account & Hload & Hcall)]; rewrite Hload.
    + rewrite (monitorIteration_load_fails p s0 addr e Haddr Htruthy Hload).
      reflexivity.
    + rewrite (monitorIteration_page_fails p s0 addr account e Haddr Htruthy
                 Hload Hcall).
      reflexivity.
Qed.

(** *** A payment with nothing new on the ledger *)

Lemma option_string_eqb_refl a : Monitor.option_string_eqb a a = true.
Proof. destruct a; simpl; [apply String.eqb_refl | reflexivity]. Qed.

Lemma monitorIteration_quiet p st addr account :
  stellar_address p = Some addr -> JsString.truthy addr = true ->
  Monitor.loadAccount env addr = Ok account ->
  Monitor.paymentsCall env addr (Monitor.cursorOf p) = Ok [] ->
  (Monitor.newStatusOf (Monitor.totalReceivedOf env account) (amount p) = None
   \/ Monitor.newStatusOf (Monitor.totalReceivedOf env account) (amount p)
      = Some (status p)) ->
  Monitor.monitorIteration env p st
  = ({| Monitor.db := Monitor.db st;
        Monitor.events :=
          (Monitor.events st
           ++ [LoadAccount addr; PaymentsCall addr (Monitor.cursorOf p)])%list |},
     Ok tt).
Proof.
  intros Haddr Htruthy Hload Hcall Hns.
  assert (Hsame : PaymentStatus_eqb (status p) (status p) = true)
    by now apply PaymentStatus_eqb_eq.
  monitor_unfold. rewrite Haddr, Htruthy. simpl. rewrite Hload. simpl.
  rewrite Hcall. simpl.
  unfold Monitor.scanRecords. simpl.
  destruct Hns as [->| ->]; simpl; rewrite ?Hsame; simpl;
    rewrite option_string_eqb_refl, andb_false_r; now rewrite <- app_assoc.
Qed.

(** Row updates are logged under the id of the iteration's payment. *)
Lemma monitorIteration_updates q st pid d :
  In (PaymentUpdate pid d) (Monitor.events (fst (Monitor.monitorIteration env q st))) ->
  In (PaymentUpdate pid d) (Monitor.events st) \/ pid = id q.
Proof.
  monitor_unfold. repeat monitor_branch.
  all: repeat match goal with u : unit |- _ => destruct u end.
  all: intros H; repeat (apply in_app_or in H; destruct H as [H|H]); auto.
  all: simpl in H;
    repeat match goal with
           | H : _ \/ _ |- _ => destruct H as [H|H]
           | H : False |- _ => destruct H
           end;
    try discriminate; injection H as <- _; now right.
Qed.

Lemma monitor_loop_updates payments pid d : forall st,
  In (PaymentUpdate pid d)
     (Monitor.events (fst (forOf payments (Monitor.monitorIteration env) st))) ->
  In (PaymentUpdate pid d) (Monitor.events st) \/ In pid (map id payments).
Proof.
  induction payments as [|q rest IH]; intros st; simpl; [now left|].
  unfold bind.
  destruct (monitorIteration_shape env q st) as (Hok & _).
  pose proof (monitorIteration_updates q st pid d) as Hq.
  destruct (Monitor.monitorIteration env q st) as [s1 r1]; simpl in *; subst r1.
  intros H. destruct (IH s1 H) as [H1|H1]; [|now auto].
  destruct (Hq H1); auto.
Qed.

Lemma NoDup_ids_split (p : Payment) payments :
  NoDup (map id payments) -> In p payments ->
  exists l1 l2,
    payments = (l1 ++ p :: l2)%list
    /\ ~ In (id p) (map id l1) /\ ~ In (id p) (map id l2).
Proof.
  intros Hnd Hin. apply in_split in Hin. destruct Hin as (l1 & l2 & ->).
  exists l1, l2. split; [reflexivity|].
  rewrite map_app in Hnd. simpl in Hnd.
  apply NoDup_remove_2 in Hnd.
  split; intros H; apply Hnd, in_or_app; auto.
Qed.

(** X11. For an active payment whose payments page is empty and whose
    balance calls for no status or for the status it has, the tick
    makes the two ledger calls and writes nothing: the row is unchanged
    and no update is issued for it. *)
Theorem tick_writes_nothing_for_a_payment_with_no_news
    now store p addr account :
  primaryKey store -> In p store -> Monitor.active now p = true ->
  stellar_address p = Some addr -> addr <> "" ->
  Monitor.loadAccount env addr = Ok account ->
  Monitor.paymentsCall env addr (Monitor.cursorOf p) = Ok [] ->
  (Monitor.newStatusOf (Monitor.totalReceivedOf env account) (amount p) = None
   \/ Monitor.newStatusOf (Monitor.totalReceivedOf env account) (amount p)
      = Some (status p)) ->
  let final := fst (Monitor.tick env now store) in
  Prisma.findUnique (id p) (Monitor.db final) = Some p
  /\ forall d, ~ In (PaymentUpdate (id p) d) (Monitor.events final).
Proof.
  intros Hk Hin Hact Haddr Hne Hload Hcall Hns. cbv zeta. rewrite tick_unfold.
  assert (Htruthy : JsString.truthy addr = true).
  { unfold JsString.truthy. apply String.eqb_neq in Hne. now rewrite Hne. }
  pose proof (active_selected now store p Hk Hin Hact) as Hsel.
  destruct (selected_snapshot now store p Hk Hsel) as [Hsnap _].
  destruct (NoDup_ids_split p (selected now store)) as (l1 & l2 & -> & Hn1 & Hn2); auto.
  { apply NoDup_ids_filter. now apply primaryKey_updateMany. }
  rewrite forOf_app. unfold bind.
  destruct (monitor_loop_columns l1 (afterExpiry now store)) as (_ & Hok1).
  destruct (monitor_loop_other env (id p) l1 (afterExpiry now store)) as (Hf1 & _).
  { intros q Hq E. apply Hn1. rewrite <- E. now apply in_map. }
  pose proof (monitor_loop_updates l1 (id p)) as Hu1.
  specialize (fun d => Hu1 d (afterExpiry now store)).
  destruct (forOf l1 _ (afterExpiry now store)) as [s0 r0]; simpl in Hok1, Hf1, Hu1;
    subst r0.
  simpl. unfold bind.
  rewrite (monitorIteration_quiet p s0 addr account Haddr Htruthy Hload Hcall Hns).
  match goal with |- context [forOf l2 _ ?s] => set (s1 := s) end.
  destruct (monitor_loop_other env (id p) l2 s1) as (Hf2 & _).
  { intros q Hq E. apply Hn2. rewrite <- E. now apply in_map. }
  pose proof (monitor_loop_updates l2 (id p)) as Hu2.
  specialize (fun d => Hu2 d s1).
  split.
  - rewrite Hf2. subst s1. simpl. rewrite Hf1. exact Hsnap.
  - intros d Hd. destruct (Hu2 d Hd) as [H|H]; [|contradiction].
    subst s1. simpl in H. apply in_app_or in H. destruct H as [H|H].
    + destruct (Hu1 d H) as [H'|H']; [|contradiction].
      simpl in H'. destruct H' as [H'|[]]; discriminate.
    + simpl in H. destruct H as [H|[H|[]]]; discriminate.
Qed.

End MonitorEdges.

Section ManyTicks.

Lemma rowwise_ids (R : Payment -> Payment -> Prop) db db' :
  (forall r r', R r r' -> id r' = id r) -> rowwise R db db' -> map id db' = map id db.
Proof.
  intros Hid F. induction F as [|a b l l' Hab F IH]; simpl; [reflexivity|].
  now rewrite (Hid _ _ Hab), IH.
Qed.

Lemma tick_primaryKey env now store :
  primaryKey store -> primaryKey (Monitor.db (fst (Monitor.tick env now store))).
Proof.
  unfold primaryKey. intros Hk.
  rewrite (rowwise_ids sweptKept store); [exact Hk | now intros r r' [H _] |].
  apply tick_sweptKept.
Qed.

(** X28. A payment whose status is neither pending nor partially_paid
    is final for the monitor: through any number of ticks, whatever the
    ledger answers and whatever the time, its row stays as it is. *)
Theorem settled_row_is_final_through_any_number_of_ticks runs : forall store pid r,
  primaryKey store ->
  Prisma.findUnique pid store = Some r ->
  Monitor.pendingOrPartial r = false ->
  Prisma.findUnique pid (afterTicks runs store) = Some r.
Proof.
  induction runs as [|[env now] rest IH]; intros store pid r Hk Hr Hp; simpl.
  - exact Hr.
  - apply IH; [now apply tick_primaryKey | | exact Hp].
    destruct (tick_row env now store pid r Hk Hr) as [H|[(Hs & _)|(Ha & _)]].
    + exact H.
    + unfold Monitor.stale in Hs. rewrite Hp in Hs. discriminate.
    + unfold Monitor.active in Ha. rewrite Hp in Ha. discriminate.
Qed.

End ManyTicks.

(* ------------------------------------------------------------------ *)
(** ** The verification: a missing row, and the contract invocation *)

Section VerifyEdges.

Variable env : Verify.Env.

Ltac verify_steps :=
  unfold Verify.call, Verify.verify_payment, Verify.initial;
  repeat match goal with
    | H : JsString.truthy _ = _ |- _ => rewrite H
    end;
  repeat first
    [ progress
        (unfold tryCatch, bind, await, Verify.log, Verify.paymentUpdate, modify, ret,
           Prisma.update)
    | progress simpl
    | match goal with
      | H : Prisma.findUnique _ _ = None |- _ => rewrite H
      end ].

(** X12. For a payment id that has no row, with the contract
    configured, [verify_payment] does not return a boolean: it invokes
    the contract three times, pausing 1000 and 2000 ms, whether the
    invocations succeed or fail, and then rejects, the update of the
    missing row having failed each time, without signalling manual
    intervention and leaving the table as it was. *)
Theorem verify_payment_for_an_unknown_payment_rejects_after_three_invocations
    pid tx amt store :
  JsString.truthy (Verify.contractId env) = true ->
  Prisma.findUnique pid store = None ->
  let st := fst (Verify.call env pid tx amt store) in
  (exists e, snd (Verify.call env pid tx amt store) = Throw e)
  /\ Verify.db st = store
  /\ invocations (Verify.events st) = 3%nat
  /\ pauses (Verify.events st) = [1000; 2000]
  /\ (forall e, In e (Verify.events st) ->
        forall reason, e <> ManualIntervention pid reason).
Proof.
  intros Hc Hnone. cbv zeta.
  verify_steps.
  destruct (Verify.invokeVerifyContract env 0%nat pid tx amt) as [r0|e0];
    destruct (Verify.invokeVerifyContract env 1%nat pid tx amt) as [r1|e1];
    destruct (Verify.invokeVerifyContract env 2%nat pid tx amt) as [r2|e2];
    verify_steps;
    (split; [eexists; reflexivity|]); (split; [reflexivity|]); (split; [reflexivity|]);
    (split; [reflexivity|]);
    intros e He reason;
    repeat (destruct He as [<-|He]; [discriminate|]); destruct He.
Qed.

End VerifyEdges.

Section InvokeFacts.

Variable env : Invoke.Env.

Lemma lookups_app a b : lookups (a ++ b) = (lookups a + lookups b)%nat.
Proof. unfold lookups. now rewrite filter_app, length_app. Qed.

Lemma waits_app a b : waits (a ++ b) = (waits a ++ waits b)%list.
Proof. unfold waits. now rewrite flat_map_app. Qed.

Lemma submissions_app a b : submissions (a ++ b) = (submissions a + submissions b)%nat.
Proof. unfold submissions. now rewrite filter_app, length_app. Qed.

Lemma lookups_rounds k hash : lookups (rounds k hash) = k.
Proof. induction k; simpl; [reflexivity|]. unfold lookups in *. simpl. congruence. Qed.

Lemma waits_rounds k hash : waits (rounds k hash) = repeat 3000 k.
Proof. induction k; simpl; [reflexivity|]. unfold waits in *. simpl. congruence. Qed.

Lemma submissions_rounds k hash : submissions (rounds k hash) = 0%nat.
Proof. induction k; simpl; [reflexivity|]. unfold submissions in *. simpl. congruence. Qed.

(** The polling loop makes at most [15 - retries] further lookups, one
    pause before each, and hands back a NOT_FOUND answer only when it
    has made them all. *)
Lemma poll_shape fuel : forall retries hash resp calls,
  (retries + fuel = 15)%nat ->
  exists k,
    (k <= fuel)%nat
    /\ fst (Invoke.poll env fuel retries hash resp calls) = (calls ++ rounds k hash)%list
    /\ forall r, snd (Invoke.poll env fuel retries hash resp calls) = Ok r ->
         Soroban.Get.status r = "NOT_FOUND" -> k = fuel.
Proof.
  induction fuel as [|fuel IH]; intros retries hash resp calls Hsum; simpl.
  - exists 0%nat. split; [lia|]. split; [now rewrite app_nil_r | auto].
  - destruct (String.eqb (Soroban.Get.status resp) "NOT_FOUND") eqn:Hnf; simpl.
    + assert ((retries <? 15)%nat = true) as -> by (apply Nat.ltb_lt; lia).
      unfold bind, Invoke.call, modify, await. simpl.
      destruct (Invoke.getTransaction env (Datatypes.S retries) hash) as [next|e]; simpl.
      * destruct (IH (Datatypes.S retries) hash next
                    ((calls ++ [Wait 3000]) ++ [GetTransaction hash])%list)
          as (k & Hk & Hcalls & Hres); [lia|].
        exists (Datatypes.S k). split; [lia|]. split.
        -- rewrite Hcalls. rewrite <- !app_assoc. reflexivity.
        -- intros r Hr Hs. rewrite (Hres r Hr Hs). reflexivity.
      * exists 1%nat. split; [lia|]. split; [now rewrite <- !app_assoc | discriminate].
    + exists 0%nat. split; [lia|]. split; [now rewrite app_nil_r|].
      unfold ret. simpl. intros r [= <-] Hs.
      rewrite Hs in Hnf. discriminate.
Qed.

Ltac stopped_early :=
  unfold lookups, submissions, waits; simpl;
  (split; [lia|]); (split; [lia|]); (split; [reflexivity|]);
  let r := fresh "r" in let Hr := fresh "Hr" in intros r Hr; discriminate Hr.

(** X13. One invocation submits at most one transaction and looks it up
    at most 16 times, pausing 3000 ms before each lookup but the first;
    a response it returns is never FAILED, and is NOT_FOUND only after
    all 16 lookups. *)
Theorem invocation_looks_a_transaction_up_at_most_sixteen_times pid tx amt :
  let calls := fst (Invoke.invokeVerifyContract env pid tx amt []) in
  (lookups calls <= 16)%nat
  /\ (submissions calls <= 1)%nat
  /\ waits calls = repeat 3000 (pred (lookups calls))
  /\ forall r,
       snd (Invoke.invokeVerifyContract env pid tx amt []) = Ok r ->
       Soroban.Get.status r <> "FAILED"
       /\ submissions calls = 1%nat
       /\ (Soroban.Get.status r = "NOT_FOUND" -> lookups calls = 16%nat).
Proof.
  cbv zeta.
  unfold Invoke.invokeVerifyContract, bind, await, Invoke.call, Invoke.throw, modify, ret.
  destruct (Invoke.newContract env) as [[]|e]; cbn -[Invoke.poll];
    [|stopped_early].
  destruct (JsMath.toBigInt _) as [stroops|e]; cbn -[Invoke.poll];
    [|stopped_early].
  destruct (Invoke.nativeToScVal env pid tx stroops) as [[]|e]; cbn -[Invoke.poll];
    [|stopped_early].
  destruct (Invoke.getAccount env _) as [[]|e]; cbn -[Invoke.poll];
    [|stopped_early].
  destruct (Invoke.prepareTransaction env pid tx stroops) as [[]|e]; cbn -[Invoke.poll];
    [|stopped_early].
  destruct (Invoke.sendTransaction env pid tx stroops) as [sent|e]; cbn -[Invoke.poll];
    [|stopped_early].
  destruct (String.eqb (Soroban.Send.status sent) "ERROR"); cbn -[Invoke.poll];
    [stopped_early|].
  destruct (Invoke.getTransaction env 0%nat (Soroban.Send.hash sent)) as [first|e]; cbn -[Invoke.poll];
    [|stopped_early].
  match goal with
  | |- context [Invoke.poll env 15 0 ?h first ?c] =>
      destruct (poll_shape 15 0 h first c eq_refl) as (k & Hk & Hcalls & Hres);
      destruct (Invoke.poll env 15 0 h first c) as [calls [r|e]]
  end; cbn [fst snd] in Hcalls, Hres; subst calls.
  - destruct (String.eqb (Soroban.Get.status r) "FAILED") eqn:Hf; cbn [fst snd];
      rewrite lookups_app, submissions_app, waits_app,
        lookups_rounds, submissions_rounds, waits_rounds;
      unfold lookups, submissions, waits; simpl;
      (split; [lia|]); (split; [lia|]); (split; [reflexivity|]);
      intros r' Hr'; [discriminate|].
    injection Hr' as <-.
    split; [intros E; rewrite E in Hf; discriminate|].
    split; [reflexivity|].
    intros Hs. rewrite (Hres r eq_refl Hs). reflexivity.
  - cbn [fst snd].
    rewrite lookups_app, submissions_app, waits_app,
      lookups_rounds, submissions_rounds, waits_rounds;
      unfold lookups, submissions, waits; simpl.
    split; [lia|]. split; [lia|]. split; [reflexivity | discriminate].
Qed.

(** The loop stops at the first answer that is not NOT_FOUND, or after
    its last turn. *)
Lemma poll_answers (answers : nat -> Soroban.Get.t) hash n : forall fuel retries calls,
  (retries + fuel = 15)%nat -> (n <= fuel)%nat ->
  (forall j, (retries < j <= retries + n)%nat ->
     Invoke.getTransaction env j hash = Ok (answers j)) ->
  (forall j, (retries <= j < retries + n)%nat ->
     Soroban.Get.status (answers j) = "NOT_FOUND") ->
  (n = fuel \/ Soroban.Get.status (answers (retries + n)%nat) <> "NOT_FOUND") ->
  Invoke.poll env fuel retries hash (answers retries) calls
  = ((calls ++ rounds n hash)%list, Ok (answers (retries + n)%nat)).
Proof.
  induction n as [|n IH]; intros fuel retries calls Hsum Hle Hget Hnf Hend.
  - rewrite Nat.add_0_r, app_nil_r. destruct fuel as [|fuel]; [reflexivity|].
    destruct Hend as [Hend|Hend]; [discriminate|].
    rewrite Nat.add_0_r in Hend. apply String.eqb_neq in Hend.
    simpl. now rewrite Hend.
  - destruct fuel as [|fuel]; [lia|]. simpl.
    rewrite (Hnf retries) by lia. simpl.
    assert ((retries <? 15)%nat = true) as -> by (apply Nat.ltb_lt; lia).
    unfold bind, Invoke.call, modify, await. simpl.
    rewrite (Hget (Datatypes.S retries)) by lia. simpl.
    rewrite (IH fuel (Datatypes.S retries)); try lia.
    + rewrite <- !app_assoc. simpl. repeat f_equal. lia.
    + intros j Hj. apply Hget. lia.
    + intros j Hj. apply Hnf. lia.
    + destruct Hend as [Hend|Hend]; [left; lia|right].
      replace (Datatypes.S retries + n)%nat with (retries + Datatypes.S n)%nat by lia.
      exact Hend.
Qed.

Lemma invoke_submitted pid tx amt stroops sent :
  reachesSubmission env pid tx amt stroops sent ->
  String.eqb (Soroban.Send.status sent) "ERROR" = false ->
  Invoke.invokeVerifyContract env pid tx amt []
  = match Invoke.getTransaction env 0%nat (Soroban.Send.hash sent) with
    | Ok first =>
        match Invoke.poll env 15 0 (Soroban.Send.hash sent) first
                (callsUntilFirstLookup env pid tx stroops sent) with
        | (calls, Ok txResponse) =>
            if String.eqb (Soroban.Get.status txResponse) "FAILED"
            then (calls,
                  Throw (mkError ("Transaction failed on-chain: "
                                  ++ Invoke.stringifyGet env txResponse)))
            else (calls, Ok txResponse)
        | (calls, Throw e) => (calls, Throw e)
        end
    | Throw e => (callsUntilFirstLookup env pid tx stroops sent, Throw e)
    end.
Proof.
  intros (H1 & H2 & H3 & H4 & H5 & H6) Hne.
  unfold Invoke.invokeVerifyContract, bind, await, Invoke.call, Invoke.throw, modify, ret.
  rewrite H1, H2. cbn -[Invoke.poll]. rewrite H3, H4. cbn -[Invoke.poll].
  rewrite H5, H6. cbn -[Invoke.poll]. rewrite Hne. cbn -[Invoke.poll].
  unfold callsUntilFirstLookup.
  destruct (Invoke.getTransaction env 0%nat (Soroban.Send.hash sent)) as [first|e];
    cbn -[Invoke.poll]; [|reflexivity].
  destruct (Invoke.poll env 15 0 _ first _) as [calls [r|e]]; [|reflexivity].
  destruct (String.eqb (Soroban.Get.status r) "FAILED"); reflexivity.
Qed.

(** X14. A transaction that each of the 16 lookups reports NOT_FOUND is
    returned by the invocation like a successful one, after 15 pauses;
    and [verify_payment] then records the payment as verified on
    chain. *)
Theorem transaction_never_found_is_returned_and_recorded_as_verified
    pid tx amt stroops sent answers :
  reachesSubmission env pid tx amt stroops sent ->
  Soroban.Send.status sent <> "ERROR" ->
  (forall j, (j <= 15)%nat ->
     Invoke.getTransaction env j (Soroban.Send.hash sent) = Ok (answers j)
     /\ Soroban.Get.status (answers j) = "NOT_FOUND") ->
  Invoke.invokeVerifyContract env pid tx amt []
  = ((callsUntilFirstLookup env pid tx stroops sent
      ++ rounds 15 (Soroban.Send.hash sent))%list,
     Ok (answers 15%nat))
  /\ forall contractId network store r,
       JsString.truthy contractId = true ->
       network 0%nat = env ->
       Prisma.findUnique pid store = Some r ->
       let out := Verify.call (Invoke.asVerifyEnv contractId network) pid tx amt store in
       snd out = Ok true
       /\ exists r',
            Prisma.findUnique pid (Verify.db (fst out)) = Some r'
            /\ onchain_verified r' = true
            /\ contract_tx_hash r' = Some (Soroban.Get.hash (answers 15%nat)).
Proof.
  intros Hreach Hne Hans.
  assert (Hrun : Invoke.invokeVerifyContract env pid tx amt []
                 = ((callsUntilFirstLookup env pid tx stroops sent
                     ++ rounds 15 (Soroban.Send.hash sent))%list,
                    Ok (answers 15%nat))).
  { rewrite (invoke_submitted pid tx amt stroops sent Hreach)
      by now apply String.eqb_neq.
    rewrite (proj1 (Hans 0%nat ltac:(lia))).
    rewrite (poll_answers answers (Soroban.Send.hash sent) 15 15 0); try lia.
    - simpl. rewrite (proj2 (Hans 15%nat ltac:(lia))). reflexivity.
    - intros j Hj. apply Hans. lia.
    - intros j Hj. apply Hans. lia. }
  split; [exact Hrun|].
  intros contractId network store r Hc Hnet Hr out. subst out.
  erewrite call_first_try with (resp := {| hash := Soroban.Get.hash (answers 15%nat) |});
    [| exact Hc | exact Hr | simpl; rewrite Hnet, Hrun; reflexivity ].
  simpl. split; [reflexivity|].
  rewrite (findUnique_updateMany_same _ _ _ _ Hr).
  eexists; split; [reflexivity|]. split; reflexivity.
Qed.

(** X15. After a submission answered ERROR the invocation throws without
    looking the transaction up.  Otherwise the first lookup (of at most
    16) that answers something other than NOT_FOUND decides: FAILED
    makes the invocation throw, any other answer is returned, after one
    3000 ms pause per earlier lookup. *)
Theorem first_answer_other_than_not_found_decides_the_invocation
    pid tx amt stroops sent answers n :
  reachesSubmission env pid tx amt stroops sent ->
  (Soroban.Send.status sent = "ERROR" ->
     Invoke.invokeVerifyContract env pid tx amt []
     = ([GetAccount (Invoke.adminPublicKey env); PrepareTransaction pid tx stroops;
         SendTransaction pid tx stroops],
        Throw (mkError ("Transaction submission failed: "
                        ++ Invoke.stringifySend env sent))))
  /\ (Soroban.Send.status sent <> "ERROR" ->
      (n <= 15)%nat ->
      (forall j, (j <= n)%nat ->
         Invoke.getTransaction env j (Soroban.Send.hash sent) = Ok (answers j)) ->
      (forall j, (j < n)%nat -> Soroban.Get.status (answers j) = "NOT_FOUND") ->
      Soroban.Get.status (answers n) <> "NOT_FOUND" ->
      Invoke.invokeVerifyContract env pid tx amt []
      = ((callsUntilFirstLookup env pid tx stroops sent
          ++ rounds n (Soroban.Send.hash sent))%list,
         if String.eqb (Soroban.Get.status (answers n)) "FAILED"
         then Throw (mkError ("Transaction failed on-chain: "
                              ++ Invoke.stringifyGet env (answers n)))
         else Ok (answers n))).
Proof.
  intros Hreach. split.
  - intros Herr. destruct Hreach as (H1 & H2 & H3 & H4 & H5 & H6).
    unfold Invoke.invokeVerifyContract, bind, await, Invoke.call, Invoke.throw, modify, ret.
    rewrite H1, H2. cbn -[Invoke.poll]. rewrite H3, H4. cbn -[Invoke.poll].
    rewrite H5, H6. cbn -[Invoke.poll]. rewrite Herr. reflexivity.
  - intros Hne Hn Hget Hnf Hend.
    rewrite (invoke_submitted pid tx amt stroops sent Hreach)
      by now apply String.eqb_neq.
    rewrite (Hget 0%nat) by lia.
    rewrite (poll_answers answers (Soroban.Send.hash sent) n 15 0); try lia.
    + simpl. destruct (String.eqb (Soroban.Get.status (answers n)) "FAILED"); reflexivity.
    + intros j Hj. apply Hget. lia.
    + intros j Hj. apply Hnf. lia.
    + now right.
Qed.

(** X16. An amount that [parseFloat] reads as NaN makes the conversion
    to stroops throw a RangeError before any call to the RPC server;
    [verify_payment] then fails all three attempts, stores that error's
    message in [verification_error] and returns false. *)
Theorem amount_that_is_not_a_number_fails_every_attempt_before_any_rpc_call
    pid tx amt :
  Invoke.newContract env = Ok tt ->
  Invoke.parseFloat env amt = JsNumber.NaN ->
  let rangeError :=
    "The number NaN cannot be converted to a BigInt because it is not an integer" in
  (forall calls,
     Invoke.invokeVerifyContract env pid tx amt calls = (calls, Throw (mkError rangeError)))
  /\ forall contractId store r,
       JsString.truthy contractId = true ->
       Prisma.findUnique pid store = Some r ->
       let out := Verify.call (Invoke.asVerifyEnv contractId (fun _ => env)) pid tx amt store in
       snd out = Ok false
       /\ invocations (Verify.events (fst out)) = 3%nat
       /\ exists r',
            Prisma.findUnique pid (Verify.db (fst out)) = Some r'
            /\ verification_error r' = Some rangeError
            /\ onchain_verified r' = onchain_verified r.
Proof.
  intros Hnew Hnan rangeError.
  assert (Hrun : forall calls,
            Invoke.invokeVerifyContract env pid tx amt calls
            = (calls, Throw (mkError rangeError))).
  { intros calls.
    unfold Invoke.invokeVerifyContract, bind, await.
    rewrite Hnew, Hnan. reflexivity. }
  split; [exact Hrun|].
  intros contractId store r Hc Hr out. subst out.
  erewrite call_exhausted with (e0 := mkError rangeError) (e1 := mkError rangeError)
                               (e2 := mkError rangeError);
    [| exact Hc | exact Hr | simpl; now rewrite Hrun ..].
  simpl. split; [reflexivity|]. split; [reflexivity|].
  rewrite (findUnique_updateMany_same _ _ _ _ Hr).
  eexists; split; [reflexivity|]. split; reflexivity.
Qed.

End InvokeFacts.

(* ------------------------------------------------------------------ *)
(** ** The audit log *)

Section JsonFacts.

Lemma persist_Obj fields : Json.persist (Json.Obj fields) = Json.Obj (persistFields fields).
Proof.
  reflexivity.
Qed.

Lemma get_setField_same k x fields : Json.get k (Json.Obj (Json.setField k x fields)) = x.
Proof.
  unfold Json.get. induction fields as [|kv rest IH]; simpl.
  - unfold Json.hasKey. simpl. now rewrite String.eqb_refl.
  - destruct (Json.hasKey k kv) eqn:E; simpl.
    + unfold Json.hasKey at 1. simpl. now rewrite String.eqb_refl.
    + rewrite E. exact IH.
Qed.

Lemma get_setField_other k k' x fields :
  k <> k' ->
  Json.get k (Json.Obj (Json.setField k' x fields)) = Json.get k (Json.Obj fields).
Proof.
  intros Hne. unfold Json.get. induction fields as [|kv rest IH]; simpl.
  - unfold Json.hasKey. simpl. apply String.eqb_neq in Hne.
    rewrite String.eqb_sym. now rewrite Hne.
  - destruct (Json.hasKey k' kv) eqn:E; simpl.
    + unfold Json.hasKey in *. simpl. apply String.eqb_eq in E.
      assert (String.eqb k' k = false) as -> by (apply String.eqb_neq; congruence).
      assert (String.eqb (fst kv) k = false) as -> by (apply String.eqb_neq; congruence).
      reflexivity.
    + destruct (Json.hasKey k kv); [reflexivity | exact IH].
Qed.

Lemma find_none_persistFields k fields :
  find (Json.hasKey k) fields = None -> find (Json.hasKey k) (persistFields fields) = None.
Proof.
  induction fields as [|[k0 x] rest IH]; simpl; [auto|].
  unfold Json.hasKey at 1. simpl.
  destruct (String.eqb k0 k) eqn:E; [discriminate|].
  intros H. destruct x; simpl; unfold Json.hasKey at 1; simpl; rewrite ?E; auto.
Qed.

(** Reading a field of what the column kept is keeping what the field
    held. *)
Lemma get_persist k fields :
  Json.distinctKeys fields = true ->
  Json.get k (Json.persist (Json.Obj fields))
  = Json.persist (Json.get k (Json.Obj fields)).
Proof.
  rewrite persist_Obj. unfold Json.get.
  induction fields as [|[k0 x] rest IH]; simpl; [reflexivity|].
  intros Hd. apply andb_prop in Hd. destruct Hd as [Hfresh Hd].
  apply negb_true_iff in Hfresh.
  unfold Json.hasKey at 2. simpl.
  destruct (String.eqb k0 k) eqn:E.
  - apply String.eqb_eq in E. subst k0.
    assert (Hnone : find (Json.hasKey k) (persistFields rest) = None).
    { apply find_none_persistFields.
      destruct (find (Json.hasKey k) rest) as [kv|] eqn:F; [|reflexivity].
      apply find_some in F. destruct F as [Hin Hk].
      assert (existsb (Json.hasKey k) rest = true)
        by (apply existsb_exists; eauto).
      congruence. }
    destruct x; simpl; rewrite ?Hnone; try reflexivity;
      unfold Json.hasKey at 1; simpl; rewrite String.eqb_refl; reflexivity.
  - destruct x; simpl; try (apply IH; exact Hd);
      unfold Json.hasKey at 1; simpl; rewrite E; apply IH; exact Hd.
Qed.

Lemma existsb_hasKey_setField k k' x fields :
  existsb (Json.hasKey k) (Json.setField k' x fields)
  = existsb (Json.hasKey k) fields || String.eqb k' k.
Proof.
  induction fields as [|kv rest IH]; simpl.
  - unfold Json.hasKey. simpl. now rewrite orb_false_r.
  - destruct (Json.hasKey k' kv) eqn:E; simpl.
    + unfold Json.hasKey in *. simpl. apply String.eqb_eq in E. rewrite E.
      destruct (String.eqb k' k), (existsb _ rest); reflexivity.
    + rewrite IH. now rewrite orb_assoc.
Qed.

Lemma distinctKeys_setField k x fields :
  Json.distinctKeys fields = true -> Json.distinctKeys (Json.setField k x fields) = true.
Proof.
  induction fields as [|kv rest IH]; simpl; [reflexivity|].
  intros Hd. apply andb_prop in Hd. destruct Hd as [Hfresh Hd].
  destruct (Json.hasKey k kv) eqn:E; simpl.
  - unfold Json.hasKey in E. apply String.eqb_eq in E. rewrite <- E.
    now rewrite Hfresh, Hd.
  - rewrite existsb_hasKey_setField, IH by exact Hd.
    apply negb_true_iff in Hfresh. rewrite Hfresh. simpl.
    unfold Json.hasKey in E. rewrite String.eqb_sym in E.
    destruct (String.eqb k (fst kv)) eqn:E'; [|reflexivity].
    rewrite String.eqb_sym in E'. congruence.
Qed.

End JsonFacts.

Ltac audit_run :=
  repeat first
    [ progress
        (unfold Audit.createAuditLog, Audit.updateSweepCompletion, Audit.safeAuditLog,
           Audit.auditLogCreate, Audit.auditLogFindUnique, Audit.auditLogUpdate,
           Audit.query, Audit.emitStructuredLog, Audit.emit,
           tryCatch, bind, await, modify, ret)
    | progress cbn [Audit.safeAuditLoop Audit.maxAttempts Nat.ltb Nat.leb fst snd
                    Audit.logs Audit.queries Audit.output pred]
    | match goal with
      | H : Audit.connection _ _ = _ |- _ => rewrite H
      | H : find _ _ = _ |- _ => rewrite H
      end ].

Section AuditFacts.

Variable env : Audit.Env.

Lemma create_first_try params st :
  Audit.connection env (Audit.queries st) = None ->
  Audit.createAuditLog env params st
  = (let row := createdRow env params (Audit.queries st) in
     {| Audit.logs := (Audit.logs st ++ [row])%list;
        Audit.queries := Datatypes.S (Audit.queries st);
        Audit.output := (Audit.output st ++ [Audit.StructuredLog "info" row])%list |},
     Ok (Some (createdRow env params (Audit.queries st)))).
Proof. intros C0. audit_run. reflexivity. Qed.

Lemma create_second_try params st e0 :
  Audit.connection env (Audit.queries st) = Some e0 ->
  Audit.connection env (Datatypes.S (Audit.queries st)) = None ->
  Audit.createAuditLog env params st
  = (let row := createdRow env params (Datatypes.S (Audit.queries st)) in
     {| Audit.logs := (Audit.logs st ++ [row])%list;
        Audit.queries := Datatypes.S (Datatypes.S (Audit.queries st));
        Audit.output :=
          (Audit.output st
           ++ [Audit.LoggerError (createContext params) 1 (Audit.errorMessage e0);
               Audit.Delay 200;
               Audit.StructuredLog "info" row])%list |},
     Ok (Some (createdRow env params (Datatypes.S (Audit.queries st))))).
Proof.
  intros C0 C1. audit_run. cbv zeta. rewrite <- !app_assoc. reflexivity.
Qed.

Lemma create_third_try params st e0 e1 :
  Audit.connection env (Audit.queries st) = Some e0 ->
  Audit.connection env (Datatypes.S (Audit.queries st)) = Some e1 ->
  Audit.connection env (Datatypes.S (Datatypes.S (Audit.queries st))) = None ->
  Audit.createAuditLog env params st
  = (let row := createdRow env params (Datatypes.S (Datatypes.S (Audit.queries st))) in
     {| Audit.logs := (Audit.logs st ++ [row])%list;
        Audit.queries := Datatypes.S (Datatypes.S (Datatypes.S (Audit.queries st)));
        Audit.output :=
          (Audit.output st
           ++ [Audit.LoggerError (createContext params) 1 (Audit.errorMessage e0);
               Audit.Delay 200;
               Audit.LoggerError (createContext params) 2 (Audit.errorMessage e1);
               Audit.Delay 400;
               Audit.StructuredLog "info" row])%list |},
     Ok (Some (createdRow env params (Datatypes.S (Datatypes.S (Audit.queries st)))))).
Proof.
  intros C0 C1 C2. audit_run. cbv zeta. rewrite <- !app_assoc. reflexivity.
Qed.

Lemma create_exhausted params st e0 e1 e2 :
  Audit.connection env (Audit.queries st) = Some e0 ->
  Audit.connection env (Datatypes.S (Audit.queries st)) = Some e1 ->
  Audit.connection env (Datatypes.S (Datatypes.S (Audit.queries st))) = Some e2 ->
  Audit.createAuditLog env params st
  = ({| Audit.logs := Audit.logs st;
        Audit.queries := Datatypes.S (Datatypes.S (Datatypes.S (Audit.queries st)));
        Audit.output :=
          (Audit.output st
           ++ [Audit.LoggerError (createContext params) 1 (Audit.errorMessage e0);
               Audit.Delay 200;
               Audit.LoggerError (createContext params) 2 (Audit.errorMessage e1);
               Audit.Delay 400;
               Audit.LoggerError (createContext params) 3 (Audit.errorMessage e2);
               Audit.Metric "audit_log_failure" (createContext params)])%list |},
     Ok None).
Proof.
  intros C0 C1 C2. audit_run. rewrite <- !app_assoc. reflexivity.
Qed.

Lemma last_after {A} (a b : list A) (x d : A) : last (a ++ x :: b) d = last (x :: b) d.
Proof.
  induction a as [|y a IH]; [reflexivity|].
  simpl app. rewrite <- IH. simpl. destruct (a ++ x :: b)%list eqn:E; [|reflexivity].
  destruct a; discriminate.
Qed.

Lemma delays_app a b : delays (a ++ b) = (delays a ++ delays b)%list.
Proof. unfold delays. now rewrite flat_map_app. Qed.

(** X17. [createAuditLog] never throws.  It tries the insert up to three
    times, pausing 200 ms and then 400 ms between tries; the first try
    that succeeds adds exactly one row with the given fields and returns
    it; after three failed tries it returns null, leaves the table as it
    was, and counts an [audit_log_failure] metric last. *)
Theorem createAuditLog_never_throws_and_gives_up_after_three_failed_inserts params st :
  let out := Audit.createAuditLog env params st in
  let q := Audit.queries st in
  (exists r, snd out = Ok r)
  /\ (forall k,
        (k < 3)%nat ->
        (forall j, (j < k)%nat -> Audit.connection env (q + j)%nat <> None) ->
        Audit.connection env (q + k)%nat = None ->
        snd out = Ok (Some (createdRow env params (q + k)%nat))
        /\ Audit.logs (fst out) = (Audit.logs st ++ [createdRow env params (q + k)%nat])%list
        /\ delays (Audit.output (fst out))
           = (delays (Audit.output st) ++ firstn k [200; 400])%list)
  /\ ((forall j, (j < 3)%nat -> Audit.connection env (q + j)%nat <> None) ->
      snd out = Ok None
      /\ Audit.logs (fst out) = Audit.logs st
      /\ delays (Audit.output (fst out)) = (delays (Audit.output st) ++ [200; 400])%list
      /\ last (Audit.output (fst out)) (Audit.Delay 0)
         = Audit.Metric "audit_log_failure" (createContext params)).
Proof.
  cbv zeta.
  assert (E0 : (Audit.queries st + 0 = Audit.queries st)%nat) by lia.
  assert (E1 : (Audit.queries st + 1 = Datatypes.S (Audit.queries st))%nat) by lia.
  assert (E2 : (Audit.queries st + 2
                = Datatypes.S (Datatypes.S (Audit.queries st)))%nat) by lia.
  destruct (Audit.connection env (Audit.queries st)) as [e0|] eqn:C0;
    [destruct (Audit.connection env (Datatypes.S (Audit.queries st))) as [e1|] eqn:C1;
     [destruct (Audit.connection env (Datatypes.S (Datatypes.S (Audit.queries st))))
        as [e2|] eqn:C2|]|];
    [ rewrite (create_exhausted params st e0 e1 e2 C0 C1 C2)
    | rewrite (create_third_try params st e0 e1 C0 C1 C2)
    | rewrite (create_second_try params st e0 C0 C1)
    | rewrite (create_first_try params st C0) ];
    cbn [fst snd Audit.logs Audit.output];
    (split; [eexists; reflexivity|]);
    (split;
     [ intros k Hk Hfail Hok;
       assert (H0 : (0 < k)%nat -> Audit.connection env (Audit.queries st) <> None)
         by (intros; rewrite <- E0; apply Hfail; lia);
       assert (H1 : (1 < k)%nat ->
                    Audit.connection env (Datatypes.S (Audit.queries st)) <> None)
         by (intros; rewrite <- E1; apply Hfail; lia);
       destruct k as [|[|[|k]]]; [| | |lia];
       rewrite ?E0, ?E1, ?E2 in Hok;
       try congruence;
       try (exfalso; apply H0; [lia | assumption]);
       try (exfalso; apply H1; [lia | assumption]);
       rewrite ?E0, ?E1, ?E2, delays_app;
       repeat split; simpl; now rewrite ?app_nil_r
     | intros Hfail;
       pose proof (Hfail 0%nat ltac:(lia)) as F0;
       pose proof (Hfail 1%nat ltac:(lia)) as F1;
       pose proof (Hfail 2%nat ltac:(lia)) as F2;
       rewrite ?E0, ?E1, ?E2 in F0, F1, F2; try congruence;
       rewrite delays_app; repeat split;
       rewrite last_after; reflexivity ]).
Qed.

(** *** Completing a sweep's audit entry *)

Lemma completion_first_try i status statistics failureReason st r :
  Audit.connection env (Audit.queries st) = None ->
  Audit.connection env (Datatypes.S (Audit.queries st)) = None ->
  find (Audit.hasId i) (Audit.logs st) = Some r ->
  Audit.updateSweepCompletion env i status statistics failureReason st
  = (let details :=
       Audit.sweepCompletionDetails (AuditLog.details r) status statistics failureReason in
     let action := completionAction status in
     {| Audit.logs :=
          map (fun x => if Audit.hasId i x then Audit.rewrite details action x else x)
            (Audit.logs st);
        Audit.queries := Datatypes.S (Datatypes.S (Audit.queries st));
        Audit.output :=
          (Audit.output st
           ++ [Audit.StructuredLog
                 (if String.eqb status "completed" then "info" else "warn")
                 (Audit.rewrite details action r)])%list |},
     Ok (Some (Audit.rewrite
                 (Audit.sweepCompletionDetails (AuditLog.details r) status statistics
                    failureReason)
                 (completionAction status) r))).
Proof. intros C0 C1 Hr. audit_run. reflexivity. Qed.

(** X18. Completing a sweep entry whose id is not in the table returns
    null after three lookups, with the two pauses and the failure
    metric, and writes nothing. *)
Theorem completing_an_unknown_audit_entry_returns_null_and_writes_nothing
    i status statistics failureReason st :
  find (Audit.hasId i) (Audit.logs st) = None ->
  let out := Audit.updateSweepCompletion env i status statistics failureReason st in
  snd out = Ok None
  /\ Audit.logs (fst out) = Audit.logs st
  /\ Audit.queries (fst out) = (Audit.queries st + 3)%nat
  /\ delays (Audit.output (fst out)) = (delays (Audit.output st) ++ [200; 400])%list
  /\ last (Audit.output (fst out)) (Audit.Delay 0)
     = Audit.Metric "audit_log_failure" (completionContext i).
Proof.
  intros Hnone. cbv zeta.
  destruct (Audit.connection env (Audit.queries st)) as [e0|] eqn:C0;
    destruct (Audit.connection env (Datatypes.S (Audit.queries st))) as [e1|] eqn:C1;
    destruct (Audit.connection env (Datatypes.S (Datatypes.S (Audit.queries st))))
      as [e2|] eqn:C2;
    audit_run;
    (split; [reflexivity|]); (split; [reflexivity|]); (split; [lia|]);
    rewrite <- !app_assoc, delays_app;
    (split; [reflexivity|]);
    cbn [app]; rewrite last_after; reflexivity.
Qed.

Lemma find_rewritten i (f : AuditLog.t -> AuditLog.t) l r :
  (forall x, AuditLog.id (f x) = AuditLog.id x) ->
  find (Audit.hasId i) l = Some r ->
  find (Audit.hasId i) (map (fun x => if Audit.hasId i x then f x else x) l) = Some (f r).
Proof.
  intros Hid. induction l as [|x l IH]; simpl; [discriminate|].
  destruct (Audit.hasId i x) eqn:E.
  - intros [= ->]. unfold Audit.hasId in *. rewrite Hid, E. reflexivity.
  - rewrite E. exact IH.
Qed.

Lemma rewritten_others i (f : AuditLog.t -> AuditLog.t) l x :
  In x l -> AuditLog.id x <> i ->
  In x (map (fun x => if Audit.hasId i x then f x else x) l).
Proof.
  intros Hin Hne. apply in_map_iff. exists x. split; [|exact Hin].
  unfold Audit.hasId. apply String.eqb_neq in Hne. now rewrite Hne.
Qed.

(** X19. When the database answers, completing a sweep entry rewrites
    that entry in place: the table keeps its length and its other rows;
    the entry keeps its id, admin, entity and creation time; its action
    type becomes [sweep_complete] for the status "completed" and
    [sweep_fail] for any other (the [sweep_trigger] action is
    overwritten); its details carry the new status, statistics and
    failure reason (none when none is given), and every other field
    they had. *)
Theorem completion_rewrites_the_entry_in_place_and_keeps_its_other_details
    i status statistics failureReason st r fields :
  Audit.connection env (Audit.queries st) = None ->
  Audit.connection env (Datatypes.S (Audit.queries st)) = None ->
  find (Audit.hasId i) (Audit.logs st) = Some r ->
  AuditLog.details r = Json.Obj fields ->
  Json.distinctKeys fields = true ->
  Json.persist (Json.Obj fields) = Json.Obj fields ->
  let out := Audit.updateSweepCompletion env i status statistics failureReason st in
  exists r',
    snd out = Ok (Some r')
    /\ find (Audit.hasId i) (Audit.logs (fst out)) = Some r'
    /\ List.length (Audit.logs (fst out)) = List.length (Audit.logs st)
    /\ (forall x, In x (Audit.logs st) -> AuditLog.id x <> i -> In x (Audit.logs (fst out)))
    /\ AuditLog.id r' = AuditLog.id r
    /\ AuditLog.admin_id r' = AuditLog.admin_id r
    /\ AuditLog.entity_type r' = AuditLog.entity_type r
    /\ AuditLog.entity_id r' = AuditLog.entity_id r
    /\ AuditLog.created_at r' = AuditLog.created_at r
    /\ AuditLog.action_type r'
       = (if String.eqb status "completed" then sweep_complete else sweep_fail)
    /\ Json.get "status" (AuditLog.details r') = Json.Str status
    /\ Json.get "statistics" (AuditLog.details r')
       = Json.persist (Audit.statisticsValue statistics)
    /\ Json.get "failure_reason" (AuditLog.details r') = Json.ofOption failureReason
    /\ (forall k, k <> "status" -> k <> "statistics" -> k <> "failure_reason" ->
          Json.get k (AuditLog.details r') = Json.get k (AuditLog.details r)).
Proof.
  intros C0 C1 Hr Hd Hkeys Hstored. cbv zeta.
  rewrite (completion_first_try i status statistics failureReason st r C0 C1 Hr).
  cbn [fst snd Audit.logs].
  eexists. split; [reflexivity|].
  split; [apply find_rewritten; [reflexivity | exact Hr]|].
  split; [apply length_map|].
  split; [intros x Hin Hne; now apply rewritten_others|].
  cbn [Audit.rewrite AuditLog.id AuditLog.admin_id AuditLog.entity_type
       AuditLog.entity_id AuditLog.created_at AuditLog.action_type AuditLog.details].
  do 6 (split; [reflexivity|]).
  rewrite Hd. unfold Audit.sweepCompletionDetails. cbn [Json.spread].
  assert (Hdk : Json.distinctKeys
                  (Json.setField "failure_reason" (Json.ofOption failureReason)
                     (Json.setField "statistics" (Audit.statisticsValue statistics)
                        (Json.setField "status" (Json.Str status) fields))) = true)
    by (repeat apply distinctKeys_setField; exact Hkeys).
  repeat split.
  - rewrite (get_persist _ _ Hdk).
    rewrite get_setField_other by discriminate.
    rewrite get_setField_other by discriminate.
    now rewrite get_setField_same.
  - rewrite (get_persist _ _ Hdk).
    rewrite get_setField_other by discriminate.
    now rewrite get_setField_same.
  - rewrite (get_persist _ _ Hdk).
    rewrite get_setField_same. now destruct failureReason.
  - intros k H1 H2 H3.
    rewrite (get_persist _ _ Hdk).
    rewrite !get_setField_other by congruence.
    rewrite <- (get_persist _ _ Hkeys). now rewrite Hstored.
Qed.

(** *** Sensitive configuration values *)

(** X20. For a configuration change flagged sensitive, the table, the
    output and the result do not depend on the previous and the new
    value: both are stored as "***REDACTED***".  Without the flag, or
    with the flag false, the two values are stored as given. *)
Theorem sensitive_config_values_are_kept_out_of_the_table_and_the_log
    adminId configKey previousValue newValue st :
  Audit.connection env (Audit.queries st) = None ->
  (forall otherPrevious otherNew,
     Audit.logConfigChange env adminId configKey previousValue newValue (Some true) st
     = Audit.logConfigChange env adminId configKey otherPrevious otherNew (Some true) st)
  /\ (exists row,
        snd (Audit.logConfigChange env adminId configKey previousValue newValue
               (Some true) st) = Ok (Some row)
        /\ Json.get "previous_value" (AuditLog.details row) = Json.Str "***REDACTED***"
        /\ Json.get "new_value" (AuditLog.details row) = Json.Str "***REDACTED***"
        /\ Json.get "is_sensitive" (AuditLog.details row) = Json.Bool true)
  /\ (forall flag,
        flag = None \/ flag = Some false ->
        exists row,
          snd (Audit.logConfigChange env adminId configKey previousValue newValue flag st)
          = Ok (Some row)
          /\ Json.get "previous_value" (AuditLog.details row) = Json.Str previousValue
          /\ Json.get "new_value" (AuditLog.details row) = Json.Str newValue
          /\ Json.get "is_sensitive" (AuditLog.details row) = Json.Bool false).
Proof.
  intros C0. split; [reflexivity|]. split.
  - unfold Audit.logConfigChange. rewrite (create_first_try _ st C0).
    eexists. split; [reflexivity|]. repeat split.
  - intros flag [-> | ->]; unfold Audit.logConfigChange;
      rewrite (create_first_try _ st C0);
      (eexists; split; [reflexivity|]); repeat split.
Qed.

(** *** From the trigger to the completion *)

Lemma find_fresh_last i (l : list AuditLog.t) row :
  find (Audit.hasId i) l = None -> AuditLog.id row = i ->
  find (Audit.hasId i) (l ++ [row]) = Some row.
Proof.
  intros Hnone Hid. induction l as [|x l IH]; simpl in *.
  - unfold Audit.hasId. rewrite Hid, String.eqb_refl. reflexivity.
  - destruct (Audit.hasId i x); [discriminate | now apply IH].
Qed.

Lemma rewrite_fresh_last i (f : AuditLog.t -> AuditLog.t) (l : list AuditLog.t) row :
  find (Audit.hasId i) l = None -> AuditLog.id row = i ->
  map (fun x => if Audit.hasId i x then f x else x) (l ++ [row]) = (l ++ [f row])%list.
Proof.
  intros Hnone Hid. induction l as [|x l IH]; simpl in *.
  - unfold Audit.hasId. rewrite Hid, String.eqb_refl. reflexivity.
  - destruct (Audit.hasId i x); [discriminate|]. now rewrite IH.
Qed.

(** X21. With the database answering and a fresh id, logging a sweep
    trigger and then completing the entry it returned leaves exactly one
    new row: the trigger's row, with its id, admin and entity, the
    completion's action type and status, and the trigger's sweep type
    and reason still in its details. *)
Theorem sweep_audit_entry_is_one_row_from_trigger_to_completion
    adminId sweepType reason status statistics failureReason st :
  Audit.connection env (Audit.queries st) = None ->
  Audit.connection env (Datatypes.S (Audit.queries st)) = None ->
  Audit.connection env (Datatypes.S (Datatypes.S (Audit.queries st))) = None ->
  find (Audit.hasId (Audit.cuid env (Audit.queries st))) (Audit.logs st) = None ->
  exists row row',
    snd (Audit.logSweepTrigger env adminId sweepType reason st) = Ok (Some row)
    /\ AuditLog.action_type row = sweep_trigger
    /\ let triggered := fst (Audit.logSweepTrigger env adminId sweepType reason st) in
       let out := Audit.updateSweepCompletion env (AuditLog.id row) status statistics
                    failureReason triggered in
       snd out = Ok (Some row')
       /\ Audit.logs (fst out) = (Audit.logs st ++ [row'])%list
       /\ AuditLog.id row' = AuditLog.id row
       /\ AuditLog.admin_id row' = adminId
       /\ AuditLog.entity_type row' = sweep_operation
       /\ AuditLog.entity_id row' = "sweep_" ++ JsString.ofZ (Audit.dateNow env)
       /\ AuditLog.action_type row'
          = (if String.eqb status "completed" then sweep_complete else sweep_fail)
       /\ Json.get "sweep_type" (AuditLog.details row') = Json.Str sweepType
       /\ Json.get "trigger_reason" (AuditLog.details row') = Json.Str reason
       /\ Json.get "status" (AuditLog.details row') = Json.Str status
       /\ Json.get "failure_reason" (AuditLog.details row') = Json.ofOption failureReason.
Proof.
  intros C0 C1 C2 Hfresh.
  unfold Audit.logSweepTrigger. rewrite (create_first_try _ st C0). cbv zeta.
  match goal with
  | |- context [Ok (Some ?r)] => set (row := r)
  end.
  cbn [fst snd].
  exists row. eexists. split; [reflexivity|]. split; [reflexivity|].
  erewrite completion_first_try;
    [| exact C1 | exact C2 | cbn [Audit.logs]; now apply find_fresh_last ].
  cbn [fst snd Audit.logs].
  split; [reflexivity|].
  split; [now apply rewrite_fresh_last|].
  do 5 (split; [reflexivity|]).
  unfold Json.get. destruct statistics, failureReason; simpl; repeat split.
Qed.

End AuditFacts.

(* ------------------------------------------------------------------ *)
(** ** The sweep route *)

Section RouteFacts.

Variable penv : SweepRoute.ProcessEnv.
Variable senv : Sweep.Env.

Lemma requireAdminSecret_next req :
  SweepRoute.requireAdminSecret penv req = None <-> mayTrigger penv req.
Proof.
  unfold SweepRoute.requireAdminSecret, mayTrigger, SweepRoute.providedIs,
    JsString.truthyOpt, JsString.truthy, JsString.strictEqOpt, orElse.
  destruct (SweepRoute.ADMIN_INTERNAL_SECRET penv) as [secret|].
  - destruct (String.eqb_spec secret "") as [->|Hset]; cbn [negb].
    + destruct (SweepRoute.NODE_ENV penv) as [n|];
        [destruct (String.eqb_spec "production" n) as [<-|Hn]|].
      * split; [discriminate|].
        intros [(s & [= <-] & Hne & _)|[_ H]]; congruence.
      * split; [|reflexivity]. intros _. right. split; [now right|congruence].
      * split; [|reflexivity]. intros _. right. split; [now right|discriminate].
    + destruct (SweepRoute.x_admin_secret req) as [[s|l]|];
        [destruct (String.eqb_spec s secret) as [->|Hs]| |]; cbn [negb].
      * split; [|reflexivity]. intros _. left. eauto.
      * split; [discriminate|].
        intros [(s' & [= <-] & _ & [= H])|[[H|[= H]] _]]; congruence.
      * split; [discriminate|].
        intros [(s' & [= <-] & _ & H)|[[H|[= H]] _]]; congruence.
      * split; [discriminate|].
        intros [(s' & [= <-] & _ & H)|[[H|[= H]] _]]; congruence.
  - cbn [negb].
    destruct (SweepRoute.NODE_ENV penv) as [n|];
      [destruct (String.eqb_spec "production" n) as [<-|Hn]|].
    + split; [discriminate|].
      intros [(s & H & _)|[_ H]]; congruence.
    + split; [|reflexivity]. intros _. right. split; [now left|congruence].
    + split; [|reflexivity]. intros _. right. split; [now left|discriminate].
Qed.

(** X22. [POST /run] runs the sweep exactly for a caller who may trigger
    it: one presenting the configured, non-empty secret, or anyone when
    no secret is configured and NODE_ENV is not "production".  Any other
    request is answered 401 or 503 with no audit entry, no ledger call
    and no table access; and an answer of 200 or 500 means that the
    caller was allowed. *)
Theorem sweep_is_run_only_for_a_caller_who_may_trigger_it req store :
  let out := SweepRoute.postRun penv senv req store in
  (mayTrigger penv req -> out = SweepRoute.handleRun senv req store)
  /\ (~ mayTrigger penv req ->
      fst out = Sweep.initial store
      /\ (SweepRoute.statusCode (snd out) = 401 \/ SweepRoute.statusCode (snd out) = 503))
  /\ (SweepRoute.statusCode (snd out) = 200 \/ SweepRoute.statusCode (snd out) = 500 ->
      mayTrigger penv req).
Proof.
  cbv zeta. unfold SweepRoute.postRun.
  pose proof (requireAdminSecret_next req) as Hiff.
  destruct (SweepRoute.requireAdminSecret penv req) as [refusal|] eqn:Hreq.
  - assert (Hcode : SweepRoute.statusCode refusal = 401
                    \/ SweepRoute.statusCode refusal = 503).
    { unfold SweepRoute.requireAdminSecret in Hreq.
      destruct (negb _) in Hreq.
      - destruct (JsString.strictEqOpt _ _) in Hreq; [|discriminate].
        injection Hreq as <-. now right.
      - destruct (negb _) in Hreq; [|discriminate].
        injection Hreq as <-. now left. }
    split; [intros H; apply Hiff in H; discriminate|].
    split; [intros _; split; [reflexivity | exact Hcode]|].
    simpl. intros [H|H]; destruct Hcode as [H'|H']; rewrite H' in H; discriminate.
  - split; [reflexivity|]. split; [intros H; exfalso; apply H, Hiff; reflexivity|].
    intros _. now apply Hiff.
Qed.

Lemma dry_run_keeps_table options store :
  Sweep.dryRunOf options = true ->
  Sweep.db (fst (Sweep.run senv options store)) = store
  /\ forall e, In e (Sweep.events (fst (Sweep.run senv options store))) ->
       ~ isSubmitTransaction e /\ ~ isPaymentUpdate e.
Proof.
  intros Hdry.
  destruct (Sweep.getUnsweptPaidPayments (Sweep.resolveLimit senv options) store)
    as [payments|e] eqn:Hsel.
  - destruct (run_selected senv options store payments Hsel)
      as (audit & Haudit & Hdb & Hev & _).
    rewrite Hdry in *.
    destruct (forOf_sweep_frame senv true payments (loopStart options store))
      as (_ & _ & _ & Hevs & Hd & _).
    destruct (Hd eq_refl) as [Hdb' _].
    split; [rewrite Hdb, Hdb'; reflexivity|].
    intros ev Hin. rewrite Hev in Hin. apply in_app_or in Hin.
    destruct Hin as [Hin|Hin].
    + destruct (Hevs ev Hin) as [H|(q & _ & [H|(H & _)])]; try discriminate.
      * simpl in H. destruct H as [<-|[]].
        split; intros (? & ? & H); try destruct H as (? & ? & H); discriminate.
      * subst ev.
        split; intros (? & ? & H); try destruct H as (? & ? & H); discriminate.
    + rewrite Forall_forall in Haudit.
      destruct (Haudit ev Hin) as (? & ? & ? & ? & ? & ->).
      split; intros (? & ? & H); try destruct H as (? & ? & H); discriminate.
  - rewrite (run_rejected senv options store e Hsel). simpl.
    split; [reflexivity|].
    intros ev [<-|[]].
    split; intros (? & ? & H); try destruct H as (? & ? & H); discriminate.
Qed.

(** X23. A request whose body has [dry_run] equal to the boolean true
    changes no row and makes no submission, whatever else it carries;
    any other [dry_run] (absent, a string, a number) makes an allowed
    request a real sweep, answered "Sweep complete". *)
Theorem only_the_boolean_true_asks_for_a_dry_run_and_a_dry_run_changes_nothing
    req store :
  let out := SweepRoute.postRun penv senv req store in
  (Json.get "dry_run" (SweepRoute.body req) = Json.Bool true ->
     Sweep.db (fst out) = store
     /\ forall e, In e (Sweep.events (fst out)) ->
          ~ isSubmitTransaction e /\ ~ isPaymentUpdate e)
  /\ (Json.get "dry_run" (SweepRoute.body req) <> Json.Bool true ->
      mayTrigger penv req ->
      fst out
      = fst (Sweep.run senv
               {| limit := SweepRoute.limitOf req; adminId := Some "system";
                  dryRun := Some false |} store)
      /\ forall message result,
           SweepRoute.json (snd out) = SweepRoute.SweepReport message result ->
           message = "Sweep complete").
Proof.
  cbv zeta. unfold SweepRoute.postRun. split.
  - intros Hdry.
    destruct (SweepRoute.requireAdminSecret penv req) as [refusal|].
    + simpl. split; [reflexivity | intros e []].
    + unfold SweepRoute.handleRun.
      assert (Hopt : Sweep.dryRunOf (SweepRoute.optionsOf req) = true).
      { unfold Sweep.dryRunOf, SweepRoute.optionsOf, SweepRoute.dryRunOf. simpl.
        now rewrite Hdry. }
      pose proof (dry_run_keeps_table (SweepRoute.optionsOf req) store Hopt) as H.
      destruct (Sweep.run senv (SweepRoute.optionsOf req) store) as [st [r|e]];
        exact H.
  - intros Hnot Hmay. apply requireAdminSecret_next in Hmay. rewrite Hmay.
    unfold SweepRoute.handleRun.
    assert (Hflag : SweepRoute.dryRunOf req = false).
    { unfold SweepRoute.dryRunOf.
      destruct (Json.get "dry_run" (SweepRoute.body req)) as [| |[]| | |];
        try reflexivity. congruence. }
    unfold SweepRoute.optionsOf. rewrite Hflag.
    destruct (Sweep.run senv _ store) as [st [r|e]]; simpl.
    + split; [reflexivity|]. now intros message result [= <- _].
    + split; [reflexivity | discriminate].
Qed.

(** X24. An allowed request whose [limit] is a positive finite number
    that is not an integer is answered 500 "Sweep failed": the query is
    rejected after the audit trigger was logged, so the trigger is never
    completed, and no payment is looked at. *)
Theorem fractional_limit_is_answered_500_after_the_audit_trigger req store l :
  mayTrigger penv req ->
  Json.get "limit" (SweepRoute.body req) = Json.Num l ->
  JsNumber.isFinite l = true ->
  JsNumber.gtb l JsNumber.zero = true ->
  JsNumber.toInteger l = None ->
  exists error,
    SweepRoute.postRun penv senv req store
    = ({| Sweep.db := store; Sweep.txHashes := []; Sweep.skipped := [];
          Sweep.total := JsNumber.zero; Sweep.addressesSwept := 0%nat;
          Sweep.events :=
            [AuditSweepTrigger "system"
               (if SweepRoute.dryRunOf req then "dry_run" else "scheduled")] |},
       {| SweepRoute.statusCode := 500;
          SweepRoute.json := SweepRoute.Failure "Sweep failed" error |}).
Proof.
  intros Hmay Hlimit Hfin Hpos Hfrac.
  unfold SweepRoute.postRun. apply requireAdminSecret_next in Hmay. rewrite Hmay.
  unfold SweepRoute.handleRun.
  assert (Hres : Sweep.resolveLimit senv (SweepRoute.optionsOf req) = l).
  { unfold Sweep.resolveLimit, SweepRoute.optionsOf, SweepRoute.limitOf. simpl.
    rewrite Hlimit, Hfin, Hpos. reflexivity. }
  destruct (Sweep.getUnsweptPaidPayments
              (Sweep.resolveLimit senv (SweepRoute.optionsOf req)) store)
    as [payments|e] eqn:Hsel.
  - rewrite Hres in Hsel. unfold Sweep.getUnsweptPaidPayments, Prisma.take in Hsel.
    rewrite Hfrac in Hsel. discriminate.
  - rewrite (run_rejected senv (SweepRoute.optionsOf req) store e Hsel).
    exists (message e).
    unfold loopStart, Sweep.adminIdOf, Sweep.dryRunOf, SweepRoute.optionsOf. simpl.
    destruct (SweepRoute.dryRunOf req); reflexivity.
Qed.

End RouteFacts.

(* ------------------------------------------------------------------ *)
(** ** The monitor's timer *)

Section TimerFacts.

Lemma clearInterval_fresh h l :
  Forall (fun i : nat * number => (fst i < h)%nat) l -> MonitorTimer.clearInterval h l = l.
Proof.
  induction 1 as [|i l Hi _ IH]; simpl; [reflexivity|].
  assert (Nat.eqb (fst i) h = false) as -> by (apply Nat.eqb_neq; lia).
  simpl. now rewrite IH.
Qed.

Lemma clearInterval_app h a b :
  MonitorTimer.clearInterval h (a ++ b)
  = (MonitorTimer.clearInterval h a ++ MonitorTimer.clearInterval h b)%list.
Proof. apply filter_app. Qed.

(** X25. Starting the monitor and stopping it leaves the intervals of
    the process as they were, and a second stop does nothing.  Starting
    twice and stopping once leaves the first interval running with no
    handle left to clear it: the second start overwrites [monitorTimer]
    without clearing the first. *)
Theorem second_start_leaves_the_first_interval_running_for_good v1 v2 rt :
  handlesIssued rt ->
  let period v :=
    JsParse.parseInt10 (if JsString.truthyOpt v then orElse v "" else "120000") in
  let once := MonitorTimer.stopPaymentMonitor (MonitorTimer.startPaymentMonitor v1 rt) in
  let twice :=
    MonitorTimer.stopPaymentMonitor
      (MonitorTimer.startPaymentMonitor v2 (MonitorTimer.startPaymentMonitor v1 rt)) in
  MonitorTimer.intervals once = MonitorTimer.intervals rt
  /\ MonitorTimer.monitorTimer once = None
  /\ MonitorTimer.stopPaymentMonitor once = once
  /\ MonitorTimer.intervals twice
     = (MonitorTimer.intervals rt ++ [(MonitorTimer.nextHandle rt, period v1)])%list
  /\ MonitorTimer.stopPaymentMonitor twice = twice
  /\ MonitorTimer.immediateTicks twice = Datatypes.S (Datatypes.S (MonitorTimer.immediateTicks rt)).
Proof.
  intros Hissued. cbv zeta.
  unfold MonitorTimer.stopPaymentMonitor, MonitorTimer.startPaymentMonitor. simpl.
  rewrite !clearInterval_app.
  rewrite (clearInterval_fresh (MonitorTimer.nextHandle rt)) by exact Hissued.
  rewrite (clearInterval_fresh (Datatypes.S (MonitorTimer.nextHandle rt))).
  - unfold MonitorTimer.clearInterval. simpl.
    rewrite Nat.eqb_refl. simpl.
    assert (Nat.eqb (MonitorTimer.nextHandle rt) (Datatypes.S (MonitorTimer.nextHandle rt))
            = false) as -> by (apply Nat.eqb_neq; lia).
    simpl. rewrite app_nil_r. repeat split.
    destruct (MonitorTimer.nextHandle rt); simpl; now rewrite ?Nat.eqb_refl, ?app_nil_r.
  - eapply Forall_impl; [|exact Hissued]. simpl. intros; lia.
Qed.

End TimerFacts.

(* ------------------------------------------------------------------ *)
(** ** The further properties on samples *)

Section OnMoreSamples.

Import Scenario Samples.

(** X1 on the sample table, where three payments are selected. *)
Lemma sample_three_selected_two_swept_one_skipped :
  exists r,
    snd (Sweep.run sweepEnv realRun sweepStore) = Ok r
    /\ (SweepResult.addressesSwept r + List.length (SweepResult.skipped r) = 3)%nat
    /\ List.length (SweepResult.txHashes r) = SweepResult.addressesSwept r.
Proof.
  destruct (every_selected_payment_is_counted_or_skipped sweepEnv realRun sweepStore
              [p1; p2; p3] eq_refl) as (r & Hr & Htally & Hhashes & _).
  exists r. split; [exact Hr|]. split; [exact Htally | exact Hhashes].
Defined.

(** X2 on the sample table. *)
Lemma sample_run_keeps_the_swept_row :
  rowwise (fun r r' => sweepColumnsOnly r r' /\ (Sweep.unsweptPaid r = false -> r' = r))
    sweepStore (Sweep.db (fst (Sweep.run sweepEnv realRun sweepStore))).
Proof.
  apply (run_writes_sweep_columns_of_eligible_rows_only sweepEnv realRun sweepStore).
  apply distinct_primaryKey; reflexivity.
Defined.

(** X3 on the sample table: [p2] has amount 0. *)
Lemma sample_invalid_amount_stays_eligible :
  Prisma.findUnique "p2" (Sweep.db (fst (Sweep.run sweepEnv realRun sweepStore))) = Some p2
  /\ In p2 (Prisma.findMany Sweep.unsweptPaid
              (Sweep.db (fst (Sweep.run sweepEnv realRun sweepStore)))).
Proof.
  destruct (skipped_payment_keeps_its_row_and_stays_eligible sweepEnv realRun sweepStore
              [p1; p2; p3] p2 "Invalid amount") as (Hrow & Hel & _).
  - apply distinct_primaryKey; reflexivity.
  - reflexivity.
  - simpl; tauto.
  - apply FailsAmount. reflexivity.
  - split; [exact Hrow | exact Hel].
Defined.

(** X4 on the sample table. *)
Lemma sample_one_transfer_for_p1 :
  (submissionsFor "p1" (Sweep.events (fst (Sweep.run sweepEnv realRun sweepStore))) <= 1)%nat.
Proof.
  destruct (at_most_one_transfer_per_payment_and_only_to_the_vault sweepEnv realRun
              sweepStore [p1; p2; p3]) as (Hone & _).
  - apply distinct_primaryKey; reflexivity.
  - reflexivity.
  - apply Hone.
Defined.

(** X5 on a table holding [p2] only: nothing is swept, and the entry says
    so. *)
Lemma sample_nothing_swept_is_reported_failed :
  exists r before,
    snd (Sweep.run sweepEnv realRun [p2]) = Ok r
    /\ Sweep.events (fst (Sweep.run sweepEnv realRun [p2]))
       = (before
          ++ [AuditSweepCompletion "failed" 0 "0.0000000" None
                (Some "p2:Invalid amount")])%list.
Proof.
  destruct (audit_entry_says_failed_only_when_every_selected_payment_was_skipped
              sweepEnv realRun [p2] [p2] eq_refl eq_refl)
    as (r & before & Hr & Hev & _ & Hfailed).
  exists r, before. split; [exact Hr|].
  assert (Hnone : noneSwept r = true).
  { apply Hfailed. split; [discriminate|].
    vm_compute in Hr. injection Hr as <-. reflexivity. }
  rewrite Hev, Hnone.
  vm_compute in Hr. injection Hr as <-. reflexivity.
Defined.

(** X6 on the sample table: [m2] has expired. *)
Lemma sample_status_after_tick :
  exists r',
    Prisma.findUnique "m2"
      (Monitor.db (fst (Monitor.tick (monitorEnv "100" paidPage false) 1000 monitorStore)))
    = Some r'
    /\ (status r' = status m2
        \/ (Monitor.pendingOrPartial m2 = true /\ expiration m2 <= 1000
            /\ status r' = expired)
        \/ (Monitor.pendingOrPartial m2 = true /\ 1000 < expiration m2
            /\ classified (monitorEnv "100" paidPage false) m2 (status r'))).
Proof.
  apply (tick_changes_a_status_only_by_expiry_or_by_the_balance
           (monitorEnv "100" paidPage false) 1000 monitorStore "m2" m2).
  - apply distinct_primaryKey; reflexivity.
  - reflexivity.
Defined.

(** X7 on the sample table. *)
Lemma sample_hash_after_tick :
  exists r',
    Prisma.findUnique "m1"
      (Monitor.db (fst (Monitor.tick (monitorEnv "100" paidPage false) 1000 monitorStore)))
    = Some r'
    /\ (transaction_hash r' = transaction_hash m1
        \/ exists h, transaction_hash r' = Some h /\ h <> ""
                     /\ observedHash (monitorEnv "100" paidPage false) h).
Proof.
  apply (tick_records_only_hashes_of_usdc_payment_records
           (monitorEnv "100" paidPage false) 1000 monitorStore "m1" m1).
  - apply distinct_primaryKey; reflexivity.
  - reflexivity.
Defined.

(** X8 on a table holding the confirmed [p1] beside [m1]. *)
Lemma sample_confirmed_row_is_not_watched :
  Prisma.findUnique "p1"
    (Monitor.db (fst (Monitor.tick (monitorEnv "100" paidPage false) 1000 [m1; p1])))
  = Some p1.
Proof.
  apply (tick_leaves_rows_it_does_not_watch_untouched
           (monitorEnv "100" paidPage false) 1000 [m1; p1] "p1" p1).
  - apply distinct_primaryKey; reflexivity.
  - reflexivity.
  - left. reflexivity.
Defined.

(** X10 on the sample table, with a ledger that answers 500. *)
Lemma sample_server_error_is_logged :
  Prisma.findUnique "m1"
    (Monitor.db (fst (Monitor.tick (failingLedger serverError) 1000 monitorStore)))
  = Some m1
  /\ exists earlier later calls logged,
       selected 1000 monitorStore = (earlier ++ m1 :: later)%list
       /\ (calls = [LoadAccount "Gm1"]
           /\ Monitor.loadAccount (failingLedger serverError) "Gm1" = Throw serverError
           \/ calls = [LoadAccount "Gm1"; PaymentsCall "Gm1" (Monitor.cursorOf m1)]
              /\ Monitor.paymentsCall (failingLedger serverError) "Gm1"
                   (Monitor.cursorOf m1) = Throw serverError)
       /\ (responseStatus serverError = Some 404 -> logged = [])
       /\ (responseStatus serverError <> Some 404 ->
           logged = [ConsoleError ("[PaymentMonitor] Error checking address " ++ "Gm1")])
       /\ fst (Monitor.tick (failingLedger serverError) 1000 monitorStore)
          = fst (forOf later (Monitor.monitorIteration (failingLedger serverError))
                   {| Monitor.db :=
                        Monitor.db
                          (fst (forOf earlier
                                  (Monitor.monitorIteration (failingLedger serverError))
                                  (afterExpiry 1000 monitorStore)));
                      Monitor.events :=
                        (Monitor.events
                           (fst (forOf earlier
                                   (Monitor.monitorIteration (failingLedger serverError))
                                   (afterExpiry 1000 monitorStore)))
                         ++ calls ++ logged)%list |}).
Proof.
  apply (ledger_error_leaves_the_row_and_is_logged_unless_404
           (failingLedger serverError) 1000 monitorStore m1 "Gm1" serverError).
  - apply distinct_primaryKey; reflexivity.
  - simpl; tauto.
  - reflexivity.
  - reflexivity.
  - discriminate.
  - left. reflexivity.
Defined.

(** X11 on the sample table: no balance and no record for [m1]. *)
Lemma sample_unpaid_payment_is_left_alone :
  Prisma.findUnique "m1"
    (Monitor.db (fst (Monitor.tick (monitorEnv "0" [] false) 1000 monitorStore)))
  = Some m1
  /\ forall d,
       ~ In (PaymentUpdate "m1" d)
            (Monitor.events (fst (Monitor.tick (monitorEnv "0" [] false) 1000 monitorStore))).
Proof.
  apply (tick_writes_nothing_for_a_payment_with_no_news
           (monitorEnv "0" [] false) 1000 monitorStore m1 "Gm1" (accountWith "0")).
  - apply distinct_primaryKey; reflexivity.
  - simpl; tauto.
  - reflexivity.
  - reflexivity.
  - discriminate.
  - reflexivity.
  - reflexivity.
  - left. vm_compute. reflexivity.
Defined.

(** X12 on the sample table, which has no payment "ghost". *)
Lemma sample_unknown_payment_is_invoked_three_times :
  (exists e, snd (Verify.call verifyEnv "ghost" "tx_1" "100" monitorStore) = Throw e)
  /\ invocations (Verify.events (fst (Verify.call verifyEnv "ghost" "tx_1" "100" monitorStore)))
     = 3%nat.
Proof.
  destruct (verify_payment_for_an_unknown_payment_rejects_after_three_invocations
              verifyEnv "ghost" "tx_1" "100" monitorStore eq_refl eq_refl)
    as (Hres & _ & Hinv & _).
  split; [exact Hres | exact Hinv].
Defined.

(** X14 with a server that answers every lookup NOT_FOUND. *)
Lemma sample_never_found_is_verified :
  snd (Invoke.invokeVerifyContract (rpc neverFound) "m1" "tx_1" "100" [])
  = Ok (answerOf neverFound 15)
  /\ lookups (fst (Invoke.invokeVerifyContract (rpc neverFound) "m1" "tx_1" "100" []))
     = 16%nat
  /\ exists r',
       Prisma.findUnique "m1"
         (Verify.db
            (fst (Verify.call (Invoke.asVerifyEnv "CCONTRACT" (fun _ => rpc neverFound))
                    "m1" "tx_1" "100" monitorStore)))
       = Some r'
       /\ onchain_verified r' = true.
Proof.
  destruct (transaction_never_found_is_returned_and_recorded_as_verified
              (rpc neverFound) "m1" "tx_1" "100" 1000000000 sent (answerOf neverFound))
    as (Hrun & Hverify).
  - repeat split; vm_compute; reflexivity.
  - discriminate.
  - intros j _. split; reflexivity.
  - rewrite Hrun. split; [reflexivity|]. split; [reflexivity|].
    destruct (Hverify "CCONTRACT" (fun _ => rpc neverFound) monitorStore m1
                eq_refl eq_refl eq_refl) as (_ & r' & Hr' & Hv & _).
    exists r'. split; [exact Hr' | exact Hv].
Defined.

(** X15 with a server that answers the third lookup SUCCESS. *)
Lemma sample_found_at_third_lookup :
  Invoke.invokeVerifyContract (rpc foundAtThirdLookup) "m1" "tx_1" "100" []
  = ((callsUntilFirstLookup (rpc foundAtThirdLookup) "m1" "tx_1" 1000000000 sent
      ++ rounds 2 "ctx_9")%list,
     Ok (answerOf foundAtThirdLookup 2)).
Proof.
  destruct (first_answer_other_than_not_found_decides_the_invocation
              (rpc foundAtThirdLookup) "m1" "tx_1" "100" 1000000000 sent
              (answerOf foundAtThirdLookup) 2) as (_ & Hdecides).
  - repeat split; vm_compute; reflexivity.
  - apply Hdecides.
    + discriminate.
    + lia.
    + intros j _. reflexivity.
    + intros j Hj. destruct j as [|[|j]]; [reflexivity | reflexivity | lia].
    + discriminate.
Defined.

(** X16 with the amount "abc". *)
Lemma sample_amount_abc_reaches_no_server :
  Invoke.invokeVerifyContract (rpc neverFound) "m1" "tx_1" "abc" []
  = ([],
     Throw (mkError
              "The number NaN cannot be converted to a BigInt because it is not an integer")).
Proof.
  destruct (amount_that_is_not_a_number_fails_every_attempt_before_any_rpc_call
              (rpc neverFound) "m1" "tx_1" "abc" eq_refl eq_refl) as (Hrun & _).
  apply Hrun.
Defined.

(** X18 on a table that has no entry "log_zz". *)
Lemma sample_unknown_audit_entry :
  snd (Audit.updateSweepCompletion (auditEnv up) "log_zz" "completed" (Some oneSwept) None
         (Audit.initial [triggerEntry]))
  = Ok None
  /\ Audit.logs
       (fst (Audit.updateSweepCompletion (auditEnv up) "log_zz" "completed" (Some oneSwept)
               None (Audit.initial [triggerEntry])))
     = [triggerEntry].
Proof.
  destruct (completing_an_unknown_audit_entry_returns_null_and_writes_nothing
              (auditEnv up) "log_zz" "completed" (Some oneSwept) None
              (Audit.initial [triggerEntry]) eq_refl) as (Hres & Hlogs & _).
  split; [exact Hres | exact Hlogs].
Defined.

(** X19 on a table holding one trigger entry. *)
Lemma sample_completed_entry :
  exists r',
    snd (Audit.updateSweepCompletion (auditEnv up) "log_a" "completed" (Some oneSwept) None
           (Audit.initial [triggerEntry]))
    = Ok (Some r')
    /\ AuditLog.action_type r' = sweep_complete
    /\ Json.get "status" (AuditLog.details r') = Json.Str "completed"
    /\ Json.get "sweep_type" (AuditLog.details r') = Json.Str "scheduled".
Proof.
  destruct (completion_rewrites_the_entry_in_place_and_keeps_its_other_details
              (auditEnv up) "log_a" "completed" (Some oneSwept) None
              (Audit.initial [triggerEntry]) triggerEntry triggerFields
              eq_refl eq_refl eq_refl eq_refl eq_refl eq_refl)
    as (r' & Hres & _ & _ & _ & _ & _ & _ & _ & _ & Hact & Hstatus & _ & _ & Hkeep).
  exists r'. split; [exact Hres|]. split; [exact Hact|]. split; [exact Hstatus|].
  rewrite Hkeep by discriminate. reflexivity.
Defined.

(** X20 with the values of the audit service's own test. *)
Lemma sample_secret_is_redacted :
  exists row,
    snd (Audit.logConfigChange (auditEnv up) "admin_1" "api_secret_key" "old-secret-123"
           "new-secret-456" (Some true) (Audit.initial []))
    = Ok (Some row)
    /\ Json.get "new_value" (AuditLog.details row) = Json.Str "***REDACTED***".
Proof.
  destruct (sensitive_config_values_are_kept_out_of_the_table_and_the_log
              (auditEnv up) "admin_1" "api_secret_key" "old-secret-123" "new-secret-456"
              (Audit.initial []) eq_refl) as (_ & (row & Hrow & _ & Hnew & _) & _).
  exists row. split; [exact Hrow | exact Hnew].
Defined.

(** X21 from an empty table. *)
Lemma sample_trigger_then_completion :
  exists row row',
    snd (Audit.logSweepTrigger (auditEnv up) "system" "scheduled" "nightly"
           (Audit.initial []))
    = Ok (Some row)
    /\ Audit.logs
         (fst (Audit.updateSweepCompletion (auditEnv up) (AuditLog.id row) "failed" None
                 (Some "p2:Invalid amount")
                 (fst (Audit.logSweepTrigger (auditEnv up) "system" "scheduled" "nightly"
                         (Audit.initial [])))))
       = [row']
    /\ AuditLog.action_type row' = sweep_fail
    /\ Json.get "trigger_reason" (AuditLog.details row') = Json.Str "nightly".
Proof.
  destruct (sweep_audit_entry_is_one_row_from_trigger_to_completion
              (auditEnv up) "system" "scheduled" "nightly" "failed" None
              (Some "p2:Invalid amount") (Audit.initial [])
              eq_refl eq_refl eq_refl eq_refl)
    as (row & row' & Hrow & _ & _ & Hlogs & _ & _ & _ & _ & Hact & _ & Hreason & _).
  exists row, row'. split; [exact Hrow|]. split; [exact Hlogs|].
  split; [exact Hact | exact Hreason].
Defined.

(** X24 with [limit: 2.5], outside production. *)
Lemma sample_limit_two_and_a_half :
  SweepRoute.statusCode
    (snd (SweepRoute.postRun development sweepEnv
            (anonymous (Json.Obj [("limit", Json.Num twoAndHalf)])) sweepStore))
  = 500
  /\ Sweep.db
       (fst (SweepRoute.postRun development sweepEnv
               (anonymous (Json.Obj [("limit", Json.Num twoAndHalf)])) sweepStore))
     = sweepStore.
Proof.
  destruct (fractional_limit_is_answered_500_after_the_audit_trigger development sweepEnv
              (anonymous (Json.Obj [("limit", Json.Num twoAndHalf)])) sweepStore twoAndHalf)
    as (error & Hrun).
  - right. split; [now left | discriminate].
  - reflexivity.
  - reflexivity.
  - reflexivity.
  - reflexivity.
  - rewrite Hrun. split; reflexivity.
Defined.

(** X25 from a process that has started no timer. *)
Lemma sample_started_twice_stopped_once :
  MonitorTimer.intervals
    (MonitorTimer.stopPaymentMonitor
       (MonitorTimer.startPaymentMonitor None (MonitorTimer.startPaymentMonitor None idle)))
  = [(0%nat, JsNumber.ofZ 120000)].
Proof.
  destruct (second_start_leaves_the_first_interval_running_for_good None None idle)
    as (_ & _ & _ & Htwice & _).
  - constructor.
  - rewrite Htwice. reflexivity.
Defined.

(** X26 on the sample table. *)
Lemma sample_dry_run_projects_two_payments :
  exists projected swept,
    snd (Sweep.run acceptingSweepEnv (withDryRun true realRun) sweepStore) = Ok projected
    /\ snd (Sweep.run acceptingSweepEnv (withDryRun false realRun) sweepStore) = Ok swept
    /\ SweepResult.addressesSwept projected = SweepResult.addressesSwept swept
    /\ SweepResult.totalAmount projected = "150.0000000".
Proof.
  destruct (dry_run_reports_what_the_run_sweeps_when_the_ledger_accepts acceptingSweepEnv
              realRun sweepStore [p1; p2; p3])
    as (projected & swept & Hd & Hr & Ha & _).
  - intros source destination amountStr. eexists. reflexivity.
  - reflexivity.
  - exists projected, swept. split; [exact Hd|]. split; [exact Hr|]. split; [exact Ha|].
    vm_compute in Hd. injection Hd as <-. reflexivity.
Defined.

(** X27 with [SWEEP_BATCH_LIMIT=all]. *)
Lemma sample_batch_limit_all :
  exists e,
    Sweep.run misconfiguredSweepEnv realRun sweepStore
    = (loopStart realRun sweepStore, Throw e).
Proof.
  apply (batch_limit_that_is_no_number_rejects_every_run_without_a_limit
           misconfiguredSweepEnv realRun sweepStore "all");
    [reflexivity | reflexivity | discriminate | reflexivity].
Defined.

(** X9 on the sample table, with a ledger that answers 500. *)
Lemma sample_tick_survives_a_failing_ledger :
  snd (Monitor.tick (failingLedger serverError) 1000 monitorStore) = Ok tt.
Proof.
  apply (tick_never_throws_and_writes_status_cursor_and_hash_only
           (failingLedger serverError) 1000 monitorStore).
Defined.

(** X13 with a server that answers every lookup NOT_FOUND. *)
Lemma sample_sixteen_lookups :
  (lookups (fst (Invoke.invokeVerifyContract (rpc neverFound) "m1" "tx_1" "100" []))
   <= 16)%nat
  /\ waits (fst (Invoke.invokeVerifyContract (rpc neverFound) "m1" "tx_1" "100" []))
     = repeat 3000 15.
Proof.
  destruct (invocation_looks_a_transaction_up_at_most_sixteen_times
              (rpc neverFound) "m1" "tx_1" "100") as (Hle & _ & Hwaits & _).
  split; [exact Hle|]. rewrite Hwaits. reflexivity.
Defined.

(** X17 with a database that refuses the first two queries. *)
Lemma sample_insert_succeeds_at_third_try :
  exists row,
    snd (Audit.createAuditLog (auditEnv (fun n => (n <? 2)%nat))
           {| param_admin_id := "system"; param_action_type := sweep_trigger;
              param_entity_type := sweep_operation; param_entity_id := "sweep_1000";
              param_details := Json.Obj triggerFields |}
           (Audit.initial []))
    = Ok (Some row)
    /\ delays
         (Audit.output
            (fst (Audit.createAuditLog (auditEnv (fun n => (n <? 2)%nat))
                    {| param_admin_id := "system"; param_action_type := sweep_trigger;
                       param_entity_type := sweep_operation;
                       param_entity_id := "sweep_1000";
                       param_details := Json.Obj triggerFields |}
                    (Audit.initial []))))
       = [200; 400].
Proof.
  destruct (createAuditLog_never_throws_and_gives_up_after_three_failed_inserts
              (auditEnv (fun n => (n <? 2)%nat))
              {| param_admin_id := "system"; param_action_type := sweep_trigger;
                 param_entity_type := sweep_operation; param_entity_id := "sweep_1000";
                 param_details := Json.Obj triggerFields |}
              (Audit.initial [])) as (_ & Hsucc & _).
  destruct (Hsucc 2%nat) as (Hres & _ & Hdelays).
  - lia.
  - intros j Hj. destruct j as [|[|j]]; [discriminate | discriminate | lia].
  - reflexivity.
  - eexists. split; [exact Hres | exact Hdelays].
Defined.

(** X22 in production, for a caller who presents a wrong secret. *)
Lemma sample_wrong_secret_is_refused :
  fst (SweepRoute.postRun production sweepEnv
         {| SweepRoute.x_admin_secret := Some (SweepRoute.Single "guess");
            SweepRoute.body := Json.Undefined |} sweepStore)
  = Sweep.initial sweepStore
  /\ SweepRoute.statusCode
       (snd (SweepRoute.postRun production sweepEnv
               {| SweepRoute.x_admin_secret := Some (SweepRoute.Single "guess");
                  SweepRoute.body := Json.Undefined |} sweepStore))
     = 401.
Proof.
  destruct (sweep_is_run_only_for_a_caller_who_may_trigger_it production sweepEnv
              {| SweepRoute.x_admin_secret := Some (SweepRoute.Single "guess");
                 SweepRoute.body := Json.Undefined |} sweepStore) as (_ & Hrefused & _).
  destruct Hrefused as (Hst & _).
  - intros [(secret & [= <-] & _ & [=])|[[[=]|[=]] _]].
  - split; [exact Hst | reflexivity].
Defined.

(** X23 with [dry_run: "true"], a string: the sweep is real. *)
Lemma sample_dry_run_as_a_string_sweeps :
  Sweep.txHashes
    (fst (SweepRoute.postRun development sweepEnv
            (anonymous (Json.Obj [("dry_run", Json.Str "true")])) sweepStore))
  = ["tx_Sp1"; "tx_Sp3"].
Proof.
  destruct (only_the_boolean_true_asks_for_a_dry_run_and_a_dry_run_changes_nothing
              development sweepEnv
              (anonymous (Json.Obj [("dry_run", Json.Str "true")])) sweepStore)
    as (_ & Hreal).
  destruct Hreal as (Hst & _).
  - discriminate.
  - right. split; [now left | discriminate].
  - rewrite Hst. reflexivity.
Defined.

(** X28 on a table holding the confirmed [p1] beside [m1], through three
    ticks. *)
Lemma sample_confirmed_row_through_three_ticks :
  Prisma.findUnique "p1"
    (afterTicks [(monitorEnv "40" paidPage false, 1000);
                 (failingLedger serverError, 2000);
                 (monitorEnv "100" paidPage true, 6000)] [m1; p1])
  = Some p1.
Proof.
  apply (settled_row_is_final_through_any_number_of_ticks
           [(monitorEnv "40" paidPage false, 1000);
            (failingLedger serverError, 2000);
            (monitorEnv "100" paidPage true, 6000)] [m1; p1] "p1" p1).
  - apply distinct_primaryKey; reflexivity.
  - reflexivity.
  - reflexivity.
Defined.

End OnMoreSamples.
